(** * sunheart-core: goal scheduling and protocol negotiation

    A shallow embedding of the two decision procedures of the repository,

    - [.ai/evolution/threads.py]: [EvolutionGoal], [EvolutionThread] and
      the operations of [SelfEvolvingThreads] on stored threads
      ([create_thread], [get_thread], [update_thread],
      [add_evolution_step], [update_goal_progress] and the index of
      active threads);
    - [.ai/protocols/harmonizer.py]: the operations of
      [ProtocolHarmonizer] on the protocol store
      ([initialize_protocol_registry], [register_protocol],
      [set_primary_protocol], [_negotiate_primary_protocol],
      [report_protocol_usage] and the read accessors);

    followed by the properties the specification states about them and
    by further properties of the code.

    Conventions of the embedding.  Python integers are [Z]; strings are
    [string] (bytes; the only case-sensitive operation, [str.lower], is
    modelled on ASCII letters); [None] is [None]; a dictionary read from
    JSON is a [gmap string json]; a Python set is a [gset].  Every call of
    [datetime.datetime.now().isoformat()] whose value is kept is a read
    of the wall clock; the clock is a class parameter and the number of
    reads made so far is threaded as state. *)

From Stdlib Require Import ZArith Lia Ascii String.
From stdpp Require Import base numbers option list sorting gmap strings pretty.

Local Open Scope string_scope.
Local Open Scope list_scope.
Local Open Scope Z_scope.

(** ** Python built-ins used by the sources *)

(** Truth value of an [Optional[str]]: [None] and the empty string are
    false. *)
Definition truthy (o : option string) : bool :=
  match o with
  | Some s => negb (String.eqb s "")
  | None => false
  end.

Section Sorted.
Context {A : Type} (key : A → Z).

(** [before reverse y x]: [y] has to come strictly before [x]. *)
Definition before (reverse : bool) (y x : A) : bool :=
  if reverse then key x <? key y else key y <? key x.

(** Insertion of [x], which preceded every element of [l] in the input:
    it passes the elements that come strictly before it and stops at
    the first one that does not, so it stays ahead of its equals. *)
Fixpoint insort (reverse : bool) (x : A) (l : list A) : list A :=
  match l with
  | [] => [x]
  | y :: l' => if before reverse y x then y :: insort reverse x l' else x :: l
  end.

(** [sorted(l, key=key, reverse=reverse)].  The built-in is a stable
    sort, also with [reverse=True] (equal elements keep their input
    order); a stable sort has one possible result, computed here by
    insertion. *)
Definition sorted (reverse : bool) (l : list A) : list A :=
  foldr (insort reverse) [] l.
End Sorted.

(** ** The wall clock *)

(** [isoformat_now n] is the text returned by the [n]-th read of
    [datetime.datetime.now().isoformat()]. *)
Class Clock := isoformat_now : nat → string.

(** State passing. *)
Definition State (S A : Type) : Type := S → A * S.

#[global] Instance State_ret {S} : MRet (State S) := λ A a s, (a, s).
#[global] Instance State_bind {S} : MBind (State S) :=
  λ A B f m s, let '(a, s') := m s in f a s'.

(** Computations that only read the clock: the state is the number of
    reads made so far. *)
Definition Clocked (A : Type) : Type := State nat A.

Definition now `{Clock} : Clocked string := λ n, (isoformat_now n, S n).

(** ** [class EvolutionGoal] *)

Module EvolutionGoal.

Record t := mk {
  goal_id : string;
  name : string;
  description : string;
  success_criteria : list string;
  priority : Z;
  dependencies : list string;
  estimated_steps : option Z;
  status : string;
  progress : Z;
  created_at : string;
  started_at : option string;
  completed_at : option string;
  last_updated : string;
  evolution_thread : option string
}.

Definition set_priority (v : Z) (g : t) : t :=
  mk (goal_id g) (name g) (description g) (success_criteria g) v
     (dependencies g) (estimated_steps g) (status g) (progress g)
     (created_at g) (started_at g) (completed_at g) (last_updated g)
     (evolution_thread g).

Definition set_status (v : string) (g : t) : t :=
  mk (goal_id g) (name g) (description g) (success_criteria g) (priority g)
     (dependencies g) (estimated_steps g) v (progress g)
     (created_at g) (started_at g) (completed_at g) (last_updated g)
     (evolution_thread g).

Definition set_progress (v : Z) (g : t) : t :=
  mk (goal_id g) (name g) (description g) (success_criteria g) (priority g)
     (dependencies g) (estimated_steps g) (status g) v
     (created_at g) (started_at g) (completed_at g) (last_updated g)
     (evolution_thread g).

Definition set_started_at (v : option string) (g : t) : t :=
  mk (goal_id g) (name g) (description g) (success_criteria g) (priority g)
     (dependencies g) (estimated_steps g) (status g) (progress g)
     (created_at g) v (completed_at g) (last_updated g)
     (evolution_thread g).

Definition set_completed_at (v : option string) (g : t) : t :=
  mk (goal_id g) (name g) (description g) (success_criteria g) (priority g)
     (dependencies g) (estimated_steps g) (status g) (progress g)
     (created_at g) (started_at g) v (last_updated g)
     (evolution_thread g).

Definition set_last_updated (v : string) (g : t) : t :=
  mk (goal_id g) (name g) (description g) (success_criteria g) (priority g)
     (dependencies g) (estimated_steps g) (status g) (progress g)
     (created_at g) (started_at g) (completed_at g) v
     (evolution_thread g).

Definition set_evolution_thread (v : option string) (g : t) : t :=
  mk (goal_id g) (name g) (description g) (success_criteria g) (priority g)
     (dependencies g) (estimated_steps g) (status g) (progress g)
     (created_at g) (started_at g) (completed_at g) (last_updated g) v.

(** [__init__]: a fresh goal is pending at progress 0; the priority is
    clamped to 1..10. *)
Definition init `{Clock} (goal_id name description : string)
    (success_criteria : list string) (priority : Z)
    (dependencies : list string) (estimated_steps : option Z) : Clocked t :=
  created ← now;
  mret (mk goal_id name description success_criteria
           (Z.min 10 (Z.max 1 priority)) dependencies estimated_steps
           "pending" 0 created None None created None).

(** [from_dict] on a document that carries every key: the constructor
    runs on the descriptive fields (clamping the priority) and the
    remaining fields are copied from the document. *)
Definition from_dict (data : t) : t :=
  set_priority (Z.min 10 (Z.max 1 (priority data))) data.

(** [to_dict] lists every attribute under its own name. *)
Definition to_dict (self : t) : t := self.

(** [update_progress(self, progress, status=None)]. *)
Definition update_progress `{Clock} (self : t) (progress : Z)
    (status : option string) : Clocked t :=
  let self := set_progress (Z.min 100 (Z.max 0 progress)) self in
  let self := match status with
              | Some s => if truthy status then set_status s self else self
              | None => self
              end in
  updated ← now;
  let self := set_last_updated updated self in
  if (progress =? 100) && negb (String.eqb (EvolutionGoal.status self) "completed")
  then
    let self := set_status "completed" self in
    completed ← now;
    mret (set_completed_at (Some completed) self)
  else if (0 <? progress) && String.eqb (EvolutionGoal.status self) "pending"
  then
    let self := set_status "in_progress" self in
    if negb (truthy (started_at self)) then
      started ← now;
      mret (set_started_at (Some started) self)
    else mret self
  else mret self.

(** A goal dictionary as a caller of [create_thread] supplies it.  The
    keys [from_dict] reads with [data.get] may be absent ([None]); the
    keys it indexes, ["name"], ["description"] and ["success_criteria"],
    are there; ["goal_id"] is absent when [create_thread] is to generate
    it. *)
Record data := mkData {
  data_goal_id : option string;
  data_name : string;
  data_description : string;
  data_success_criteria : list string;
  data_priority : option Z;
  data_dependencies : option (list string);
  data_estimated_steps : option Z;
  data_status : option string;
  data_progress : option Z;
  data_created_at : option string;
  data_started_at : option string;
  data_completed_at : option string;
  data_last_updated : option string;
  data_evolution_thread : option string
}.

(** [from_dict] on a dictionary whose ["goal_id"] is [goal_id].  The
    clock is read for [created_at] when the dictionary has none;
    [last_updated] defaults to [created_at]. *)
Definition from_data `{Clock} (goal_id : string) (d : data) : Clocked t :=
  created ← match data_created_at d with
            | Some created => mret created
            | None => now
            end;
  mret (mk goal_id (data_name d) (data_description d) (data_success_criteria d)
           (Z.min 10 (Z.max 1 (default 5 (data_priority d))))
           (default [] (data_dependencies d)) (data_estimated_steps d)
           (default "pending" (data_status d)) (default 0 (data_progress d))
           created (data_started_at d) (data_completed_at d)
           (default created (data_last_updated d)) (data_evolution_thread d)).

End EvolutionGoal.

(** ** [class EvolutionStep] *)

Module EvolutionStep.

Record t := mk {
  step_id : string;
  title : string;
  description : string;
  goals_advanced : list string;
  changes_made : list (gmap string string);
  outcome : string;
  ai_participants : list string;
  timestamp : string;
  evolution_thread : option string
}.

Definition set_evolution_thread (v : option string) (s : t) : t :=
  mk (step_id s) (title s) (description s) (goals_advanced s)
     (changes_made s) (outcome s) (ai_participants s) (timestamp s) v.

(** [__init__]: the step is stamped with the time of its creation. *)
Definition init `{Clock} (step_id title description : string)
    (goals_advanced : list string) (changes_made : list (gmap string string))
    (outcome : string) (ai_participants : list string) : Clocked t :=
  stamp ← now;
  mret (mk step_id title description goals_advanced changes_made outcome
           ai_participants stamp None).

End EvolutionStep.

(** ** [class EvolutionThread] *)

Module EvolutionThread.

Record t := mk {
  thread_id : string;
  name : string;
  description : string;
  creator : string;
  strategy : string;
  status : string;
  goals : list EvolutionGoal.t;
  steps : list EvolutionStep.t;
  created_at : string;
  last_evolution : option string;
  ai_participants : list string;
  repository : string
}.

Definition set_goals (v : list EvolutionGoal.t) (th : t) : t :=
  mk (thread_id th) (name th) (description th) (creator th) (strategy th)
     (status th) v (steps th) (created_at th) (last_evolution th)
     (ai_participants th) (repository th).

Definition set_steps (v : list EvolutionStep.t) (th : t) : t :=
  mk (thread_id th) (name th) (description th) (creator th) (strategy th)
     (status th) (goals th) v (created_at th) (last_evolution th)
     (ai_participants th) (repository th).

Definition set_last_evolution (v : option string) (th : t) : t :=
  mk (thread_id th) (name th) (description th) (creator th) (strategy th)
     (status th) (goals th) (steps th) (created_at th) v
     (ai_participants th) (repository th).

Definition set_ai_participants (v : list string) (th : t) : t :=
  mk (thread_id th) (name th) (description th) (creator th) (strategy th)
     (status th) (goals th) (steps th) (created_at th) (last_evolution th)
     v (repository th).

(** [from_dict] on a document that carries every key; the steps are
    copied as they are and the goals go through
    [EvolutionGoal.from_dict]. *)
Definition from_dict (data : t) : t :=
  set_goals (EvolutionGoal.from_dict <$> goals data) data.

Definition to_dict (self : t) : t :=
  set_goals (EvolutionGoal.to_dict <$> goals self) self.

(** [add_goal]. *)
Definition add_goal (self : t) (goal : EvolutionGoal.t) : t :=
  let goal := EvolutionGoal.set_evolution_thread (Some (thread_id self)) goal in
  set_goals (goals self ++ [goal]) self.

(** [add_step]. *)
Definition add_step `{Clock} (self : t) (step : EvolutionStep.t) : Clocked t :=
  let step := EvolutionStep.set_evolution_thread (Some (thread_id self)) step in
  let self := set_steps (steps self ++ [step]) self in
  stamp ← now;
  mret (set_last_evolution (Some stamp) self).

(** The loop of [update_goal_progress] over [self.goals]: the first goal
    with the given id is updated in place and the loop returns. *)
Fixpoint update_first `{Clock} (gs : list EvolutionGoal.t) (goal_id : string)
    (progress : Z) (status : option string)
    : Clocked (bool * list EvolutionGoal.t) :=
  match gs with
  | [] => mret (false, [])
  | goal :: rest =>
      if String.eqb (EvolutionGoal.goal_id goal) goal_id then
        goal' ← EvolutionGoal.update_progress goal progress status;
        mret (true, goal' :: rest)
      else
        '(found, rest') ← update_first rest goal_id progress status;
        mret (found, goal :: rest')
  end.

(** [update_goal_progress(self, goal_id, progress, status=None)]. *)
Definition update_goal_progress `{Clock} (self : t) (goal_id : string)
    (progress : Z) (status : option string) : Clocked (bool * t) :=
  '(found, gs) ← update_first (goals self) goal_id progress status;
  mret (found, set_goals gs self).

(** [add_ai_participant]. *)
Definition add_ai_participant (self : t) (ai_id : string) : t :=
  if bool_decide (ai_id ∈ ai_participants self) then self
  else set_ai_participants (ai_participants self ++ [ai_id]) self.

(** The second loop of [get_next_goals]: [next_goals] collects, in the
    order of [self.goals], the pending goals all of whose dependencies
    are in [completed_goals]. *)
Fixpoint collect_next (completed_goals : gset string)
    (gs next_goals : list EvolutionGoal.t) : list EvolutionGoal.t :=
  match gs with
  | [] => next_goals
  | goal :: rest =>
      if String.eqb (EvolutionGoal.status goal) "pending" then
        let dependencies_met :=
          forallb (λ dep, bool_decide (dep ∈ completed_goals))
                  (EvolutionGoal.dependencies goal) in
        if dependencies_met
        then collect_next completed_goals rest (next_goals ++ [goal])
        else collect_next completed_goals rest next_goals
      else collect_next completed_goals rest next_goals
  end.

(** [get_next_goals(self)]. *)
Definition get_next_goals (self : t) : list EvolutionGoal.t :=
  let in_progress_goals :=
    filter (λ goal, EvolutionGoal.status goal = "in_progress") (goals self) in
  match in_progress_goals with
  | _ :: _ => sorted EvolutionGoal.priority true in_progress_goals
  | [] =>
      let completed_goals : gset string :=
        list_to_set
          (EvolutionGoal.goal_id <$>
             filter (λ goal, EvolutionGoal.status goal = "completed") (goals self)) in
      let next_goals := collect_next completed_goals (goals self) [] in
      sorted EvolutionGoal.priority true next_goals
  end.

Definition set_repository (v : string) (th : t) : t :=
  mk (thread_id th) (name th) (description th) (creator th) (strategy th)
     (status th) (goals th) (steps th) (created_at th) (last_evolution th)
     (ai_participants th) v.

(** [__init__]: a fresh thread is active, without goals and steps, and
    its creator is its first participant. *)
Definition init `{Clock} (thread_id name description creator strategy : string)
    : Clocked t :=
  created ← now;
  mret (mk thread_id name description creator strategy "active" [] [] created
           None [creator] "sunheart-core").

End EvolutionThread.

(** ** [class SelfEvolvingThreads] *)

(** [hashlib.md5(text.encode()).hexdigest()], a parameter of the model. *)
Class Md5 := md5_hexdigest : string → string.

(** [for x in l: s = body(x, s)]. *)
Fixpoint for_each {A S : Type} (body : A → S → Clocked S) (l : list A) (s : S)
    : Clocked S :=
  match l with
  | [] => mret s
  | x :: l' => s' ← body x s; for_each body l' s'
  end.

Module SelfEvolvingThreads.

(** One entry of the active-threads index. *)
Record IndexEntry := mkEntry {
  entry_thread_id : string;
  entry_name : string;
  entry_status : string;
  entry_created_at : string;
  entry_updated_at : string
}.

Record ActiveIndex := mkIndex {
  threads : list IndexEntry;
  last_updated : string
}.

(** Modelled from the spec: the storage collaborator
    ([core.github_integration], which the sources import but do not
    contain) is a key-value store of JSON documents keyed by path whose
    reads and writes succeed.  The documents this class touches in one
    repository are the thread documents
    [THREADS_DIRECTORY/<thread_id>.json], kept here by [thread_id], and
    the index [ACTIVE_THREADS_INDEX]; a document is represented by the
    record it deserializes to.  The [repository] argument, which only
    selects the repository, is left out. *)
Record World := mkWorld {
  reads : nat;
  thread_files : gmap string EvolutionThread.t;
  active_threads_index : option ActiveIndex
}.

Definition clocked {A} (m : Clocked A) : State World A :=
  λ w, let '(a, n) := m (reads w) in
       (a, mkWorld n (thread_files w) (active_threads_index w)).

(** [get_thread]. *)
Definition get_thread (thread_id : string) : State World (option EvolutionThread.t) :=
  λ w, (EvolutionThread.from_dict <$> thread_files w !! thread_id, w).

Definition write_thread (thread : EvolutionThread.t) : State World unit :=
  λ w, (tt, mkWorld (reads w)
              (<[EvolutionThread.thread_id thread := EvolutionThread.to_dict thread]>
                 (thread_files w))
              (active_threads_index w)).

Definition load_active_threads_index : State World ActiveIndex :=
  λ w, (default (mkIndex [] "") (active_threads_index w), w).

Definition write_active_threads_index (index : ActiveIndex) : State World unit :=
  λ w, (tt, mkWorld (reads w) (thread_files w) (Some index)).

(** The loop of [update_thread] over the index: the first entry of the
    thread is refreshed and the loop breaks. *)
Fixpoint refresh_entry (thread : EvolutionThread.t) (stamp : string)
    (es : list IndexEntry) : bool * list IndexEntry :=
  match es with
  | [] => (false, [])
  | e :: rest =>
      if String.eqb (entry_thread_id e) (EvolutionThread.thread_id thread) then
        (true, mkEntry (entry_thread_id e) (EvolutionThread.name thread)
                       (EvolutionThread.status thread) (entry_created_at e)
                       stamp :: rest)
      else let '(updated, rest') := refresh_entry thread stamp rest in
           (updated, e :: rest')
  end.

(** [update_thread]: the thread document is written, then the index
    entry of the thread is refreshed or appended.  Both branches read
    the clock once for [updated_at]. *)
Definition update_thread `{Clock} (thread : EvolutionThread.t) : State World bool :=
  write_thread thread;;
  active_index ← load_active_threads_index;
  stamp ← clocked now;
  let '(updated, entries) := refresh_entry thread stamp (threads active_index) in
  let entries :=
    if updated then entries
    else entries ++ [mkEntry (EvolutionThread.thread_id thread)
                             (EvolutionThread.name thread)
                             (EvolutionThread.status thread)
                             (EvolutionThread.created_at thread) stamp] in
  last ← clocked now;
  write_active_threads_index (mkIndex entries last);;
  mret true.

(** The body of the inner loop of [add_evolution_step] at position [i]
    of [thread.goals].  The goal is read from the list as it is at that
    moment: the goals are shared objects that earlier iterations may
    have updated. *)
Definition advance_at `{Clock} (goal_id : string) (i : nat)
    (thread : EvolutionThread.t) : Clocked EvolutionThread.t :=
  match EvolutionThread.goals thread !! i with
  | Some goal =>
      if String.eqb (EvolutionGoal.goal_id goal) goal_id then
        let progress := Z.min 100 (EvolutionGoal.progress goal + 10) in
        '(_, thread') ← EvolutionThread.update_goal_progress thread goal_id progress None;
        mret thread'
      else mret thread
  | None => mret thread
  end.

(** [for goal in thread.goals: ...] for one [goal_id]. *)
Definition advance_goal `{Clock} (goal_id : string) (thread : EvolutionThread.t)
    : Clocked EvolutionThread.t :=
  for_each (advance_at goal_id)
           (seq 0 (length (EvolutionThread.goals thread))) thread.

(** [for goal_id in goals_advanced: ...]. *)
Definition advance_goals `{Clock} (goals_advanced : list string)
    (thread : EvolutionThread.t) : Clocked EvolutionThread.t :=
  for_each advance_goal goals_advanced thread.

(** [add_evolution_step]. *)
Definition add_evolution_step `{Clock} `{Md5} (thread_id title description : string)
    (goals_advanced : list string) (changes_made : list (gmap string string))
    (outcome ai_participant : string) : State World (option string) :=
  thread ← get_thread thread_id;
  match thread with
  | None => mret None
  | Some thread =>
      stamp ← clocked now;
      let step_id :=
        "step_" +:+ String.substring 0 12
          (md5_hexdigest (title +:+ "_" +:+ thread_id +:+ "_" +:+ stamp)) in
      step ← clocked (EvolutionStep.init step_id title description goals_advanced
                        changes_made outcome [ai_participant]);
      thread ← clocked (EvolutionThread.add_step thread step);
      let thread := EvolutionThread.add_ai_participant thread ai_participant in
      thread ← clocked (advance_goals goals_advanced thread);
      update_thread thread;;
      mret (Some step_id)
  end.

(** [update_goal_progress]. *)
Definition update_goal_progress `{Clock} (thread_id goal_id : string)
    (progress : Z) (status : option string) : State World bool :=
  thread ← get_thread thread_id;
  match thread with
  | None => mret false
  | Some thread =>
      r ← clocked (EvolutionThread.update_goal_progress
                     thread goal_id progress status);
      let '(found, thread) := (r : bool * EvolutionThread.t) in
      if found then update_thread thread;; mret true
      else mret false
  end.

(** The loop of [_update_active_threads_index] over the index: the first
    entry of the thread gets the name and a new [updated_at], and the
    loop breaks. *)
Fixpoint rename_entry (thread_id thread_name stamp : string)
    (es : list IndexEntry) : bool * list IndexEntry :=
  match es with
  | [] => (false, [])
  | e :: rest =>
      if String.eqb (entry_thread_id e) thread_id then
        (true, mkEntry (entry_thread_id e) thread_name (entry_status e)
                       (entry_created_at e) stamp :: rest)
      else let '(found, rest') := rename_entry thread_id thread_name stamp rest in
           (found, e :: rest')
  end.

(** [_update_active_threads_index].  An entry that is there is renamed
    (one read of the clock); otherwise an active entry is appended (one
    read for [created_at], one for [updated_at]). *)
Definition _update_active_threads_index `{Clock} (thread_id thread_name : string)
    : State World bool :=
  active_index ← load_active_threads_index;
  entries ←
    (if existsb (λ e, String.eqb (entry_thread_id e) thread_id) (threads active_index)
     then
       stamp ← clocked now;
       mret (rename_entry thread_id thread_name stamp (threads active_index)).2
     else
       created ← clocked now;
       updated ← clocked now;
       mret (threads active_index
               ++ [mkEntry thread_id thread_name "active" created updated]));
  last ← clocked now;
  write_active_threads_index (mkIndex entries last);;
  mret true.

(** The goal id [create_thread] gives to a goal dictionary: the supplied
    one, or one generated from the goal's name and the thread id. *)
Definition goal_id_for `{Md5} (thread_id : string) (goal_data : EvolutionGoal.data)
    : string :=
  match EvolutionGoal.data_goal_id goal_data with
  | Some goal_id => goal_id
  | None =>
      "goal_" +:+ String.substring 0 12
        (md5_hexdigest (EvolutionGoal.data_name goal_data +:+ "_" +:+ thread_id))
  end.

(** The body of the loop of [create_thread] over [initial_goals]. *)
Definition create_goal `{Clock} `{Md5} (goal_data : EvolutionGoal.data)
    (thread : EvolutionThread.t) : Clocked EvolutionThread.t :=
  let goal_id := goal_id_for (EvolutionThread.thread_id thread) goal_data in
  goal ← EvolutionGoal.from_data goal_id goal_data;
  mret (EvolutionThread.add_goal thread goal).

(** [create_thread].  [_ensure_directory] writes the marker file
    [THREADS_DIRECTORY/.gitkeep], which is none of the documents of
    [World] and is not represented.  [repository] is the name recorded
    in the thread. *)
Definition create_thread `{Clock} `{Md5} (name description creator strategy : string)
    (initial_goals : list EvolutionGoal.data) (repository : string)
    : State World (option string) :=
  stamp ← clocked now;
  let thread_id :=
    "thread_" +:+ String.substring 0 12
      (md5_hexdigest (name +:+ "_" +:+ creator +:+ "_" +:+ stamp)) in
  thread ← clocked (EvolutionThread.init thread_id name description creator strategy);
  let thread := EvolutionThread.set_repository repository thread in
  thread ← clocked (for_each create_goal initial_goals thread);
  write_thread thread;;
  _update_active_threads_index thread_id (EvolutionThread.name thread);;
  mret (Some thread_id).

End SelfEvolvingThreads.

(** ** JSON values and the string operations of [harmonizer.py] *)

#[local] Unset Elimination Schemes.
Inductive json :=
  | JNull
  | JBool (b : bool)
  | JNum (n : Z)
  | JStr (s : string)
  | JList (l : list json)
  | JObj (o : list (string * json)).
#[local] Set Elimination Schemes.

(** Exceptions raised while a schema is processed. *)
Inductive exn :=
  | KeyError (key : string)
  | AttributeError (type_name attr : string)
  | TypeError (what : string)
  | IndexError (what : string).

(** [type(v).__name__]. *)
Definition type_name (v : json) : string :=
  match v with
  | JNull => "NoneType"
  | JBool _ => "bool"
  | JNum _ => "int"
  | JStr _ => "str"
  | JList _ => "list"
  | JObj _ => "dict"
  end.

(** [str(e)]. *)
Definition str_exn (e : exn) : string :=
  match e with
  | KeyError key => "'" +:+ key +:+ "'"
  | AttributeError ty attr =>
      "'" +:+ ty +:+ "' object has no attribute '" +:+ attr +:+ "'"
  | TypeError what => what
  | IndexError what => what
  end.

Definition map_string (f : ascii → ascii) (s : string) : string :=
  string_of_list_ascii (f <$> list_ascii_of_string s).

(** [str.lower] on ASCII letters. *)
Definition lower_ascii (c : ascii) : ascii :=
  let n := nat_of_ascii c in
  if ((65 <=? n) && (n <=? 90))%nat then ascii_of_nat (n + 32) else c.

Definition lower (s : string) : string := map_string lower_ascii s.

(** [s.replace(old, new)] for one-character [old] and [new]. *)
Definition replace (old new : ascii) (s : string) : string :=
  map_string (λ c, if Ascii.eqb c old then new else c) s.

(** [sep.join(l)]. *)
Fixpoint join (sep : string) (l : list string) : string :=
  match l with
  | [] => ""
  | [s] => s
  | s :: l' => s +:+ sep +:+ join sep l'
  end.

(** ** [class ProtocolHarmonizer] *)

Module ProtocolHarmonizer.

Definition PROTOCOL_SCHEMAS_PATH : string := ".ai/protocols/schemas".

(** [DEFAULT_PROTOCOL["schema_id"]]. *)
Definition DEFAULT_SCHEMA_ID : string := "builder_core_standard_v1".

Record RegistryEntry := mkEntry {
  schema_id : string;
  name : string;
  version : string;
  author : string;
  path : string
}.

Record Registry := mkRegistry {
  protocols : list RegistryEntry;
  last_updated : option string
}.

Record PrimaryPointer := mkPrimary {
  primary_protocol : string;
  decided_at : string;
  reason : string;
  decided_by : string
}.

Record Event := mkEvent {
  timestamp : string;
  event_type : string;
  description : string;
  actor : string
}.

(** Modelled from the spec: the storage collaborator
    ([core.github_integration], which the sources import but do not
    contain) is a key-value store of JSON documents keyed by path whose
    reads and writes succeed.  The documents this class touches in one
    repository are the registry [PROTOCOL_REGISTRY_PATH], the schema
    documents (kept here under their full path), the primary pointer
    [PRIMARY_PROTOCOL_PATH] and the log [PROTOCOL_NEGOTIATION_LOG];
    [None] is a missing document.  The registry, the pointer and the
    log are represented by the records they deserialize to, a schema by
    its dictionary.  The [repo_name] argument, which only selects the
    repository, is left out. *)
Record World := mkWorld {
  reads : nat;
  registry_json : option Registry;
  schema_files : gmap string (gmap string json);
  primary_protocol_json : option PrimaryPointer;
  negotiation_log_json : option (list Event)
}.

(** State and exceptions: an exception keeps the writes made before it. *)
Definition M (A : Type) : Type := World → (exn + A) * World.

#[global] Instance M_ret : MRet M := λ A a w, (inr a, w).
#[global] Instance M_bind : MBind M :=
  λ A B f m w, match m w with
               | (inl e, w') => (inl e, w')
               | (inr a, w') => f a w'
               end.

Definition raise {A} (e : exn) : M A := λ w, (inl e, w).

(** [try: body except Exception as e: handler(e)]. *)
Definition try_except {A} (body : M A) (handler : exn → M A) : M A :=
  λ w, match body w with
       | (inl e, w') => handler e w'
       | (inr a, w') => (inr a, w')
       end.

Definition clock_now `{Clock} : M string :=
  λ w, (inr (isoformat_now (reads w)),
        mkWorld (S (reads w)) (registry_json w) (schema_files w)
                (primary_protocol_json w) (negotiation_log_json w)).

(** *** Reads and writes of the documents *)

Definition schema_path (schema_id : string) : string :=
  PROTOCOL_SCHEMAS_PATH +:+ "/" +:+ schema_id +:+ ".json".

(** [_load_file] on a schema path. *)
Definition load_schema (path : string) : M (option (gmap string json)) :=
  λ w, (inr (schema_files w !! path), w).

Definition write_schema (path : string) (schema : gmap string json) : M unit :=
  λ w, (inr tt, mkWorld (reads w) (registry_json w)
                  (<[path := schema]> (schema_files w))
                  (primary_protocol_json w) (negotiation_log_json w)).

(** [_load_registry]: a missing registry reads as one without
    protocols. *)
Definition _load_registry : M Registry :=
  λ w, (inr (default (mkRegistry [] None) (registry_json w)), w).

Definition write_registry (registry : Registry) : M unit :=
  λ w, (inr tt, mkWorld (reads w) (Some registry) (schema_files w)
                  (primary_protocol_json w) (negotiation_log_json w)).

Definition load_primary : M (option PrimaryPointer) :=
  λ w, (inr (primary_protocol_json w), w).

Definition write_primary (primary : PrimaryPointer) : M unit :=
  λ w, (inr tt, mkWorld (reads w) (registry_json w) (schema_files w)
                  (Some primary) (negotiation_log_json w)).

Definition load_log : M (option (list Event)) :=
  λ w, (inr (negotiation_log_json w), w).

Definition write_log (events : list Event) : M unit :=
  λ w, (inr tt, mkWorld (reads w) (registry_json w) (schema_files w)
                  (primary_protocol_json w) (Some events)).

(** *** Reads of a schema dictionary *)

(** [schema[key]]. *)
Definition getitem (schema : gmap string json) (key : string) : M json :=
  match schema !! key with
  | Some v => mret v
  | None => raise (KeyError key)
  end.

(** A value used as a string.  The sources annotate [schema_id], [name],
    [version] and [author] as [str]; a schema that holds another JSON
    value there is outside the model, which stops with a [TypeError]
    where Python would carry the value along. *)
Definition as_str (v : json) : M string :=
  match v with
  | JStr s => mret s
  | _ => raise (TypeError ("expected str, got " +:+ type_name v))
  end.

(** [v.lower()] and [v.replace(...)]: only strings have the method. *)
Definition str_method (attr : string) (v : json) : M string :=
  match v with
  | JStr s => mret s
  | _ => raise (AttributeError (type_name v) attr)
  end.

(** [len(v)]. *)
Definition len (v : json) : M Z :=
  match v with
  | JList l => mret (Z.of_nat (length l))
  | JStr s => mret (Z.of_nat (String.length s))
  | JObj o => mret (Z.of_nat (length o))
  | _ => raise (TypeError ("object of type '" +:+ type_name v +:+ "' has no len()"))
  end.

(** [score += v * 2] for the usage count: only numbers can be added to
    the integer score. *)
Definition times_two (v : json) : M Z :=
  match v with
  | JNum n => mret (n * 2)
  | JBool b => mret ((if b then 1 else 0) * 2)
  | _ => raise (TypeError ("unsupported operand type(s) for " +:+ type_name v))
  end.

(** *** [_log_negotiation_event] *)

Definition _log_negotiation_event `{Clock} (event_type description actor : string)
    : M bool :=
  log ← load_log;
  let events := default [] log in
  stamp ← clock_now;
  write_log (events ++ [mkEvent stamp event_type description actor]);;
  mret true.

(** *** [set_primary_protocol] *)

Definition set_primary_protocol `{Clock} (schema_id reason decided_by : string)
    : M (bool * string) :=
  registry ← _load_registry;
  let schema_exists :=
    existsb (λ protocol, String.eqb (ProtocolHarmonizer.schema_id protocol) schema_id)
            (protocols registry) in
  if negb schema_exists then
    mret (false, "Protocol schema " +:+ schema_id +:+ " not found in registry")
  else
    stamp ← clock_now;
    write_primary (mkPrimary schema_id stamp reason decided_by);;
    _log_negotiation_event "primary_change"
      ("Primary protocol set to " +:+ schema_id +:+ " by " +:+ decided_by
         +:+ ": " +:+ reason)
      decided_by;;
    mret (true, "Primary protocol set to " +:+ schema_id).

(** *** [_negotiate_primary_protocol] *)

(** One entry of [scores]. *)
Record Score := mkScore {
  score_schema_id : string;
  score_name : json;
  score : Z
}.

(** The schema documents of the registry entries, in registry order; a
    missing or empty document is skipped. *)
Fixpoint load_schemas (protocols : list RegistryEntry) : M (list (gmap string json)) :=
  match protocols with
  | [] => mret []
  | protocol :: rest =>
      schema ← load_schema (schema_path (schema_id protocol));
      schemas ← load_schemas rest;
      mret (match schema with
            | Some schema =>
                if bool_decide (size schema = 0%nat) then schemas
                else schema :: schemas
            | None => schemas
            end)
  end.

(** The body of the scoring loop. *)
Definition score_schema (current_primary_id : option string)
    (schema : gmap string json) : M Score :=
  let score := 0 in
  capabilities ← len (default (JList []) (schema !! "capabilities"));
  let score := score + capabilities in
  usage ← times_two (default (JNum 0) (schema !! "usage_count"));
  let score := score + usage in
  compatibility ← len (default (JList []) (schema !! "compatibility"));
  let score := score + compatibility * 3 in
  schema_id ← getitem schema "schema_id" ≫= as_str;
  let score := if String.eqb schema_id DEFAULT_SCHEMA_ID then score + 5 else score in
  let score := if bool_decide (Some schema_id = current_primary_id)
               then score + 10 else score in
  name ← getitem schema "name";
  mret (mkScore schema_id name score).

Fixpoint score_all (current_primary_id : option string)
    (schemas : list (gmap string json)) : M (list Score) :=
  match schemas with
  | [] => mret []
  | schema :: rest =>
      entry ← score_schema current_primary_id schema;
      entries ← score_all current_primary_id rest;
      mret (entry :: entries)
  end.

Definition negotiation_reason (score : Z) : string :=
  "Automatic negotiation: highest scoring protocol (" +:+ pretty score +:+ " points)".

Definition negotiate `{Clock} : M unit :=
  registry ← _load_registry;
  let protocols := protocols registry in
  if (length protocols <=? 1)%nat then mret tt
  else
    schemas ← load_schemas protocols;
    primary_info ← load_primary;
    let current_primary_id := primary_protocol <$> primary_info in
    scores ← score_all current_primary_id schemas;
    let scores := sorted score true scores in
    match scores with
    | [] => raise (IndexError "list index out of range")
    | top :: _ =>
        if negb (bool_decide (Some (score_schema_id top) = current_primary_id)) then
          set_primary_protocol (score_schema_id top)
            (negotiation_reason (score top)) "ProtocolHarmonizer";;
          mret tt
        else mret tt
    end.

(** The whole body runs under [try]; an exception is logged and
    dropped. *)
Definition _negotiate_primary_protocol `{Clock} : M unit :=
  try_except negotiate (λ _, mret tt).

(** *** [register_protocol] *)

Definition required_fields : list string :=
  ["name"; "version"; "author"; "description"; "endpoints"; "message_format";
   "capabilities"].

(** The schema id, generated from name and version when the schema
    carries none, and the schema with the id recorded. *)
Definition assign_schema_id (schema : gmap string json)
    : M (string * gmap string json) :=
  match schema !! "schema_id" with
  | None =>
      name ← getitem schema "name" ≫= str_method "lower";
      version ← getitem schema "version" ≫= str_method "replace";
      let schema_id :=
        replace " " "_" (lower name) +:+ "_" +:+ replace "." "_" version in
      mret (schema_id, <["schema_id" := JStr schema_id]> schema)
  | Some v =>
      schema_id ← as_str v;
      mret (schema_id, schema)
  end.

Definition register `{Clock} (schema : gmap string json) (registering_ai : string)
    : M (bool * string) :=
  let missing_fields := filter (λ field, schema !! field = None) required_fields in
  match missing_fields with
  | _ :: _ =>
      mret (false, "Schema missing required fields: " +:+ join ", " missing_fields)
  | [] =>
      assigned ← assign_schema_id schema;
      let '(schema_id, schema) := (assigned : string * gmap string json) in
      registry ← _load_registry;
      if existsb (λ existing, String.eqb (ProtocolHarmonizer.schema_id existing) schema_id)
                 (protocols registry)
      then mret (false, "Protocol schema with ID " +:+ schema_id +:+ " already exists")
      else
        let schema := match schema !! "compatibility" with
                      | None => <["compatibility" := JList []]> schema
                      | Some _ => schema
                      end in
        created ← clock_now;
        let schema := <["created_at" := JStr created]> schema in
        let schema := <["usage_count" := JNum 0]> schema in
        let schema_path := schema_path schema_id in
        write_schema schema_path schema;;
        name ← getitem schema "name" ≫= as_str;
        version ← getitem schema "version" ≫= as_str;
        author ← getitem schema "author" ≫= as_str;
        let registry_entry := mkEntry schema_id name version author schema_path in
        updated ← clock_now;
        write_registry (mkRegistry (protocols registry ++ [registry_entry])
                                   (Some updated));;
        _log_negotiation_event "registration"
          ("Protocol '" +:+ name +:+ "' registered by " +:+ registering_ai)
          registering_ai;;
        _negotiate_primary_protocol;;
        mret (true, "Protocol schema " +:+ schema_id +:+ " registered successfully")
  end.

(** [register_protocol(self, repo_name, schema, registering_ai)].  The
    call also leaves the generated keys in the caller's dictionary,
    which the result does not show. *)
Definition register_protocol `{Clock} (schema : gmap string json)
    (registering_ai : string) : M (bool * string) :=
  try_except (register schema registering_ai)
    (λ e, mret (false, "Error registering protocol: " +:+ str_exn e)).

(** *** [DEFAULT_PROTOCOL] and [initialize_protocol_registry] *)

Definition DEFAULT_PROTOCOL : gmap string json :=
  {[ "schema_id" := JStr "builder_core_standard_v1";
     "name" := JStr "Builder Core Standard Protocol";
     "version" := JStr "1.0.0";
     "author" := JStr "BuilderCore";
     "description" :=
       JStr "Standard communication protocol for Builder Core AI systems";
     "endpoints" :=
       JObj [ ("ai_collaboration",
               JObj [ ("path", JStr "/ai-collaboration");
                      ("actions",
                       JList [JStr "contribute"; JStr "discuss"; JStr "evolve"]) ]);
              ("self_evolving_threads",
               JObj [ ("path", JStr "/ai-threads");
                      ("actions",
                       JList [JStr "create"; JStr "start"; JStr "stop";
                              JStr "list"; JStr "trigger"]) ]) ];
     "message_format" :=
       JObj [ ("structure",
               JObj [ ("id", JStr "string");
                      ("timestamp", JStr "string (ISO format)");
                      ("sender", JStr "string");
                      ("recipient", JStr "string");
                      ("type", JStr "string");
                      ("content", JStr "object");
                      ("references", JStr "array of string") ]);
              ("types",
               JList [JStr "message"; JStr "query"; JStr "response";
                      JStr "action"; JStr "event"]) ];
     "capabilities" :=
       JList [JStr "contribution_tracking"; JStr "multi_ai_discussion";
              JStr "evolution_tracking"; JStr "thread_management"] ]}.

(** The registry entry of the default protocol. *)
Definition default_entry : RegistryEntry :=
  mkEntry DEFAULT_SCHEMA_ID "Builder Core Standard Protocol" "1.0.0" "BuilderCore"
          (schema_path DEFAULT_SCHEMA_ID).

(** [initialize_protocol_registry].  The two calls of [_ensure_directory]
    write marker files [.gitkeep], which are none of the documents of
    [World] and are not represented.  The four documents are written
    whatever the store held before. *)
Definition initialize_protocol_registry `{Clock} : M bool :=
  updated ← clock_now;
  write_registry (mkRegistry [default_entry] (Some updated));;
  write_schema (schema_path DEFAULT_SCHEMA_ID) DEFAULT_PROTOCOL;;
  decided ← clock_now;
  write_primary (mkPrimary DEFAULT_SCHEMA_ID decided
                   "Default protocol, no alternatives available"
                   "ProtocolHarmonizer");;
  stamp ← clock_now;
  write_log [mkEvent stamp "initialization"
               "Protocol registry initialized with default protocol"
               "ProtocolHarmonizer"];;
  mret true.

(** *** [get_primary_protocol], [list_protocols], [get_negotiation_log] *)

(** [get_primary_protocol]: the schema document the pointer names, with
    the pointer's date, reason and author added. *)
Definition get_primary_protocol : M (option (gmap string json)) :=
  primary_info ← load_primary;
  match primary_info with
  | None => mret None
  | Some primary_info =>
      let schema_id := primary_protocol primary_info in
      if String.eqb schema_id "" then mret None
      else
        schema ← load_schema (schema_path schema_id);
        match schema with
        | Some schema =>
            if bool_decide (size schema = 0%nat) then mret None
            else
              let schema := <["primary_since" := JStr (decided_at primary_info)]> schema in
              let schema := <["primary_reason" := JStr (reason primary_info)]> schema in
              let schema := <["decided_by" := JStr (decided_by primary_info)]> schema in
              mret (Some schema)
        | None => mret None
        end
  end.

(** [list_protocols]: every registry entry with its [is_primary] flag. *)
Definition list_protocols : M (list (RegistryEntry * bool)) :=
  registry ← _load_registry;
  primary_info ← load_primary;
  let primary_id := primary_protocol <$> primary_info in
  mret ((λ protocol, (protocol, bool_decide (Some (schema_id protocol) = primary_id)))
          <$> protocols registry).

(** [get_negotiation_log]. *)
Definition get_negotiation_log : M (list Event) :=
  log ← load_log;
  mret (default [] log).

(** *** [report_protocol_usage] *)

(** [v + 1] for the usage count: only numbers can be added to 1. *)
Definition plus_one (v : json) : M Z :=
  match v with
  | JNum n => mret (n + 1)
  | JBool b => mret ((if b then 1 else 0) + 1)
  | _ => raise (TypeError ("unsupported operand type(s) for +: " +:+ type_name v))
  end.

Definition report_usage `{Clock} (schema_id using_ai : string) : M bool :=
  let schema_path := schema_path schema_id in
  schema ← load_schema schema_path;
  match schema with
  | None => mret false
  | Some schema =>
      if bool_decide (size schema = 0%nat) then mret false
      else
        usage ← plus_one (default (JNum 0) (schema !! "usage_count"));
        let schema := <["usage_count" := JNum usage]> schema in
        used ← clock_now;
        let schema := <["last_used" := JStr used]> schema in
        let schema := <["last_used_by" := JStr using_ai]> schema in
        write_schema schema_path schema;;
        mret true
  end.

(** [report_protocol_usage(self, repo_name, schema_id, using_ai)]. *)
Definition report_protocol_usage `{Clock} (schema_id using_ai : string) : M bool :=
  try_except (report_usage schema_id using_ai) (λ _, mret false).

End ProtocolHarmonizer.

(** * Notions used to state the properties *)

(** ** Goals *)

(** The invariant of the data model. *)
Definition progress_status_invariant (g : EvolutionGoal.t) : Prop :=
  EvolutionGoal.progress g = 100 ↔ EvolutionGoal.status g = "completed".

(** The status on which the derivation of [update_progress] runs: the
    supplied one when it is a non-empty string, the goal's own
    otherwise. *)
Definition status_in_force (g : EvolutionGoal.t) (status : option string) : string :=
  match status with
  | Some s => if truthy status then s else EvolutionGoal.status g
  | None => EvolutionGoal.status g
  end.

(** The order [sorted] establishes between an element and a later one. *)
Definition ordered {A : Type} (key : A → Z) (reverse : bool) (x y : A) : Prop :=
  if reverse then key y ≤ key x else key x ≤ key y.

(** Descending priority. *)
Definition by_priority_desc (a b : EvolutionGoal.t) : Prop :=
  EvolutionGoal.priority b ≤ EvolutionGoal.priority a.

(** A goal is eligible in a thread when it is pending and each of its
    dependencies is the [goal_id] of some completed goal of the thread. *)
Definition eligible (th : EvolutionThread.t) (g : EvolutionGoal.t) : Prop :=
  EvolutionGoal.status g = "pending"
  ∧ Forall (λ dep,
      Exists (λ g', EvolutionGoal.goal_id g' = dep
                    ∧ EvolutionGoal.status g' = "completed")
             (EvolutionThread.goals th))
      (EvolutionGoal.dependencies g).

#[global] Instance eligible_dec th g : Decision (eligible th g).
Proof. unfold eligible. apply _. Defined.

(** One advance of a goal by [add_evolution_step], at clock state [n]. *)
Definition advance `{Clock} (g : EvolutionGoal.t) (n : nat) : EvolutionGoal.t * nat :=
  EvolutionGoal.update_progress g (Z.min 100 (EvolutionGoal.progress g + 10)) None n.

(** [advanced k g g']: [g'] results from [g] by [k] advances. *)
Inductive advanced `{Clock} : nat → EvolutionGoal.t → EvolutionGoal.t → Prop :=
  | advanced_O g : advanced 0 g g
  | advanced_S k g g' n : advanced k (advance g n).1 g' → advanced (S k) g g'.

(** Number of occurrences of an id in [goals_advanced]. *)
Definition occurrences (gid : string) (ids : list string) : nat :=
  length (filter (λ x, x = gid) ids).

(** ** Protocols *)

(** The required fields a schema lacks, in the order of
    [required_fields]. *)
Definition missing_fields (schema : gmap string json) : list string :=
  filter (λ field, schema !! field = None) ProtocolHarmonizer.required_fields.

(** The id [register_protocol] generates from a name and a version. *)
Definition derived_schema_id (name version : string) : string :=
  replace " " "_" (lower name) +:+ "_" +:+ replace "." "_" version.

(** The document [register_protocol] stores for a schema. *)
Definition stored_schema (schema_id created : string) (schema : gmap string json)
    : gmap string json :=
  let schema := <["schema_id" := JStr schema_id]> schema in
  let schema := match schema !! "compatibility" with
                | None => <["compatibility" := JList []]> schema
                | Some _ => schema
                end in
  <["usage_count" := JNum 0]> (<["created_at" := JStr created]> schema).

(** The stored schema documents of a list of registry entries, as
    [load_schemas] collects them. *)
Definition stored_schemas (w : ProtocolHarmonizer.World)
    (entries : list ProtocolHarmonizer.RegistryEntry) : list (gmap string json) :=
  omap (λ e, match ProtocolHarmonizer.schema_files w
                     !! ProtocolHarmonizer.schema_path (ProtocolHarmonizer.schema_id e)
             with
             | Some schema => if bool_decide (size schema = 0%nat) then None
                              else Some schema
             | None => None
             end) entries.

(** Computations that leave the store and the clock alone. *)
Definition pure_M {A} (m : ProtocolHarmonizer.M A) : Prop := ∀ w, (m w).2 = w.

(** The counts that enter the score of a schema document; an absent key
    counts as empty, respectively 0. *)
Definition capabilities_count (schema : gmap string json) : Z :=
  match default (JList []) (schema !! "capabilities") with
  | JList l => Z.of_nat (length l)
  | _ => 0
  end.

Definition usage_count_of (schema : gmap string json) : Z :=
  match default (JNum 0) (schema !! "usage_count") with
  | JNum n => n
  | _ => 0
  end.

Definition compatibility_count (schema : gmap string json) : Z :=
  match default (JList []) (schema !! "compatibility") with
  | JList l => Z.of_nat (length l)
  | _ => 0
  end.

(** The score of the specification. *)
Definition negotiation_score (current_primary_id : option string)
    (schema_id : string) (schema : gmap string json) : Z :=
  capabilities_count schema
  + 2 * usage_count_of schema
  + 3 * compatibility_count schema
  + (if bool_decide (schema_id = ProtocolHarmonizer.DEFAULT_SCHEMA_ID) then 5 else 0)
  + (if bool_decide (Some schema_id = current_primary_id) then 10 else 0).

(** A schema document as registration leaves it under the given id: it
    carries the id and a name, its capabilities and compatibility are
    lists and its usage count is an integer (each may be absent). *)
Definition well_formed_schema (schema_id : string) (schema : gmap string json) : Prop :=
  schema !! "schema_id" = Some (JStr schema_id)
  ∧ is_Some (schema !! "name")
  ∧ (∃ l, default (JList []) (schema !! "capabilities") = JList l)
  ∧ (∃ n, default (JNum 0) (schema !! "usage_count") = JNum n)
  ∧ (∃ l, default (JList []) (schema !! "compatibility") = JList l).

(** The entries of the registry. *)
Definition registered (w : ProtocolHarmonizer.World)
    : list ProtocolHarmonizer.RegistryEntry :=
  ProtocolHarmonizer.protocols
    (default (ProtocolHarmonizer.mkRegistry [] None)
       (ProtocolHarmonizer.registry_json w)).

(** The id the primary pointer names, if there is a pointer. *)
Definition current_primary (w : ProtocolHarmonizer.World) : option string :=
  ProtocolHarmonizer.primary_protocol <$> ProtocolHarmonizer.primary_protocol_json w.

(** The schema document of a registry entry. *)
Definition document_of (w : ProtocolHarmonizer.World)
    (e : ProtocolHarmonizer.RegistryEntry) : gmap string json :=
  default ∅ (ProtocolHarmonizer.schema_files w
               !! ProtocolHarmonizer.schema_path (ProtocolHarmonizer.schema_id e)).

Definition entry_score (w : ProtocolHarmonizer.World)
    (e : ProtocolHarmonizer.RegistryEntry) : Z :=
  negotiation_score (current_primary w) (ProtocolHarmonizer.schema_id e)
    (document_of w e).

(** Every registry entry has its schema document. *)
Definition well_formed_registry (w : ProtocolHarmonizer.World) : Prop :=
  Forall (λ e, ∃ schema,
            ProtocolHarmonizer.schema_files w
              !! ProtocolHarmonizer.schema_path (ProtocolHarmonizer.schema_id e)
            = Some schema
            ∧ well_formed_schema (ProtocolHarmonizer.schema_id e) schema)
         (registered w).

(** ** The protocol store across calls *)

(** The primary pointer, when there is one, names a registered id. *)
Definition pointer_registered (w : ProtocolHarmonizer.World) : Prop :=
  ∀ id, current_primary w = Some id →
        id ∈ ProtocolHarmonizer.schema_id <$> registered w.

(** From [w] to [w']: the registry has only grown at its end, and the
    pointer is the old one or names a registered id. *)
Definition evolves (w w' : ProtocolHarmonizer.World) : Prop :=
  registered w `prefix_of` registered w'
  ∧ (current_primary w' = current_primary w
     ∨ ∃ id, current_primary w' = Some id
             ∧ id ∈ ProtocolHarmonizer.schema_id <$> registered w').

(** ** Threads in the store *)

(** The thread as [add_evolution_step] has it before the advance loops:
    loaded, with the new step appended, [last_evolution] stamped and
    the participant added. *)
Definition thread_with_step `{Clock} `{Md5} (w : SelfEvolvingThreads.World)
    (tid : string) (th : EvolutionThread.t) (title description : string)
    (ids : list string) (changes : list (gmap string string))
    (outcome ai : string) : EvolutionThread.t :=
  let now0 := isoformat_now (SelfEvolvingThreads.reads w) in
  let step_id :=
    "step_" +:+ String.substring 0 12
      (md5_hexdigest (title +:+ "_" +:+ tid +:+ "_" +:+ now0)) in
  EvolutionThread.add_ai_participant
    (EvolutionThread.set_last_evolution
       (Some (isoformat_now (S (S (SelfEvolvingThreads.reads w)))))
       (EvolutionThread.set_steps
          (EvolutionThread.steps th
             ++ [EvolutionStep.mk step_id title description ids changes outcome [ai]
                   (isoformat_now (S (SelfEvolvingThreads.reads w)))
                   (Some (EvolutionThread.thread_id th))])
          (EvolutionThread.from_dict th))) ai.

(** What [create_thread] makes of one goal dictionary. *)
Definition created_from `{Md5} (tid : string) (d : EvolutionGoal.data)
    (g : EvolutionGoal.t) : Prop :=
  EvolutionGoal.goal_id g = SelfEvolvingThreads.goal_id_for tid d
  ∧ EvolutionGoal.name g = EvolutionGoal.data_name d
  ∧ EvolutionGoal.evolution_thread g = Some tid
  ∧ EvolutionGoal.priority g
    = Z.min 10 (Z.max 1 (default 5 (EvolutionGoal.data_priority d)))
  ∧ EvolutionGoal.status g = default "pending" (EvolutionGoal.data_status d)
  ∧ EvolutionGoal.progress g = default 0 (EvolutionGoal.data_progress d)
  ∧ EvolutionGoal.dependencies g = default [] (EvolutionGoal.data_dependencies d).

(** * Sample data *)

(** A clock that returns a different text at every read. *)
Definition sample_clock : Clock := λ n, "2025-01-01T00:00:" +:+ pretty n.

(** A stand-in for the digest function. *)
Definition sample_md5 : Md5 := λ _, "0123456789abcdef0123456789abcdef".

(** A goal as [EvolutionGoal.__init__] leaves it at the first read of
    [sample_clock]. *)
Definition fresh_goal (goal_id : string) (priority : Z) (dependencies : list string)
    : EvolutionGoal.t :=
  (EvolutionGoal.init (H := sample_clock) goal_id "goal" "a goal" ["done"]
     priority dependencies None 0%nat).1.

(** A goal marked completed by an explicit status at progress 50: its
    [completed_at] was never stamped. *)
Definition completed_unstamped_goal : EvolutionGoal.t :=
  (EvolutionGoal.update_progress (H := sample_clock)
     (fresh_goal "g1" 5 []) 50 (Some "completed") 1%nat).1.

(** A goal with the given scheduling fields. *)
Definition sample_goal (goal_id : string) (priority : Z) (dependencies : list string)
    (status : string) (progress : Z) : EvolutionGoal.t :=
  EvolutionGoal.mk goal_id "goal" "a goal" ["done"] priority dependencies None
    status progress "2025-01-01T00:00:00" None None "2025-01-01T00:00:00" None.

Definition sample_thread (goals : list EvolutionGoal.t) : EvolutionThread.t :=
  EvolutionThread.mk "thread_1" "thread" "a thread" "ai_1" "incremental" "active"
    goals [] "2025-01-01T00:00:00" None ["ai_1"] "sunheart-core".

(** A thread with nothing in progress: [a] is completed, [b] waits for
    [a], [c] and [d] are free, [e] waits for an id that is not there and
    [f] waits for [b], which is not completed. *)
Definition waiting_thread : EvolutionThread.t :=
  sample_thread
    [ sample_goal "a" 3 [] "completed" 100;
      sample_goal "b" 5 ["a"] "pending" 0;
      sample_goal "c" 8 [] "pending" 0;
      sample_goal "d" 5 [] "pending" 0;
      sample_goal "e" 9 ["zz"] "pending" 0;
      sample_goal "f" 9 ["a"; "b"] "pending" 0 ].

(** The same goals with [d] and [e] in progress. *)
Definition busy_thread : EvolutionThread.t :=
  sample_thread
    [ sample_goal "a" 3 [] "completed" 100;
      sample_goal "b" 5 ["a"] "pending" 0;
      sample_goal "c" 8 [] "pending" 0;
      sample_goal "d" 5 [] "in_progress" 10;
      sample_goal "e" 9 ["zz"] "in_progress" 20 ].

(** A store holding one thread whose only goal [g1] is in progress at
    the given progress. *)
Definition sample_world (progress : Z) : SelfEvolvingThreads.World :=
  SelfEvolvingThreads.mkWorld 0
    {[ "thread_1" := sample_thread [sample_goal "g1" 5 [] "in_progress" progress] ]}
    None.

(** The first goal of the stored thread after a step that advances the
    given ids. *)
Definition first_goal_after (progress : Z) (goals_advanced : list string)
    : option EvolutionGoal.t :=
  let w' := (SelfEvolvingThreads.add_evolution_step (H := sample_clock)
               (H0 := sample_md5) "thread_1" "step" "a step" goals_advanced []
               "done" "ai_2" (sample_world progress)).2 in
  th ← SelfEvolvingThreads.thread_files w' !! "thread_1";
  EvolutionThread.goals th !! 0%nat.

(** Schema [A] of the specification's example: two capabilities, never
    used; and schema [B]: one capability, used five times. *)
Definition schema_A : gmap string json :=
  {[ "schema_id" := JStr "A"; "name" := JStr "Protocol A";
     "capabilities" := JList [JStr "chat"; JStr "files"];
     "usage_count" := JNum 0; "compatibility" := JList [] ]}.

Definition schema_B : gmap string json :=
  {[ "schema_id" := JStr "B"; "name" := JStr "Protocol B";
     "capabilities" := JList [JStr "chat"];
     "usage_count" := JNum 5; "compatibility" := JList [] ]}.

(** A store with [A] and [B] registered in this order and no primary
    pointer. *)
Definition example_world : ProtocolHarmonizer.World :=
  ProtocolHarmonizer.mkWorld 0
    (Some (ProtocolHarmonizer.mkRegistry
             [ ProtocolHarmonizer.mkEntry "A" "Protocol A" "1.0" "ai_1"
                 (ProtocolHarmonizer.schema_path "A");
               ProtocolHarmonizer.mkEntry "B" "Protocol B" "1.0" "ai_2"
                 (ProtocolHarmonizer.schema_path "B") ]
             None))
    {[ ProtocolHarmonizer.schema_path "A" := schema_A;
       ProtocolHarmonizer.schema_path "B" := schema_B ]}
    None None.

(** A schema as a caller submits it. *)
Definition submitted_schema (name version : string) (capabilities : list json)
    : gmap string json :=
  {[ "name" := JStr name; "version" := JStr version; "author" := JStr "ai_1";
     "description" := JStr "a protocol"; "endpoints" := JObj [];
     "message_format" := JObj []; "capabilities" := JList capabilities ]}.

Definition empty_world : ProtocolHarmonizer.World :=
  ProtocolHarmonizer.mkWorld 0 None ∅ None None.

(** The store after ["Mesh Net"] version 1.0 has been registered. *)
Definition world_after_first : ProtocolHarmonizer.World :=
  (ProtocolHarmonizer.register_protocol (H := sample_clock)
     (submitted_schema "Mesh Net" "1.0" [JStr "chat"]) "ai_1" empty_world).2.

(** A goal dictionary that gives the required keys and a priority. *)
Definition sample_goal_data (name : string) (priority : Z) : EvolutionGoal.data :=
  EvolutionGoal.mkData None name "a goal" ["done"] (Some priority) None None None
    None None None None None None.

(** * Tactics *)

Ltac run_clock :=
  unfold mbind, mret, State_bind, State_ret, now in *.

Ltac run_M :=
  unfold mbind, mret, ProtocolHarmonizer.M_bind, ProtocolHarmonizer.M_ret,
    ProtocolHarmonizer.try_except, ProtocolHarmonizer.raise in *.

(** One case split on a test of [update_progress]. *)
Ltac step_cases :=
  cbn -[String.eqb Z.min Z.max Z.eqb Z.ltb];
  match goal with
  | |- context [String.eqb ?a ?b] =>
      lazymatch a with
      | context [if _ then _ else _] => fail
      | _ => destruct (String.eqb_spec a b)
      end
  | |- context [Z.eqb ?a ?b] => destruct (Z.eqb_spec a b)
  | |- context [Z.ltb ?a ?b] => destruct (Z.ltb_spec a b)
  | |- context [truthy ?o] => destruct (truthy o) eqn:?
  end.

Ltac update_cases status :=
  unfold EvolutionGoal.update_progress, status_in_force; run_clock;
  destruct status as [? |]; repeat step_cases;
  cbn -[String.eqb Z.min Z.max Z.eqb Z.ltb] in *;
  subst; try reflexivity; try congruence; try lia.

(** * Properties *)

(** ** [EvolutionGoal.update_progress] *)

Section UpdateProgress.
Context `{Clock}.
Implicit Types (g : EvolutionGoal.t) (p : Z) (n : nat).

(** The stored progress is the argument clamped to 0..100. *)
Lemma update_progress_progress g p status n :
  EvolutionGoal.progress (EvolutionGoal.update_progress g p status n).1
  = Z.min 100 (Z.max 0 p).
Proof. update_cases status. Qed.

(** The status after the call, as a function of the status in force. *)
Lemma update_progress_status g p status n :
  EvolutionGoal.status (EvolutionGoal.update_progress g p status n).1
  = if p =? 100 then "completed"
    else if (0 <? p) && String.eqb (status_in_force g status) "pending"
         then "in_progress"
         else status_in_force g status.
Proof. update_cases status. Qed.

(** [completed_at] is stamped exactly when the argument is 100 and the
    status in force is not yet completed. *)
Lemma update_progress_completed_at g p status n :
  EvolutionGoal.completed_at (EvolutionGoal.update_progress g p status n).1
  = if (p =? 100) && negb (String.eqb (status_in_force g status) "completed")
    then Some (isoformat_now (S n))
    else EvolutionGoal.completed_at g.
Proof. update_cases status. Qed.

(** The identifier is not touched. *)
Lemma update_progress_goal_id g p status n :
  EvolutionGoal.goal_id (EvolutionGoal.update_progress g p status n).1
  = EvolutionGoal.goal_id g.
Proof. update_cases status. Qed.

(** C1, amended.  For an argument of at most 100, the goal satisfies
    [progress = 100 ↔ status = "completed"] after [update_progress],
    provided that, when the argument is below 100, the status in force
    (the supplied one if non-empty, else the goal's own) is not
    already ["completed"]. *)
Theorem update_progress_invariant g p status n :
  p ≤ 100 →
  (p < 100 → status_in_force g status ≠ "completed") →
  progress_status_invariant (EvolutionGoal.update_progress g p status n).1.
Proof.
  intros Hle Hforce. unfold progress_status_invariant.
  rewrite update_progress_progress, update_progress_status.
  destruct (Z.eqb_spec p 100) as [-> | Hne].
  - split; [reflexivity | lia].
  - assert (p < 100) as Hlt by lia. specialize (Hforce Hlt).
    split; [lia |].
    destruct (0 <? p); simpl; [destruct (String.eqb _ _) |]; congruence.
Qed.

(** C5, amended.  With a non-empty status argument [s], the status
    after [update_progress] is ["completed"] when the progress argument
    is 100, ["in_progress"] when the argument is positive and [s] is
    ["pending"], and [s] in every other case. *)
Theorem update_progress_explicit_status g p s n :
  s ≠ "" →
  EvolutionGoal.status (EvolutionGoal.update_progress g p (Some s) n).1
  = if p =? 100 then "completed"
    else if (0 <? p) && String.eqb s "pending" then "in_progress"
    else s.
Proof.
  intros Hs. rewrite update_progress_status. unfold status_in_force, truthy.
  destruct (String.eqb_spec s "") as [-> | _]; [congruence | reflexivity].
Qed.

(** C7, amended.  For a goal that is not yet completed, or whose
    [completed_at] is already set, [update_progress] with 100 and no
    status yields status ["completed"] and a [completed_at] that is not
    [None]; a second such call, at any later time, leaves the status
    and [completed_at] as the first call left them. *)
Theorem update_progress_100_idempotent g n m :
  EvolutionGoal.status g ≠ "completed" ∨ EvolutionGoal.completed_at g ≠ None →
  let g1 := (EvolutionGoal.update_progress g 100 None n).1 in
  let g2 := (EvolutionGoal.update_progress g1 100 None m).1 in
  EvolutionGoal.status g1 = "completed"
  ∧ EvolutionGoal.completed_at g1 ≠ None
  ∧ EvolutionGoal.status g2 = "completed"
  ∧ EvolutionGoal.completed_at g2 = EvolutionGoal.completed_at g1.
Proof.
  intros Hg g1 g2.
  assert (EvolutionGoal.status g1 = "completed") as Hs1
    by (unfold g1; rewrite update_progress_status; reflexivity).
  split; [exact Hs1 |]. split; [| split].
  - unfold g1. rewrite update_progress_completed_at. simpl.
    destruct (String.eqb_spec (EvolutionGoal.status g) "completed");
      simpl; [| discriminate].
    destruct Hg; congruence.
  - unfold g2. rewrite update_progress_status. reflexivity.
  - unfold g2. rewrite update_progress_completed_at. simpl.
    rewrite Hs1. reflexivity.
Qed.

(** C10.  For a goal that is not completed and a progress argument above
    100, [update_progress] without a status stores progress 100, leaves
    the status different from ["completed"] and does not stamp
    [completed_at]. *)
Theorem update_progress_above_100 g p n :
  EvolutionGoal.status g ≠ "completed" →
  100 < p →
  let g' := (EvolutionGoal.update_progress g p None n).1 in
  EvolutionGoal.progress g' = 100
  ∧ EvolutionGoal.status g' ≠ "completed"
  ∧ EvolutionGoal.completed_at g' = EvolutionGoal.completed_at g.
Proof.
  intros Hg Hp g'. unfold g'.
  rewrite update_progress_progress, update_progress_status,
    update_progress_completed_at.
  destruct (Z.eqb_spec p 100) as [-> | _]; [lia |]. simpl.
  split; [lia |]. split; [| reflexivity].
  destruct (0 <? p); simpl; [destruct (String.eqb _ _) |]; congruence.
Qed.

End UpdateProgress.

(** Witness of C1 (amended): a pending goal moved to 40. *)
Lemma update_progress_invariant_witness :
  progress_status_invariant
    (EvolutionGoal.update_progress (H := sample_clock)
       (fresh_goal "g1" 5 []) 40 None 1%nat).1.
Proof.
  apply (update_progress_invariant (H := sample_clock)); [lia |].
  intros _. vm_compute. discriminate.
Defined.

(** C1 as stated fails: an explicit status ["completed"] at progress 50
    leaves a completed goal whose progress is 50. *)
Lemma update_progress_invariant_counterexample :
  ¬ progress_status_invariant
      (EvolutionGoal.update_progress (H := sample_clock)
         (fresh_goal "g1" 5 []) 50 (Some "completed") 1%nat).1.
Proof.
  unfold progress_status_invariant. vm_compute. intros [_ Hback].
  specialize (Hback eq_refl). discriminate.
Qed.

(** Witness of C5 (amended): ["blocked"] supplied with progress 100. *)
Lemma update_progress_explicit_status_witness :
  EvolutionGoal.status
    (EvolutionGoal.update_progress (H := sample_clock)
       (fresh_goal "g1" 5 []) 100 (Some "blocked") 1%nat).1
  = "completed".
Proof.
  apply (update_progress_explicit_status (H := sample_clock)
           (fresh_goal "g1" 5 []) 100 "blocked" 1%nat).
  discriminate.
Defined.

(** C5 as stated fails: the supplied status ["blocked"] does not survive
    a progress of 100. *)
Lemma update_progress_explicit_status_counterexample :
  EvolutionGoal.status
    (EvolutionGoal.update_progress (H := sample_clock)
       (fresh_goal "g1" 5 []) 100 (Some "blocked") 1%nat).1
  ≠ "blocked".
Proof. vm_compute. discriminate. Qed.

(** Witness of C7 (amended): a fresh goal completed twice. *)
Lemma update_progress_100_idempotent_witness :
  let g1 := (EvolutionGoal.update_progress (H := sample_clock)
               (fresh_goal "g1" 5 []) 100 None 1%nat).1 in
  let g2 := (EvolutionGoal.update_progress (H := sample_clock) g1 100 None 3%nat).1 in
  EvolutionGoal.status g1 = "completed"
  ∧ EvolutionGoal.completed_at g1 ≠ None
  ∧ EvolutionGoal.status g2 = "completed"
  ∧ EvolutionGoal.completed_at g2 = EvolutionGoal.completed_at g1.
Proof.
  apply (update_progress_100_idempotent (H := sample_clock)
           (fresh_goal "g1" 5 []) 1%nat 3%nat).
  left. vm_compute. discriminate.
Defined.

(** C7 as stated fails: on a goal that is already completed with no
    [completed_at], a call with 100 leaves [completed_at] at [None]. *)
Lemma update_progress_100_counterexample :
  let g1 := (EvolutionGoal.update_progress (H := sample_clock)
               completed_unstamped_goal 100 None 2%nat).1 in
  ¬ (EvolutionGoal.status g1 = "completed" ∧ EvolutionGoal.completed_at g1 ≠ None).
Proof. vm_compute. intros [_ Hstamp]. apply Hstamp. reflexivity. Qed.

(** Witness of C10: a pending goal updated with 150. *)
Lemma update_progress_above_100_witness :
  let g' := (EvolutionGoal.update_progress (H := sample_clock)
               (fresh_goal "g1" 5 []) 150 None 1%nat).1 in
  EvolutionGoal.progress g' = 100
  ∧ EvolutionGoal.status g' ≠ "completed"
  ∧ EvolutionGoal.completed_at g' = EvolutionGoal.completed_at (fresh_goal "g1" 5 []).
Proof.
  apply (update_progress_above_100 (H := sample_clock)
           (fresh_goal "g1" 5 []) 150 1%nat); [| lia].
  vm_compute. discriminate.
Defined.

(** ** [sorted] *)

Section SortedFacts.
Context {A : Type} (key : A → Z).
Implicit Types (x y : A) (l : list A) (reverse : bool).

Lemma before_ordered reverse y x :
  before key reverse y x = true → ordered key reverse y x.
Proof. unfold before, ordered. destruct reverse; lia. Qed.

Lemma not_before_ordered reverse y x :
  before key reverse y x = false → ordered key reverse x y.
Proof. unfold before, ordered. destruct reverse; lia. Qed.

Lemma before_key_ne reverse y x : before key reverse y x = true → key y ≠ key x.
Proof. unfold before. destruct reverse; lia. Qed.

Lemma ordered_trans reverse x y z :
  ordered key reverse x y → ordered key reverse y z → ordered key reverse x z.
Proof. unfold ordered. destruct reverse; lia. Qed.

Lemma insort_Permutation reverse x l : insort key reverse x l ≡ₚ x :: l.
Proof.
  induction l as [| y l IH]; simpl; [reflexivity |].
  destruct (before key reverse y x); [| reflexivity].
  rewrite IH. apply Permutation_swap.
Qed.

Lemma sorted_Permutation reverse l : sorted key reverse l ≡ₚ l.
Proof.
  induction l as [| x l IH]; simpl; [reflexivity |].
  rewrite insort_Permutation. by rewrite IH.
Qed.

Lemma insort_StronglySorted reverse x l :
  StronglySorted (ordered key reverse) l →
  StronglySorted (ordered key reverse) (insort key reverse x l).
Proof.
  induction 1 as [| y l Hl IH Hy]; simpl.
  - repeat constructor.
  - destruct (before key reverse y x) eqn:Hb.
    + constructor; [exact IH |].
      rewrite insort_Permutation. constructor; [| exact Hy].
      by apply before_ordered.
    + apply not_before_ordered in Hb.
      constructor; [by constructor |].
      constructor; [exact Hb |].
      eapply Forall_impl; [exact Hy |]. intros z Hz.
      by eapply ordered_trans.
Qed.

Lemma sorted_StronglySorted reverse l :
  StronglySorted (ordered key reverse) (sorted key reverse l).
Proof.
  induction l as [| x l IH]; simpl; [constructor |].
  by apply insort_StronglySorted.
Qed.

(** Stability: the elements of one key keep their input order. *)
Lemma insort_filter_key reverse x l k :
  filter (λ a, key a = k) (insort key reverse x l)
  = filter (λ a, key a = k) (x :: l).
Proof.
  induction l as [| y l IH]; simpl; [reflexivity |].
  destruct (before key reverse y x) eqn:Hb; [| reflexivity].
  apply before_key_ne in Hb.
  rewrite (filter_cons _ y), IH, !filter_cons.
  repeat case_decide; congruence.
Qed.

Lemma sorted_filter_key reverse l k :
  filter (λ a, key a = k) (sorted key reverse l) = filter (λ a, key a = k) l.
Proof.
  induction l as [| x l IH]; simpl; [reflexivity |].
  rewrite insort_filter_key, !filter_cons, IH. reflexivity.
Qed.

(** The first element of the result: the earliest element of the input
    that no other element has to precede. *)
Lemma sorted_head reverse l :
  l ≠ [] →
  ∃ l1 h l2 rest,
    l = l1 ++ h :: l2
    ∧ sorted key reverse l = h :: rest
    ∧ Forall (λ x, before key reverse h x = true) l1
    ∧ Forall (ordered key reverse h) l2.
Proof.
  induction l as [| x l IH]; intros Hne; [done |].
  destruct l as [| y l].
  - exists [], x, [], []. repeat split; constructor.
  - destruct IH as (l1 & h & l2 & rest & Hl & Hsorted & Hl1 & Hl2); [done |].
    change (sorted key reverse (x :: y :: l))
      with (insort key reverse x (sorted key reverse (y :: l))).
    rewrite Hsorted, Hl. simpl.
    destruct (before key reverse h x) eqn:Hb.
    + exists (x :: l1), h, l2, (insort key reverse x rest).
      repeat split; [by constructor | exact Hl2].
    + apply not_before_ordered in Hb.
      exists [], x, (l1 ++ h :: l2), (h :: rest).
      repeat split; [constructor |].
      apply Forall_app. split; [| constructor].
      * eapply Forall_impl; [exact Hl1 |]. intros z Hz.
        eapply ordered_trans; [exact Hb |]. by apply before_ordered.
      * exact Hb.
      * eapply Forall_impl; [exact Hl2 |]. intros z Hz.
        by eapply ordered_trans.
Qed.

Lemma sorted_elem_of reverse l x : x ∈ sorted key reverse l ↔ x ∈ l.
Proof. by rewrite sorted_Permutation. Qed.

End SortedFacts.

(** ** [EvolutionThread.get_next_goals] *)

Section GetNextGoals.
Implicit Types (th : EvolutionThread.t) (g : EvolutionGoal.t).

Lemma collect_next_filter (completed : gset string) (P : EvolutionGoal.t → Prop)
    `{!∀ g, Decision (P g)} gs acc :
  (∀ g, P g ↔ EvolutionGoal.status g = "pending"
              ∧ Forall (λ dep, dep ∈ completed) (EvolutionGoal.dependencies g)) →
  EvolutionThread.collect_next completed gs acc = acc ++ filter P gs.
Proof.
  intros HP. revert acc.
  induction gs as [| g gs IH]; intros acc; simpl.
  - by rewrite app_nil_r.
  - rewrite filter_cons.
    destruct (String.eqb_spec (EvolutionGoal.status g) "pending") as [Hs | Hs].
    + destruct (forallb _ _) eqn:Hdeps.
      * rewrite IH, <- app_assoc. simpl.
        rewrite decide_True; [reflexivity |].
        apply HP. split; [exact Hs |].
        apply Forall_forall. intros dep Hdep.
        rewrite forallb_forall in Hdeps.
        apply list_elem_of_In, Hdeps, bool_decide_eq_true in Hdep. exact Hdep.
      * rewrite IH, decide_False; [reflexivity |].
        intros [_ Hall]%HP.
        assert (forallb (λ dep, bool_decide (dep ∈ completed))
                  (EvolutionGoal.dependencies g) = true) as Htrue; [| congruence].
        apply forallb_forall. intros dep Hdep%list_elem_of_In.
        apply bool_decide_eq_true. rewrite Forall_forall in Hall. by apply Hall.
    + rewrite IH, decide_False; [reflexivity |].
      intros [Hp _]%HP. contradiction.
Qed.

Lemma completed_ids_spec th dep :
  dep ∈ (list_to_set
           (EvolutionGoal.goal_id <$>
              filter (λ goal, EvolutionGoal.status goal = "completed")
                     (EvolutionThread.goals th)) : gset string)
  ↔ Exists (λ g', EvolutionGoal.goal_id g' = dep
                  ∧ EvolutionGoal.status g' = "completed")
           (EvolutionThread.goals th).
Proof.
  rewrite elem_of_list_to_set, list_elem_of_fmap, Exists_exists.
  split.
  - intros (g' & -> & [Hs Hin]%list_elem_of_filter). eauto.
  - intros (g' & Hin & <- & Hs). exists g'. split; [reflexivity |].
    by apply list_elem_of_filter.
Qed.

(** With no goal in progress the result is the sorted list of the
    eligible goals. *)
Lemma get_next_goals_no_in_progress th :
  filter (λ g, EvolutionGoal.status g = "in_progress") (EvolutionThread.goals th) = [] →
  EvolutionThread.get_next_goals th
  = sorted EvolutionGoal.priority true (filter (eligible th) (EvolutionThread.goals th)).
Proof.
  intros Hnone. unfold EvolutionThread.get_next_goals. rewrite Hnone.
  rewrite (collect_next_filter _ (eligible th)); [reflexivity |].
  intros g. unfold eligible.
  rewrite !Forall_forall.
  split; intros [Hs Hall]; (split; [exact Hs |]);
    intros dep Hdep; apply completed_ids_spec; by apply Hall.
Qed.

Lemma get_next_goals_some_in_progress th :
  filter (λ g, EvolutionGoal.status g = "in_progress") (EvolutionThread.goals th) ≠ [] →
  EvolutionThread.get_next_goals th
  = sorted EvolutionGoal.priority true
      (filter (λ g, EvolutionGoal.status g = "in_progress") (EvolutionThread.goals th)).
Proof.
  intros Hsome. unfold EvolutionThread.get_next_goals.
  destruct (filter _ _); [contradiction | reflexivity].
Qed.

(** C3.  When no goal of the thread is in progress, [get_next_goals]
    returns exactly the eligible goals (pending, every dependency the
    id of a completed goal of the thread), in descending priority,
    goals of equal priority in their input order; a goal with a
    dependency that names no goal of the thread is not returned. *)
Theorem get_next_goals_pending th :
  (∀ g, g ∈ EvolutionThread.goals th → EvolutionGoal.status g ≠ "in_progress") →
  let eligible_goals := filter (eligible th) (EvolutionThread.goals th) in
  let result := EvolutionThread.get_next_goals th in
  result ≡ₚ eligible_goals
  ∧ StronglySorted by_priority_desc result
  ∧ (∀ p, filter (λ g, EvolutionGoal.priority g = p) result
          = filter (λ g, EvolutionGoal.priority g = p) eligible_goals)
  ∧ (∀ g dep, dep ∈ EvolutionGoal.dependencies g →
       (∀ g', g' ∈ EvolutionThread.goals th → EvolutionGoal.goal_id g' ≠ dep) →
       g ∉ result).
Proof.
  intros Hnone eligible_goals result.
  assert (result = sorted EvolutionGoal.priority true eligible_goals) as ->.
  { apply get_next_goals_no_in_progress.
    destruct (filter (λ g, EvolutionGoal.status g = "in_progress") _)
      as [| g l] eqn:Hf; [reflexivity |].
    assert (g ∈ g :: l) as Hin by left.
    rewrite <- Hf in Hin. apply list_elem_of_filter in Hin as [Hs Hin].
    by apply Hnone in Hin. }
  split; [apply sorted_Permutation |].
  split; [apply (sorted_StronglySorted EvolutionGoal.priority true) |].
  split; [intros p; apply sorted_filter_key |].
  intros g dep Hdep Habsent Hin.
  apply sorted_elem_of, list_elem_of_filter in Hin as [[_ Hall] _].
  rewrite Forall_forall in Hall. apply Hall in Hdep.
  apply Exists_exists in Hdep as (g' & Hg' & Hid & _).
  by apply Habsent in Hg'.
Qed.

(** C4.  When some goal of the thread is in progress, [get_next_goals]
    returns exactly the goals in progress, in descending priority,
    goals of equal priority in their input order; no pending goal is
    returned, whatever its dependencies. *)
Theorem get_next_goals_in_progress th :
  (∃ g, g ∈ EvolutionThread.goals th ∧ EvolutionGoal.status g = "in_progress") →
  let active := filter (λ g, EvolutionGoal.status g = "in_progress")
                       (EvolutionThread.goals th) in
  let result := EvolutionThread.get_next_goals th in
  result ≡ₚ active
  ∧ StronglySorted by_priority_desc result
  ∧ (∀ p, filter (λ g, EvolutionGoal.priority g = p) result
          = filter (λ g, EvolutionGoal.priority g = p) active)
  ∧ (∀ g, g ∈ result → EvolutionGoal.status g ≠ "pending").
Proof.
  intros (g0 & Hin0 & Hs0) active result.
  assert (result = sorted EvolutionGoal.priority true active) as ->.
  { apply get_next_goals_some_in_progress. intros Hnil.
    assert (g0 ∈ filter (λ g, EvolutionGoal.status g = "in_progress")
                          (EvolutionThread.goals th)) as Hin
      by (by apply list_elem_of_filter).
    unfold active in Hnil. rewrite Hnil in Hin. by apply elem_of_nil in Hin. }
  split; [apply sorted_Permutation |].
  split; [apply (sorted_StronglySorted EvolutionGoal.priority true) |].
  split; [intros p; apply sorted_filter_key |].
  intros g Hin.
  apply sorted_elem_of, list_elem_of_filter in Hin as [Hs _].
  rewrite Hs. discriminate.
Qed.

End GetNextGoals.

Example get_next_goals_waiting :
  EvolutionGoal.goal_id <$> EvolutionThread.get_next_goals waiting_thread
  = ["c"; "b"; "d"].
Proof. vm_compute. reflexivity. Qed.

Example get_next_goals_busy :
  EvolutionGoal.goal_id <$> EvolutionThread.get_next_goals busy_thread = ["e"; "d"].
Proof. vm_compute. reflexivity. Qed.

Lemma get_next_goals_pending_witness :
  let th := waiting_thread in
  let eligible_goals := filter (eligible th) (EvolutionThread.goals th) in
  let result := EvolutionThread.get_next_goals th in
  result ≡ₚ eligible_goals
  ∧ StronglySorted by_priority_desc result
  ∧ (∀ p, filter (λ g, EvolutionGoal.priority g = p) result
          = filter (λ g, EvolutionGoal.priority g = p) eligible_goals)
  ∧ (∀ g dep, dep ∈ EvolutionGoal.dependencies g →
       (∀ g', g' ∈ EvolutionThread.goals th → EvolutionGoal.goal_id g' ≠ dep) →
       g ∉ result).
Proof.
  apply (get_next_goals_pending waiting_thread).
  apply Forall_forall. repeat constructor; discriminate.
Defined.

Lemma get_next_goals_in_progress_witness :
  let th := busy_thread in
  let active := filter (λ g, EvolutionGoal.status g = "in_progress")
                       (EvolutionThread.goals th) in
  let result := EvolutionThread.get_next_goals th in
  result ≡ₚ active
  ∧ StronglySorted by_priority_desc result
  ∧ (∀ p, filter (λ g, EvolutionGoal.priority g = p) result
          = filter (λ g, EvolutionGoal.priority g = p) active)
  ∧ (∀ g, g ∈ result → EvolutionGoal.status g ≠ "pending").
Proof.
  apply (get_next_goals_in_progress busy_thread).
  exists (sample_goal "d" 5 [] "in_progress" 10).
  split; [| reflexivity]. do 3 right. left.
Defined.

(** ** [EvolutionThread.update_goal_progress] *)

Section UpdateGoalProgress.
Context `{Clock}.
Implicit Types (g : EvolutionGoal.t) (gs : list EvolutionGoal.t)
  (th : EvolutionThread.t) (n : nat).

(** No goal with the id: nothing changes and the clock is not read. *)
Lemma update_first_absent gs gid p status n :
  Forall (λ g, EvolutionGoal.goal_id g ≠ gid) gs →
  EvolutionThread.update_first gs gid p status n = ((false, gs), n).
Proof.
  induction 1 as [| g gs Hg _ IH]; simpl; [reflexivity |].
  destruct (String.eqb_spec (EvolutionGoal.goal_id g) gid); [contradiction |].
  run_clock. by rewrite IH.
Qed.

(** The first goal with the id, at position [i], is the one updated. *)
Lemma update_first_at gs gid p status n i g :
  gs !! i = Some g →
  EvolutionGoal.goal_id g = gid →
  Forall (λ g, EvolutionGoal.goal_id g ≠ gid) (take i gs) →
  EvolutionThread.update_first gs gid p status n
  = ((true, <[i := (EvolutionGoal.update_progress g p status n).1]> gs),
     (EvolutionGoal.update_progress g p status n).2).
Proof.
  revert i. induction gs as [| g0 gs IH]; intros i Hi Hid Hbefore; [done |].
  destruct i as [| i]; simpl in *.
  - injection Hi as ->.
    destruct (String.eqb_spec (EvolutionGoal.goal_id g) gid); [| contradiction].
    run_clock. by destruct (EvolutionGoal.update_progress g p status n).
  - apply Forall_cons in Hbefore as [Hg0 Hbefore].
    destruct (String.eqb_spec (EvolutionGoal.goal_id g0) gid); [contradiction |].
    run_clock. by rewrite (IH i).
Qed.

End UpdateGoalProgress.

(** ** [SelfEvolvingThreads.add_evolution_step] *)

Section AddEvolutionStep.
Context `{Clock}.
Implicit Types (g : EvolutionGoal.t) (gs : list EvolutionGoal.t)
  (th : EvolutionThread.t) (n : nat) (ids : list string).

Lemma for_each_app {A S : Type} (body : A → S → Clocked S) (l1 l2 : list A) s n :
  for_each body (l1 ++ l2) s n
  = for_each body l2 (for_each body l1 s n).1 (for_each body l1 s n).2.
Proof.
  revert s n. induction l1 as [| x l1 IH]; intros s n; simpl; [reflexivity |].
  run_clock. destruct (body x s n) as [s' n']. apply IH.
Qed.

(** Positions whose goal has another id are passed without effect. *)
Lemma advance_at_other gid j th n :
  (∀ g, EvolutionThread.goals th !! j = Some g → EvolutionGoal.goal_id g ≠ gid) →
  SelfEvolvingThreads.advance_at gid j th n = (th, n).
Proof.
  intros Hj. unfold SelfEvolvingThreads.advance_at.
  destruct (EvolutionThread.goals th !! j) as [g |]; [| reflexivity].
  destruct (String.eqb_spec (EvolutionGoal.goal_id g) gid) as [Hid |];
    [| reflexivity].
  by destruct (Hj g).
Qed.

Lemma for_each_advance_at_other gid js th n :
  (∀ j g, j ∈ js → EvolutionThread.goals th !! j = Some g →
          EvolutionGoal.goal_id g ≠ gid) →
  for_each (SelfEvolvingThreads.advance_at gid) js th n = (th, n).
Proof.
  induction js as [| j js IH]; intros Hjs; simpl; [reflexivity |].
  run_clock. rewrite advance_at_other.
  - apply IH. intros j' g Hj'. apply Hjs. by right.
  - intros g. apply Hjs. by left.
Qed.

(** In a list of goals with distinct ids, two positions with the same
    id are the same position. *)
Lemma goal_id_position gs i j g g' :
  NoDup (EvolutionGoal.goal_id <$> gs) →
  gs !! i = Some g → gs !! j = Some g' →
  EvolutionGoal.goal_id g = EvolutionGoal.goal_id g' → i = j.
Proof.
  intros Hnd Hi Hj Hid.
  eapply NoDup_lookup; [exact Hnd | |].
  - rewrite list_lookup_fmap, Hi. reflexivity.
  - rewrite list_lookup_fmap, Hj. simpl. by rewrite Hid.
Qed.

(** The inner loop for an id carried by the goal at position [i]. *)
Lemma advance_goal_at gid th n i g :
  NoDup (EvolutionGoal.goal_id <$> EvolutionThread.goals th) →
  EvolutionThread.goals th !! i = Some g →
  EvolutionGoal.goal_id g = gid →
  SelfEvolvingThreads.advance_goal gid th n
  = (EvolutionThread.set_goals
       (<[i := (advance g n).1]> (EvolutionThread.goals th)) th,
     (advance g n).2).
Proof.
  intros Hnd Hi Hid. unfold SelfEvolvingThreads.advance_goal.
  pose proof (lookup_lt_Some _ _ _ Hi) as Hlt.
  replace (length (EvolutionThread.goals th))
    with (i + (1 + (length (EvolutionThread.goals th) - S i)))%nat by lia.
  rewrite seq_app, for_each_app.
  assert (for_each (SelfEvolvingThreads.advance_at gid) (seq 0 i) th n = (th, n))
    as ->.
  { apply for_each_advance_at_other.
    intros j g' Hj%elem_of_seq Hg' Hsame.
    assert (j = i)
      by (apply (goal_id_position _ j i g' g Hnd Hg' Hi); congruence).
    lia. }
  simpl fst; simpl snd.
  rewrite seq_app, for_each_app. simpl seq.
  assert (for_each (SelfEvolvingThreads.advance_at gid) [i] th n
          = (EvolutionThread.set_goals
               (<[i := (advance g n).1]> (EvolutionThread.goals th)) th,
             (advance g n).2)) as ->.
  { simpl. unfold SelfEvolvingThreads.advance_at. rewrite Hi.
    destruct (String.eqb_spec (EvolutionGoal.goal_id g) gid); [| contradiction].
    unfold EvolutionThread.update_goal_progress. run_clock.
    rewrite (update_first_at _ _ _ _ _ i g Hi Hid).
    - unfold advance. by destruct (EvolutionGoal.update_progress g _ None n).
    - apply Forall_forall. intros g' Hg' Hsame.
      apply list_elem_of_lookup in Hg' as [j Hj].
      apply lookup_take_Some in Hj as [Hj Hji].
      assert (j = i)
        by (apply (goal_id_position _ j i g' g Hnd Hj Hi); congruence).
      lia. }
  simpl fst; simpl snd.
  apply for_each_advance_at_other.
  intros j g' Hj%elem_of_seq Hg' Hsame. simpl in Hg'.
  rewrite list_lookup_insert_ne in Hg' by lia.
  assert (j = i)
    by (apply (goal_id_position _ j i g' g Hnd Hg' Hi); congruence).
  lia.
Qed.

(** The inner loop for an id that no goal carries. *)
Lemma advance_goal_absent gid th n :
  Forall (λ g, EvolutionGoal.goal_id g ≠ gid) (EvolutionThread.goals th) →
  SelfEvolvingThreads.advance_goal gid th n = (th, n).
Proof.
  intros Habs. apply for_each_advance_at_other.
  intros j g _ Hg. rewrite Forall_forall in Habs.
  apply Habs. by eapply list_elem_of_lookup_2.
Qed.

Lemma advance_goal_id g n :
  EvolutionGoal.goal_id (advance g n).1 = EvolutionGoal.goal_id g.
Proof. apply update_progress_goal_id. Qed.

Lemma occurrences_cons_eq gid ids :
  occurrences gid (gid :: ids) = S (occurrences gid ids).
Proof. unfold occurrences. by rewrite filter_cons_True. Qed.

Lemma occurrences_cons_ne gid gid' ids :
  gid' ≠ gid → occurrences gid (gid' :: ids) = occurrences gid ids.
Proof. intros Hne. unfold occurrences. by rewrite filter_cons_False. Qed.

Lemma occurrences_absent gid ids : gid ∉ ids → occurrences gid ids = 0%nat.
Proof.
  induction ids as [| x ids IH]; intros Hni; [reflexivity |].
  apply not_elem_of_cons in Hni as [Hne Hni].
  rewrite occurrences_cons_ne by congruence. by apply IH.
Qed.

(** The outer loop: the ids of the goals stay in place, and the goal
    at each position has been advanced once for every occurrence of
    its id. *)
Lemma advance_goals_spec ids th n :
  NoDup (EvolutionGoal.goal_id <$> EvolutionThread.goals th) →
  let th' := (SelfEvolvingThreads.advance_goals ids th n).1 in
  th' = EvolutionThread.set_goals (EvolutionThread.goals th') th
  ∧ EvolutionGoal.goal_id <$> EvolutionThread.goals th'
    = EvolutionGoal.goal_id <$> EvolutionThread.goals th
  ∧ ∀ i g, EvolutionThread.goals th !! i = Some g →
      ∃ g', EvolutionThread.goals th' !! i = Some g'
            ∧ advanced (occurrences (EvolutionGoal.goal_id g) ids) g g'.
Proof.
  revert th n. induction ids as [| gid ids IH]; intros th n Hnd; simpl.
  - split; [by destruct th |]. split; [reflexivity |].
    intros i g Hi. exists g. split; [exact Hi | constructor].
  - unfold SelfEvolvingThreads.advance_goals in *. simpl. run_clock.
    destruct (decide (Forall (λ g, EvolutionGoal.goal_id g ≠ gid)
                        (EvolutionThread.goals th))) as [Habs | Hpres].
    + rewrite advance_goal_absent by exact Habs.
      destruct (IH th n Hnd) as (Hrest & Hids & Hgoals).
      split; [exact Hrest |]. split; [exact Hids |].
      intros i g Hi. rewrite occurrences_cons_ne; [by apply Hgoals |].
      rewrite Forall_forall in Habs. intros Hsame.
      apply (Habs g); [by eapply list_elem_of_lookup_2 | done].
    + apply not_Forall_Exists in Hpres; [| apply _].
      apply Exists_exists in Hpres as (g0 & Hin0 & Hid0).
      apply dec_stable in Hid0.
      apply list_elem_of_lookup in Hin0 as [i0 Hi0].
      rewrite (advance_goal_at gid th n i0 g0 Hnd Hi0 Hid0).
      set (th1 := EvolutionThread.set_goals _ th).
      assert (EvolutionGoal.goal_id <$> EvolutionThread.goals th1
              = EvolutionGoal.goal_id <$> EvolutionThread.goals th) as Hids1.
      { unfold th1. simpl. rewrite list_fmap_insert, advance_goal_id.
        apply list_insert_id. by rewrite list_lookup_fmap, Hi0. }
      destruct (IH th1 (advance g0 n).2) as (Hrest & Hids & Hgoals);
        [by rewrite Hids1 |].
      split; [rewrite Hrest at 1; by destruct th |].
      split; [by rewrite Hids |].
      intros i g Hi. destruct (decide (i = i0)) as [-> | Hne].
      * assert (g = g0) as -> by congruence.
        destruct (Hgoals i0 (advance g0 n).1) as (g' & Hg' & Hadv).
        { unfold th1. simpl. apply list_lookup_insert_eq.
          by eapply lookup_lt_Some. }
        exists g'. split; [exact Hg' |].
        rewrite advance_goal_id in Hadv.
        rewrite Hid0, occurrences_cons_eq. econstructor. by rewrite <- Hid0.
      * destruct (Hgoals i g) as (g' & Hg' & Hadv).
        { unfold th1. simpl. by rewrite list_lookup_insert_ne. }
        exists g'. split; [exact Hg' |].
        rewrite occurrences_cons_ne; [exact Hadv |].
        intros Hsame. apply Hne.
        apply (goal_id_position _ i i0 g g0 Hnd Hi Hi0). congruence.
Qed.

(** *** What [k] advances do to a goal *)

Lemma advanced_0 g g' : advanced 0 g g' → g' = g.
Proof. by inversion 1. Qed.

Lemma advanced_1 g g' :
  advanced 1 g g' →
  ∃ n, g' = (EvolutionGoal.update_progress g
               (Z.min 100 (EvolutionGoal.progress g + 10)) None n).1.
Proof.
  inversion 1 as [| k g0 g0' n Hrest]; subst.
  apply advanced_0 in Hrest. by exists n.
Qed.

Lemma advanced_progress k g g' :
  advanced k g g' →
  0 ≤ EvolutionGoal.progress g ≤ 100 →
  EvolutionGoal.progress g' = Z.min 100 (EvolutionGoal.progress g + 10 * Z.of_nat k).
Proof.
  induction 1 as [g | k g g' n _ IH]; intros Hp; [lia |].
  unfold advance in IH. rewrite update_progress_progress in IH.
  rewrite IH; lia.
Qed.

Lemma advanced_completed k g g' :
  advanced k g g' →
  0 ≤ EvolutionGoal.progress g →
  100 ≤ EvolutionGoal.progress g + 10 * Z.of_nat k →
  (1 ≤ k)%nat ∨ EvolutionGoal.status g = "completed" →
  EvolutionGoal.status g' = "completed".
Proof.
  induction 1 as [g | k g g' n _ IH]; intros Hp Hreach Hk.
  - destruct Hk; [lia | done].
  - unfold advance in IH.
    rewrite update_progress_progress, update_progress_status in IH.
    apply IH; [lia | lia |].
    destruct k as [| k]; [right | left; lia].
    destruct (Z.eqb_spec (Z.min 100 (EvolutionGoal.progress g + 10)) 100);
      [reflexivity | lia].
Qed.

(** An advance keeps the invariant of the data model. *)
Lemma advance_invariant g n :
  progress_status_invariant g → progress_status_invariant (advance g n).1.
Proof.
  unfold progress_status_invariant, advance. intros [Hto Hfrom].
  rewrite update_progress_progress, update_progress_status. simpl.
  destruct (Z.eqb_spec (Z.min 100 (EvolutionGoal.progress g + 10)) 100)
    as [Heq | Hne].
  - split; [reflexivity | lia].
  - split; [lia |]. intros Hdone.
    assert (EvolutionGoal.status g ≠ "completed") as Hopen
      by (intros Hs; apply Hfrom in Hs; lia).
    destruct (0 <? _); simpl in Hdone;
      [destruct (String.eqb _ _) |]; congruence.
Qed.

Lemma advanced_invariant k g g' :
  advanced k g g' → progress_status_invariant g → progress_status_invariant g'.
Proof.
  induction 1 as [g | k g g' n _ IH]; intros Hinv; [exact Hinv |].
  by apply IH, advance_invariant.
Qed.

End AddEvolutionStep.

Section AddEvolutionStepWorld.
Context `{Clock} `{Md5}.
Implicit Types (w : SelfEvolvingThreads.World) (th : EvolutionThread.t).

Lemma to_dict_thread th : EvolutionThread.to_dict th = th.
Proof.
  destruct th. unfold EvolutionThread.to_dict. simpl.
  by rewrite (list_fmap_id _ : EvolutionGoal.to_dict <$> _ = _).
Qed.

Lemma add_ai_participant_goals th ai :
  EvolutionThread.goals (EvolutionThread.add_ai_participant th ai)
  = EvolutionThread.goals th.
Proof. unfold EvolutionThread.add_ai_participant. by case_bool_decide. Qed.

Lemma add_ai_participant_thread_id th ai :
  EvolutionThread.thread_id (EvolutionThread.add_ai_participant th ai)
  = EvolutionThread.thread_id th.
Proof. unfold EvolutionThread.add_ai_participant. by case_bool_decide. Qed.

Lemma from_dict_goal_ids (gs : list EvolutionGoal.t) :
  EvolutionGoal.goal_id <$> (EvolutionGoal.from_dict <$> gs)
  = EvolutionGoal.goal_id <$> gs.
Proof. rewrite <- list_fmap_compose. by apply list_fmap_ext. Qed.

Lemma update_thread_files th w :
  SelfEvolvingThreads.thread_files (SelfEvolvingThreads.update_thread th w).2
  = <[EvolutionThread.thread_id th := th]> (SelfEvolvingThreads.thread_files w).
Proof.
  unfold SelfEvolvingThreads.update_thread. run_clock.
  unfold SelfEvolvingThreads.write_thread,
    SelfEvolvingThreads.load_active_threads_index,
    SelfEvolvingThreads.clocked, SelfEvolvingThreads.write_active_threads_index.
  simpl. rewrite to_dict_thread.
  by destruct (SelfEvolvingThreads.refresh_entry _ _ _).
Qed.

(** The thread document written by [add_evolution_step]: the stored
    thread, loaded, with the step appended and its goals run through
    the advance loops. *)
Lemma add_evolution_step_stored w tid th title description ids changes outcome ai :
  SelfEvolvingThreads.thread_files w !! tid = Some th →
  EvolutionThread.thread_id th = tid →
  NoDup (EvolutionGoal.goal_id <$> EvolutionThread.goals th) →
  ∃ th0 n,
    EvolutionThread.goals th0 = EvolutionGoal.from_dict <$> EvolutionThread.goals th
    ∧ SelfEvolvingThreads.thread_files
        (SelfEvolvingThreads.add_evolution_step
           tid title description ids changes outcome ai w).2 !! tid
      = Some (SelfEvolvingThreads.advance_goals ids th0 n).1.
Proof.
  intros Hth Htid Hnd.
  unfold SelfEvolvingThreads.add_evolution_step, SelfEvolvingThreads.get_thread.
  run_clock. rewrite Hth. simpl.
  unfold SelfEvolvingThreads.clocked at 1. simpl.
  match goal with
  | |- context [SelfEvolvingThreads.advance_goals ids ?t ?m] =>
      exists t, m; set (th0 := t); set (n := m)
  end.
  assert (EvolutionThread.goals th0
          = EvolutionGoal.from_dict <$> EvolutionThread.goals th) as Hgoals
    by (unfold th0; by rewrite add_ai_participant_goals).
  split; [exact Hgoals |].
  destruct (advance_goals_spec ids th0 n) as (Hrest & _ & _);
    [by rewrite Hgoals, from_dict_goal_ids |].
  destruct (SelfEvolvingThreads.advance_goals ids th0 n) as [th' n'].
  simpl in *.
  match goal with
  | |- context [SelfEvolvingThreads.update_thread th' ?w0] =>
      pose proof (update_thread_files th' w0) as Hfiles;
      destruct (SelfEvolvingThreads.update_thread th' w0) as [b w1]
  end.
  simpl in *. rewrite Hfiles.
  assert (EvolutionThread.thread_id th' = tid) as ->.
  { rewrite Hrest. simpl. unfold th0.
    by rewrite add_ai_participant_thread_id. }
  apply lookup_insert_eq.
Qed.

(** C6, amended.  [add_evolution_step] on a stored thread with pairwise
    distinct goal ids writes the thread back with every goal advanced
    once per occurrence of its id in [goals_advanced]: a goal whose id
    does not occur is written back as loaded; a goal whose id occurs
    once is the result of [update_progress] with
    [min(100, progress + 10)] and no status; with a stored progress in
    0..100 and [k] occurrences the progress becomes
    [min(100, progress + 10 k)], and the status is ["completed"] when
    [k ≥ 1] and that sum reaches 100.  Ids that match no goal change no
    goal. *)
Theorem add_evolution_step_goals w tid th title description ids changes outcome ai :
  SelfEvolvingThreads.thread_files w !! tid = Some th →
  EvolutionThread.thread_id th = tid →
  NoDup (EvolutionGoal.goal_id <$> EvolutionThread.goals th) →
  let w' := (SelfEvolvingThreads.add_evolution_step
               tid title description ids changes outcome ai w).2 in
  ∃ th',
    SelfEvolvingThreads.thread_files w' !! tid = Some th'
    ∧ (∀ i g, EvolutionThread.goals th !! i = Some g →
         ∃ g', EvolutionThread.goals th' !! i = Some g'
           ∧ let k := occurrences (EvolutionGoal.goal_id g) ids in
             advanced k (EvolutionGoal.from_dict g) g'
             ∧ (k = 0%nat → g' = EvolutionGoal.from_dict g)
             ∧ (k = 1%nat →
                ∃ n, g' = (EvolutionGoal.update_progress
                             (EvolutionGoal.from_dict g)
                             (Z.min 100 (EvolutionGoal.progress g + 10))
                             None n).1)
             ∧ (0 ≤ EvolutionGoal.progress g ≤ 100 →
                EvolutionGoal.progress g'
                = Z.min 100 (EvolutionGoal.progress g + 10 * Z.of_nat k))
             ∧ (0 ≤ EvolutionGoal.progress g → (1 ≤ k)%nat →
                100 ≤ EvolutionGoal.progress g + 10 * Z.of_nat k →
                EvolutionGoal.status g' = "completed"))
    ∧ ((∀ gid g, gid ∈ ids → g ∈ EvolutionThread.goals th →
                 EvolutionGoal.goal_id g ≠ gid) →
       EvolutionThread.goals th'
       = EvolutionGoal.from_dict <$> EvolutionThread.goals th).
Proof.
  intros Hth Htid Hnd w'.
  destruct (add_evolution_step_stored w tid th title description ids changes
              outcome ai Hth Htid Hnd) as (th0 & n & Hgoals0 & Hstored).
  destruct (advance_goals_spec ids th0 n) as (_ & Hids & Hadv);
    [by rewrite Hgoals0, from_dict_goal_ids |].
  exists (SelfEvolvingThreads.advance_goals ids th0 n).1.
  split; [exact Hstored |].
  assert (∀ i g, EvolutionThread.goals th !! i = Some g →
            ∃ g', EvolutionThread.goals
                    (SelfEvolvingThreads.advance_goals ids th0 n).1 !! i = Some g'
              ∧ advanced (occurrences (EvolutionGoal.goal_id g) ids)
                  (EvolutionGoal.from_dict g) g') as Hpoint.
  { intros i g Hi.
    apply (Hadv i (EvolutionGoal.from_dict g)).
    by rewrite Hgoals0, list_lookup_fmap, Hi. }
  split.
  - intros i g Hi. destruct (Hpoint i g Hi) as (g' & Hg' & Hk).
    exists g'. split; [exact Hg' |]. simpl.
    split; [exact Hk |].
    split; [intros Hk0; rewrite Hk0 in Hk; by apply advanced_0 |].
    split; [intros Hk1; rewrite Hk1 in Hk; by apply advanced_1 in Hk |].
    split.
    + intros Hp. by apply (advanced_progress _ _ _ Hk).
    + intros Hp Hk1 Hreach.
      apply (advanced_completed _ _ _ Hk); [done | done | by left].
  - intros Hnone. apply list_eq. intros i.
    rewrite list_lookup_fmap.
    destruct (EvolutionThread.goals th !! i) as [g |] eqn:Hi; simpl.
    + destruct (Hpoint i g Hi) as (g' & Hg' & Hk).
      rewrite occurrences_absent in Hk.
      * apply advanced_0 in Hk. by rewrite Hg', Hk.
      * intros Hin. eapply Hnone; [exact Hin | | reflexivity].
        by eapply list_elem_of_lookup_2.
    + apply lookup_ge_None. apply lookup_ge_None in Hi.
      assert (length (EvolutionThread.goals
                        (SelfEvolvingThreads.advance_goals ids th0 n).1)
              = length (EvolutionThread.goals th)) as ->; [| exact Hi].
      rewrite <- (length_fmap EvolutionGoal.goal_id), Hids, Hgoals0.
      by rewrite !length_fmap.
Qed.

(** A thread whose goals satisfy the invariant of the data model is
    written back with goals that satisfy it. *)
Lemma add_evolution_step_invariant w tid th title description ids changes outcome ai :
  SelfEvolvingThreads.thread_files w !! tid = Some th →
  EvolutionThread.thread_id th = tid →
  NoDup (EvolutionGoal.goal_id <$> EvolutionThread.goals th) →
  Forall progress_status_invariant (EvolutionThread.goals th) →
  ∃ th',
    SelfEvolvingThreads.thread_files
      (SelfEvolvingThreads.add_evolution_step
         tid title description ids changes outcome ai w).2 !! tid = Some th'
    ∧ Forall progress_status_invariant (EvolutionThread.goals th').
Proof.
  intros Hth Htid Hnd Hinv.
  destruct (add_evolution_step_stored w tid th title description ids changes
              outcome ai Hth Htid Hnd) as (th0 & n & Hgoals0 & Hstored).
  destruct (advance_goals_spec ids th0 n) as (_ & Hids & Hadv);
    [by rewrite Hgoals0, from_dict_goal_ids |].
  eexists. split; [exact Hstored |].
  apply Forall_lookup. intros i g' Hg'.
  assert (i < length (EvolutionThread.goals th0))%nat as Hlt.
  { rewrite <- (length_fmap EvolutionGoal.goal_id), <- Hids, length_fmap.
    by eapply lookup_lt_Some. }
  apply lookup_lt_is_Some in Hlt as [g0 Hg0].
  destruct (Hadv i g0 Hg0) as (g'' & Hg'' & Hk).
  assert (g'' = g') as -> by congruence.
  apply (advanced_invariant _ _ _ Hk).
  rewrite Hgoals0, list_lookup_fmap in Hg0.
  destruct (EvolutionThread.goals th !! i) as [g |] eqn:Hg; [| done].
  injection Hg0 as <-.
  rewrite Forall_lookup in Hinv. exact (Hinv i g Hg).
Qed.

End AddEvolutionStepWorld.

(** The example of the specification: 95 becomes 100 and completed. *)
Example add_evolution_step_95 :
  (λ g, (EvolutionGoal.progress g, EvolutionGoal.status g))
    <$> first_goal_after 95 ["g1"]
  = Some (100, "completed").
Proof. vm_compute. reflexivity. Qed.

Example add_evolution_step_unknown_id :
  first_goal_after 95 ["g2"] = Some (sample_goal "g1" 5 [] "in_progress" 95).
Proof. vm_compute. reflexivity. Qed.

(** C6 as stated fails: an id listed twice advances its goal twice. *)
Lemma add_evolution_step_counterexample :
  EvolutionGoal.progress <$> first_goal_after 0 ["g1"; "g1"]
  ≠ Some (Z.min 100 (0 + 10)).
Proof. vm_compute. discriminate. Qed.

Example add_evolution_step_twice :
  EvolutionGoal.progress <$> first_goal_after 0 ["g1"; "g1"] = Some 20.
Proof. vm_compute. reflexivity. Qed.

Lemma add_evolution_step_goals_witness :
  let w := sample_world 95 in
  let th := sample_thread [sample_goal "g1" 5 [] "in_progress" 95] in
  let ids := ["g1"; "g2"] in
  let w' := (SelfEvolvingThreads.add_evolution_step (H := sample_clock)
               (H0 := sample_md5) "thread_1" "step" "a step" ids []
               "done" "ai_2" w).2 in
  ∃ th',
    SelfEvolvingThreads.thread_files w' !! "thread_1" = Some th'
    ∧ (∀ i g, EvolutionThread.goals th !! i = Some g →
         ∃ g', EvolutionThread.goals th' !! i = Some g'
           ∧ let k := occurrences (EvolutionGoal.goal_id g) ids in
             advanced (H := sample_clock) k (EvolutionGoal.from_dict g) g'
             ∧ (k = 0%nat → g' = EvolutionGoal.from_dict g)
             ∧ (k = 1%nat →
                ∃ n, g' = (EvolutionGoal.update_progress (H := sample_clock)
                             (EvolutionGoal.from_dict g)
                             (Z.min 100 (EvolutionGoal.progress g + 10))
                             None n).1)
             ∧ (0 ≤ EvolutionGoal.progress g ≤ 100 →
                EvolutionGoal.progress g'
                = Z.min 100 (EvolutionGoal.progress g + 10 * Z.of_nat k))
             ∧ (0 ≤ EvolutionGoal.progress g → (1 ≤ k)%nat →
                100 ≤ EvolutionGoal.progress g + 10 * Z.of_nat k →
                EvolutionGoal.status g' = "completed"))
    ∧ ((∀ gid g, gid ∈ ids → g ∈ EvolutionThread.goals th →
                 EvolutionGoal.goal_id g ≠ gid) →
       EvolutionThread.goals th'
       = EvolutionGoal.from_dict <$> EvolutionThread.goals th).
Proof.
  apply (add_evolution_step_goals (H := sample_clock) (H0 := sample_md5)
           (sample_world 95) "thread_1"
           (sample_thread [sample_goal "g1" 5 [] "in_progress" 95])).
  - vm_compute. reflexivity.
  - reflexivity.
  - simpl. apply NoDup_singleton.
Defined.

(** ** Strings *)

Section Strings.
Implicit Types (s t u : string).

Lemma append_cons a s t : String a s +:+ t = String a (s +:+ t).
Proof. reflexivity. Qed.

Lemma append_assoc s t u : (s +:+ t) +:+ u = s +:+ t +:+ u.
Proof.
  induction s as [| a s IH]; [reflexivity |].
  by rewrite !append_cons, IH.
Qed.

Lemma append_nil_r s : s +:+ "" = s.
Proof. induction s as [| a s IH]; [reflexivity |]. by rewrite append_cons, IH. Qed.

(** Every element of a joined list is part of the text. *)
Lemma join_names sep (l : list string) f :
  f ∈ l → ∃ before after, join sep l = before +:+ f +:+ after.
Proof.
  induction l as [| s l IH]; intros Hin; [by apply elem_of_nil in Hin |].
  apply elem_of_cons in Hin as [-> | Hin].
  - exists "". destruct l as [| s' l].
    + exists "". simpl. by rewrite append_nil_r.
    + by exists (sep +:+ join sep (s' :: l)).
  - destruct (IH Hin) as (before & after & Hjoin).
    destruct l as [| s' l]; [by apply elem_of_nil in Hin |].
    exists (s +:+ sep +:+ before), after.
    change (join sep (s :: s' :: l)) with (s +:+ sep +:+ join sep (s' :: l)).
    by rewrite Hjoin, !append_assoc.
Qed.
End Strings.

Section RegisterProtocol.
Context `{Clock}.
Import ProtocolHarmonizer.
Implicit Types (schema : gmap string json) (w : World).

(** ** [ProtocolHarmonizer.register_protocol] *)

(** C8.  When a required field is absent from the schema,
    [register_protocol] fails with the message
    ["Schema missing required fields: "] followed by the absent
    required fields joined by [", "]; each absent required field
    occurs in the message; the store and the clock are as before the
    call (no schema document written, no registry entry appended). *)
Theorem register_protocol_missing_fields schema registering_ai w :
  (∃ field, field ∈ required_fields ∧ schema !! field = None) →
  let message :=
    "Schema missing required fields: " +:+ join ", " (missing_fields schema) in
  register_protocol schema registering_ai w = (inr (false, message), w)
  ∧ (∀ field, field ∈ required_fields → schema !! field = None →
       field ∈ missing_fields schema
       ∧ ∃ before after, message = before +:+ field +:+ after).
Proof.
  intros (field0 & Hreq0 & Habs0) message.
  assert (∀ field, field ∈ required_fields → schema !! field = None →
            field ∈ missing_fields schema) as Hmissing.
  { intros field Hreq Habs. by apply list_elem_of_filter. }
  split.
  - unfold register_protocol, register. run_M.
    fold (missing_fields schema).
    destruct (missing_fields schema) as [| f l] eqn:Hm; [| reflexivity].
    apply Hmissing in Hreq0; [| exact Habs0].
    by apply elem_of_nil in Hreq0.
  - intros field Hreq Habs. split; [by apply Hmissing |].
    destruct (join_names ", " (missing_fields schema) field)
      as (before & after & Hjoin); [by apply Hmissing |].
    exists ("Schema missing required fields: " +:+ before), after.
    unfold message. by rewrite Hjoin, !append_assoc.
Qed.

End RegisterProtocol.

Section Frames.
Context `{Clock}.
Import ProtocolHarmonizer.
Implicit Types (schema : gmap string json) (w : World).

Lemma log_negotiation_event_run event_type description actor w :
  _log_negotiation_event event_type description actor w
  = (inr true,
     mkWorld (S (reads w)) (registry_json w) (schema_files w)
       (primary_protocol_json w)
       (Some (default [] (negotiation_log_json w)
                ++ [mkEvent (isoformat_now (reads w)) event_type description actor]))).
Proof. reflexivity. Qed.

(** [set_primary_protocol] on an id of the registry. *)
Lemma set_primary_protocol_run schema_id reason decided_by w :
  existsb (λ protocol, String.eqb (ProtocolHarmonizer.schema_id protocol) schema_id)
          (protocols (default (mkRegistry [] None) (registry_json w))) = true →
  set_primary_protocol schema_id reason decided_by w
  = (inr (true, "Primary protocol set to " +:+ schema_id),
     mkWorld (S (S (reads w))) (registry_json w) (schema_files w)
       (Some (mkPrimary schema_id (isoformat_now (reads w)) reason decided_by))
       (Some (default [] (negotiation_log_json w)
                ++ [mkEvent (isoformat_now (S (reads w))) "primary_change"
                      ("Primary protocol set to " +:+ schema_id +:+ " by "
                         +:+ decided_by +:+ ": " +:+ reason)
                      decided_by]))).
Proof.
  intros Hin. unfold set_primary_protocol, _load_registry. run_M.
  rewrite Hin. reflexivity.
Qed.

(** [set_primary_protocol] returns normally and writes neither the
    registry nor a schema document. *)
Lemma set_primary_protocol_frame schema_id reason decided_by w :
  ∃ r w', set_primary_protocol schema_id reason decided_by w = (inr r, w')
          ∧ registry_json w' = registry_json w
          ∧ schema_files w' = schema_files w.
Proof.
  destruct (existsb (λ protocol, String.eqb (ProtocolHarmonizer.schema_id protocol) schema_id)
              (protocols (default (mkRegistry [] None) (registry_json w)))) eqn:Hin.
  - rewrite set_primary_protocol_run by exact Hin. eauto.
  - unfold set_primary_protocol, _load_registry. run_M. rewrite Hin. simpl. eauto.
Qed.

Lemma load_schemas_run entries w :
  load_schemas entries w = (inr (stored_schemas w entries), w).
Proof.
  induction entries as [| e entries IH]; [reflexivity |].
  simpl. unfold load_schema. run_M. rewrite IH.
  destruct (schema_files w !! _) as [schema |]; [| reflexivity].
  by case_bool_decide.
Qed.

Lemma pure_ret {A} (a : A) : pure_M (mret a).
Proof. by intros w. Qed.

Lemma pure_raise {A} e : pure_M (raise (A := A) e).
Proof. by intros w. Qed.

Lemma pure_bind {A B} (m : M A) (f : A → M B) :
  pure_M m → (∀ a, pure_M (f a)) → pure_M (m ≫= f).
Proof.
  intros Hm Hf w. run_M. specialize (Hm w).
  destruct (m w) as [[e | a] w1]; simpl in *; subst; [reflexivity | apply Hf].
Qed.

Lemma pure_len v : pure_M (len v).
Proof. destruct v; first [apply pure_ret | apply pure_raise]. Qed.

Lemma pure_times_two v : pure_M (times_two v).
Proof. destruct v; first [apply pure_ret | apply pure_raise]. Qed.

Lemma pure_getitem schema key : pure_M (getitem schema key).
Proof.
  unfold getitem. destruct (schema !! key); [apply pure_ret | apply pure_raise].
Qed.

Lemma pure_as_str v : pure_M (as_str v).
Proof. destruct v; first [apply pure_ret | apply pure_raise]. Qed.

(** Scoring does not touch the store. *)
Lemma score_schema_frame current schema : pure_M (score_schema current schema).
Proof.
  unfold score_schema.
  repeat first [ apply pure_bind; [| intros ?] | apply pure_len
               | apply pure_times_two | apply pure_getitem | apply pure_as_str
               | apply pure_ret ].
Qed.

Lemma score_all_frame current schemas : pure_M (score_all current schemas).
Proof.
  induction schemas as [| schema schemas IH]; [apply pure_ret |].
  simpl. apply pure_bind; [apply score_schema_frame | intros entry].
  apply pure_bind; [exact IH | intros entries; apply pure_ret].
Qed.

(** [_negotiate_primary_protocol] returns normally and writes neither
    the registry nor a schema document. *)
Lemma negotiate_primary_protocol_frame w :
  ∃ w', _negotiate_primary_protocol w = (inr tt, w')
        ∧ registry_json w' = registry_json w
        ∧ schema_files w' = schema_files w.
Proof.
  unfold _negotiate_primary_protocol, negotiate, _load_registry, load_primary.
  run_M.
  destruct (_ <=? 1)%nat; [eauto |].
  rewrite load_schemas_run.
  pose proof (score_all_frame (primary_protocol <$> primary_protocol_json w)
                (stored_schemas w
                   (protocols (default (mkRegistry [] None) (registry_json w)))) w)
    as Hscore.
  destruct (score_all _ _ w) as [[e | scores] w1]; simpl in Hscore; subst w1;
    [eauto |].
  destruct (sorted score true scores) as [| top rest]; [eauto |].
  case_bool_decide; simpl; [eauto |].
  destruct (set_primary_protocol_frame (score_schema_id top)
              (negotiation_reason (score top)) "ProtocolHarmonizer" w)
    as (r & w' & -> & Hreg & Hfiles).
  eauto.
Qed.

End Frames.

Section Duplicate.
Context `{Clock}.
Import ProtocolHarmonizer.
Implicit Types (schema : gmap string json) (w : World).

Lemma filter_none {A} (P : A → Prop) `{!∀ x, Decision (P x)} (l : list A) :
  Forall (λ x, ¬ P x) l → filter P l = [].
Proof.
  induction 1 as [| x l Hx _ IH]; [reflexivity |].
  by rewrite filter_cons_False.
Qed.

(** *** Inversion of normal returns *)

Lemma bind_inr {A B} (m : M A) (f : A → M B) w b w2 :
  (m ≫= f) w = (inr b, w2) →
  ∃ a w1, m w = (inr a, w1) ∧ f a w1 = (inr b, w2).
Proof.
  run_M. destruct (m w) as [[e | a] w1]; [intros [=] | eauto].
Qed.

Lemma ret_inr {A} (a b : A) w w1 :
  (mret a : M A) w = (inr b, w1) → a = b ∧ w1 = w.
Proof. run_M. by intros [= -> ->]. Qed.

Lemma getitem_inr schema key w v w1 :
  getitem schema key w = (inr v, w1) → schema !! key = Some v ∧ w1 = w.
Proof.
  unfold getitem. destruct (schema !! key); run_M; [| intros [=]].
  by intros [= -> ->].
Qed.

Lemma as_str_inr v w s w1 : as_str v w = (inr s, w1) → v = JStr s ∧ w1 = w.
Proof. destruct v; run_M; simpl; intros [=]; by subst. Qed.

Lemma str_method_inr attr v w s w1 :
  str_method attr v w = (inr s, w1) → v = JStr s ∧ w1 = w.
Proof. destruct v; run_M; simpl; intros [=]; by subst. Qed.

Lemma try_except_true {A} (body : M (bool * A)) (handler : exn → A) w a w1 :
  try_except body (λ e, mret (M := M) (false, handler e)) w = (inr (true, a), w1) →
  body w = (inr (true, a), w1).
Proof.
  unfold try_except. destruct (body w) as [[e | r] w']; [| done].
  run_M. intros [=].
Qed.

Lemma stored_schema_lookup schema_id created schema key :
  key ≠ "schema_id" → key ≠ "compatibility" → key ≠ "created_at" →
  key ≠ "usage_count" →
  stored_schema schema_id created schema !! key = schema !! key.
Proof.
  intros. unfold stored_schema.
  rewrite !lookup_insert_ne by done.
  destruct (_ !! "compatibility"); by rewrite ?lookup_insert_ne by done.
Qed.

Lemma assign_schema_id_inr schema w schema_id schema' w1 :
  schema !! "schema_id" = None →
  assign_schema_id schema w = (inr (schema_id, schema'), w1) →
  ∃ name version,
    schema !! "name" = Some (JStr name)
    ∧ schema !! "version" = Some (JStr version)
    ∧ schema_id = derived_schema_id name version
    ∧ schema' = <["schema_id" := JStr schema_id]> schema
    ∧ w1 = w.
Proof.
  intros Hid. unfold assign_schema_id. rewrite Hid.
  intros (name & wa & (v & wb & (Hv & ->)%getitem_inr
                         & (-> & ->)%str_method_inr)%bind_inr & Hrest)%bind_inr.
  apply bind_inr in Hrest
    as (version & wc & (v' & wd & (Hv' & ->)%getitem_inr
                          & (-> & ->)%str_method_inr)%bind_inr & Hret).
  apply ret_inr in Hret as [[= <- <-] ->].
  by exists name, version.
Qed.

Lemma assign_schema_id_derived schema name version w :
  schema !! "schema_id" = None →
  schema !! "name" = Some (JStr name) →
  schema !! "version" = Some (JStr version) →
  assign_schema_id schema w
  = (inr (derived_schema_id name version,
          <["schema_id" := JStr (derived_schema_id name version)]> schema), w).
Proof.
  intros Hid Hname Hversion. unfold assign_schema_id, getitem. run_M.
  by rewrite Hid, Hname, Hversion.
Qed.

(** A successful registration of a schema without [schema_id]: the
    name and version are strings, the generated id was not in the
    registry, and the store afterwards holds the new registry entry
    and the schema document. *)
Lemma register_protocol_success schema registering_ai w message w1 :
  schema !! "schema_id" = None →
  register_protocol schema registering_ai w = (inr (true, message), w1) →
  ∃ name version author updated,
    schema !! "name" = Some (JStr name)
    ∧ schema !! "version" = Some (JStr version)
    ∧ schema !! "author" = Some (JStr author)
    ∧ let schema_id := derived_schema_id name version in
      let old := protocols (default (mkRegistry [] None) (registry_json w)) in
      Forall (λ e, ProtocolHarmonizer.schema_id e ≠ schema_id) old
      ∧ registry_json w1
        = Some (mkRegistry
                  (old ++ [mkEntry schema_id name version author
                                   (schema_path schema_id)])
                  (Some updated))
      ∧ schema_files w1
        = <[schema_path schema_id
            := stored_schema schema_id (isoformat_now (reads w)) schema]>
            (schema_files w).
Proof.
  intros Hid Hrun%try_except_true. unfold register in Hrun.
  destruct (filter _ required_fields) as [| f l];
    [| by apply ret_inr in Hrun as [[=] _]].
  apply bind_inr in Hrun as ([schema_id schema'] & wa & Hassign & Hrun).
  apply assign_schema_id_inr in Hassign
    as (name & version & Hname & Hversion & -> & -> & ->); [| exact Hid].
  apply bind_inr in Hrun as (registry & wb & Hload & Hrun).
  unfold _load_registry in Hload. injection Hload as <- <-.
  destruct (existsb _ _) eqn:Hdup; [by apply ret_inr in Hrun as [[=] _] |].
  apply bind_inr in Hrun as (created & wc & Hclock & Hrun).
  unfold clock_now in Hclock. injection Hclock as <- <-.
  fold (stored_schema (derived_schema_id name version) (isoformat_now (reads w))
          schema) in Hrun.
  set (stored := stored_schema _ _ schema) in Hrun.
  apply bind_inr in Hrun as ([] & wd & Hwrite & Hrun).
  unfold write_schema in Hwrite. injection Hwrite as <-. simpl in Hrun.
  apply bind_inr in Hrun
    as (name' & we & (v1 & wf & (Hv1 & ->)%getitem_inr
                        & (-> & ->)%as_str_inr)%bind_inr & Hrun).
  apply bind_inr in Hrun
    as (version' & wg & (v2 & wh & (Hv2 & ->)%getitem_inr
                           & (-> & ->)%as_str_inr)%bind_inr & Hrun).
  apply bind_inr in Hrun
    as (author & wi & (v3 & wj & (Hv3 & ->)%getitem_inr
                         & (-> & ->)%as_str_inr)%bind_inr & Hrun).
  unfold stored in Hv1, Hv2, Hv3.
  rewrite stored_schema_lookup in Hv1, Hv2, Hv3 by done.
  assert (name' = name) as -> by congruence.
  assert (version' = version) as -> by congruence.
  apply bind_inr in Hrun as (updated & wk & Hclock & Hrun).
  unfold clock_now in Hclock. injection Hclock as <- <-. simpl in Hrun.
  apply bind_inr in Hrun as ([] & wl & Hwrite & Hrun).
  unfold write_registry in Hwrite. injection Hwrite as <-. simpl in Hrun.
  apply bind_inr in Hrun as (logged & wm & Hlog & Hrun).
  rewrite log_negotiation_event_run in Hlog. injection Hlog as <- <-.
  simpl in Hrun.
  apply bind_inr in Hrun as ([] & wn & Hneg & Hrun).
  apply ret_inr in Hrun as [_ ->].
  destruct (negotiate_primary_protocol_frame
              (mkWorld (S (S (S (reads w))))
                 (Some (mkRegistry
                          (protocols (default (mkRegistry [] None) (registry_json w))
                             ++ [mkEntry (derived_schema_id name version) name
                                   version author
                                   (schema_path (derived_schema_id name version))])
                          (Some (isoformat_now (S (reads w))))))
                 (<[schema_path (derived_schema_id name version) := stored]>
                    (schema_files w))
                 (primary_protocol_json w)
                 (Some (default [] (negotiation_log_json w)
                          ++ [mkEvent (isoformat_now (S (S (reads w))))
                                "registration"
                                ("Protocol '" +:+ name +:+ "' registered by "
                                   +:+ registering_ai)
                                registering_ai]))))
    as (w' & Hneg' & Hreg & Hfiles).
  rewrite Hneg' in Hneg. injection Hneg as <-.
  exists name, version, author, (isoformat_now (S (reads w))).
  split; [exact Hname |]. split; [exact Hversion |]. split; [exact Hv3 |].
  simpl. split; [| split; [exact Hreg | exact Hfiles]].
  apply Forall_forall. intros e He Hsame.
  assert (existsb (λ existing, String.eqb (ProtocolHarmonizer.schema_id existing)
                                 (derived_schema_id name version))
            (protocols (default (mkRegistry [] None) (registry_json w))) = true)
    as Htrue; [| congruence].
  apply existsb_exists. exists e. split; [by apply list_elem_of_In |].
  by apply String.eqb_eq.
Qed.

(** C9.  After a successful registration of a schema without
    [schema_id], registering a second schema with the same name and
    version (all required fields present, no [schema_id]) fails
    with ["Protocol schema with ID <id> already exists"] for the id
    generated from name and version, and changes nothing: the registry
    holds exactly one entry under that id, the entry of the first
    schema, and the schema document at the id's path is the one stored
    for the first schema. *)
Theorem register_protocol_duplicate schema1 schema2 ai1 ai2 w message1 w1 :
  schema1 !! "schema_id" = None →
  schema2 !! "schema_id" = None →
  schema2 !! "name" = schema1 !! "name" →
  schema2 !! "version" = schema1 !! "version" →
  missing_fields schema2 = [] →
  register_protocol schema1 ai1 w = (inr (true, message1), w1) →
  ∃ name version author,
    schema1 !! "name" = Some (JStr name)
    ∧ schema1 !! "version" = Some (JStr version)
    ∧ schema1 !! "author" = Some (JStr author)
    ∧ let schema_id := derived_schema_id name version in
      register_protocol schema2 ai2 w1
      = (inr (false, "Protocol schema with ID " +:+ schema_id +:+ " already exists"),
         w1)
      ∧ filter (λ e, ProtocolHarmonizer.schema_id e = schema_id)
               (protocols (default (mkRegistry [] None) (registry_json w1)))
        = [mkEntry schema_id name version author (schema_path schema_id)]
      ∧ schema_files w1 !! schema_path schema_id
        = Some (stored_schema schema_id (isoformat_now (reads w)) schema1).
Proof.
  intros Hid1 Hid2 Hname2 Hversion2 Hvalid2 Hfirst.
  destruct (register_protocol_success _ _ _ _ _ Hid1 Hfirst)
    as (name & version & author & updated & Hname & Hversion & Hauthor
        & Hfresh & Hreg & Hfiles).
  exists name, version, author.
  split; [exact Hname |]. split; [exact Hversion |]. split; [exact Hauthor |].
  simpl in *. rewrite Hreg. simpl.
  split; [| split].
  - unfold register_protocol, register, try_except.
    fold (missing_fields schema2). rewrite Hvalid2.
    rewrite Hname in Hname2. rewrite Hversion in Hversion2.
    run_M.
    rewrite (assign_schema_id_derived schema2 name version w1 Hid2 Hname2 Hversion2).
    unfold _load_registry. rewrite Hreg. simpl.
    rewrite existsb_app. simpl. rewrite String.eqb_refl.
    by rewrite orb_true_r.
  - rewrite filter_app, filter_cons_True, filter_nil by done.
    rewrite filter_none; [reflexivity | exact Hfresh].
  - rewrite Hfiles. apply lookup_insert_eq.
Qed.

End Duplicate.

(** ** [ProtocolHarmonizer._negotiate_primary_protocol] *)

Section Negotiation.
Context `{Clock}.
Import ProtocolHarmonizer.
Implicit Types (schema : gmap string json) (w : World) (e : RegistryEntry).

Lemma score_schema_well_formed current schema_id schema w :
  well_formed_schema schema_id schema →
  ∃ name,
    score_schema current schema w
    = (inr (mkScore schema_id name (negotiation_score current schema_id schema)), w).
Proof.
  intros (Hid & [name Hname] & [caps Hcaps] & [usage Husage] & [compat Hcompat]).
  exists name. unfold score_schema, getitem, negotiation_score,
    capabilities_count, usage_count_of, compatibility_count.
  rewrite Hcaps, Husage, Hcompat, Hid, Hname. run_M. simpl.
  do 2 f_equal. f_equal.
  destruct (String.eqb_spec schema_id DEFAULT_SCHEMA_ID);
    repeat case_bool_decide; try congruence; lia.
Qed.

Lemma stored_schemas_well_formed w entries :
  Forall (λ e, ∃ schema,
            schema_files w !! schema_path (schema_id e) = Some schema
            ∧ well_formed_schema (schema_id e) schema) entries →
  stored_schemas w entries = document_of w <$> entries.
Proof.
  induction 1 as [| e entries (schema & Hfile & Hid & _) _ IH]; [reflexivity |].
  simpl. unfold document_of at 1. rewrite Hfile, IH. simpl.
  rewrite bool_decide_false; [reflexivity |].
  intros Hempty%map_size_empty_iff. by rewrite Hempty in Hid.
Qed.

Lemma score_all_well_formed w entries :
  Forall (λ e, ∃ schema,
            schema_files w !! schema_path (schema_id e) = Some schema
            ∧ well_formed_schema (schema_id e) schema) entries →
  ∃ scores,
    score_all (current_primary w) (document_of w <$> entries) w = (inr scores, w)
    ∧ Forall2 (λ e s, score_schema_id s = schema_id e ∧ score s = entry_score w e)
              entries scores.
Proof.
  induction 1 as [| e entries (schema & Hfile & Hwf) _ (scores & Hscores & Hall)].
  - exists []. split; [reflexivity | constructor].
  - rewrite fmap_cons.
    assert (document_of w e = schema) as Hdoc
      by (unfold document_of; by rewrite Hfile).
    cbn [score_all]. run_M.
    destruct (score_schema_well_formed (current_primary w) _ _ w Hwf)
      as (name & Hone).
    rewrite Hdoc, Hone, Hscores.
    eexists. split; [reflexivity |].
    constructor; [| exact Hall]. simpl. split; [reflexivity |].
    unfold entry_score. by rewrite Hdoc.
Qed.


End Negotiation.

(** The example of the specification: [A] scores 2 and [B] scores 11. *)
Example example_scores :
  entry_score example_world <$> registered example_world = [2; 11].
Proof. vm_compute. reflexivity. Qed.

Example example_negotiation :
  ProtocolHarmonizer.primary_protocol_json
    (ProtocolHarmonizer._negotiate_primary_protocol (H := sample_clock)
       example_world).2
  = Some (ProtocolHarmonizer.mkPrimary "B" "2025-01-01T00:00:0"
            "Automatic negotiation: highest scoring protocol (11 points)"
            "ProtocolHarmonizer").
Proof. vm_compute. reflexivity. Qed.

Lemma schema_A_well_formed : well_formed_schema "A" schema_A.
Proof.
  split; [reflexivity |].
  split; [exists (JStr "Protocol A"); reflexivity |].
  split; [exists [JStr "chat"; JStr "files"]; reflexivity |].
  split; [exists 0 | exists []]; reflexivity.
Qed.

Lemma schema_B_well_formed : well_formed_schema "B" schema_B.
Proof.
  split; [reflexivity |].
  split; [exists (JStr "Protocol B"); reflexivity |].
  split; [exists [JStr "chat"]; reflexivity |].
  split; [exists 5 | exists []]; reflexivity.
Qed.

Lemma example_world_well_formed : well_formed_registry example_world.
Proof.
  apply Forall_cons_2; [| apply Forall_cons_2; [| constructor]].
  - exists schema_A. split; [reflexivity | exact schema_A_well_formed].
  - exists schema_B. split; [reflexivity | exact schema_B_well_formed].
Qed.


(** Witness of C8: a schema without ["capabilities"]. *)
Lemma register_protocol_missing_fields_witness :
  let schema := delete "capabilities" (submitted_schema "Mesh" "1.0" []) in
  let message :=
    "Schema missing required fields: " +:+ join ", " (missing_fields schema) in
  ProtocolHarmonizer.register_protocol (H := sample_clock) schema "ai_1" empty_world
  = (inr (false, message), empty_world)
  ∧ (∀ field, field ∈ ProtocolHarmonizer.required_fields → schema !! field = None →
       field ∈ missing_fields schema
       ∧ ∃ before after, message = before +:+ field +:+ after).
Proof.
  apply (register_protocol_missing_fields (H := sample_clock)
           (delete "capabilities" (submitted_schema "Mesh" "1.0" [])) "ai_1"
           empty_world).
  exists "capabilities". split; [| reflexivity].
  unfold ProtocolHarmonizer.required_fields. do 6 right. left.
Defined.

Example register_protocol_missing_message :
  (ProtocolHarmonizer.register_protocol (H := sample_clock)
     (delete "capabilities" (submitted_schema "Mesh" "1.0" [])) "ai_1" empty_world).1
  = inr (false, "Schema missing required fields: capabilities").
Proof. vm_compute. reflexivity. Qed.

Example register_protocol_first :
  (ProtocolHarmonizer.register_protocol (H := sample_clock)
     (submitted_schema "Mesh Net" "1.0" [JStr "chat"]) "ai_1" empty_world).1
  = inr (true, "Protocol schema mesh_net_1_0 registered successfully").
Proof. vm_compute. reflexivity. Qed.

Lemma run_result {A B} (x : A * B) (a : A) : x.1 = a → x = (a, x.2).
Proof. intros <-. by destruct x. Defined.

(** Witness of C9: a second schema of the same name and version. *)
Lemma register_protocol_duplicate_witness :
  let schema1 := submitted_schema "Mesh Net" "1.0" [JStr "chat"] in
  let schema2 := submitted_schema "Mesh Net" "1.0" [JStr "chat"; JStr "files"] in
  ∃ name version author,
    schema1 !! "name" = Some (JStr name)
    ∧ schema1 !! "version" = Some (JStr version)
    ∧ schema1 !! "author" = Some (JStr author)
    ∧ let schema_id := derived_schema_id name version in
      ProtocolHarmonizer.register_protocol (H := sample_clock) schema2 "ai_2"
        world_after_first
      = (inr (false, "Protocol schema with ID " +:+ schema_id +:+ " already exists"),
         world_after_first)
      ∧ filter (λ e, ProtocolHarmonizer.schema_id e = schema_id)
               (ProtocolHarmonizer.protocols
                  (default (ProtocolHarmonizer.mkRegistry [] None)
                     (ProtocolHarmonizer.registry_json world_after_first)))
        = [ProtocolHarmonizer.mkEntry schema_id name version author
             (ProtocolHarmonizer.schema_path schema_id)]
      ∧ ProtocolHarmonizer.schema_files world_after_first
          !! ProtocolHarmonizer.schema_path schema_id
        = Some (stored_schema schema_id
                  (isoformat_now (Clock := sample_clock)
                     (ProtocolHarmonizer.reads empty_world))
                  schema1).
Proof.
  apply (register_protocol_duplicate (H := sample_clock)
           (submitted_schema "Mesh Net" "1.0" [JStr "chat"])
           (submitted_schema "Mesh Net" "1.0" [JStr "chat"; JStr "files"])
           "ai_1" "ai_2" empty_world
           "Protocol schema mesh_net_1_0 registered successfully"
           world_after_first).
  - reflexivity.
  - reflexivity.
  - reflexivity.
  - reflexivity.
  - reflexivity.
  - unfold world_after_first.
    refine (run_result (ProtocolHarmonizer.register_protocol _ _ _) _ _).
    vm_compute. reflexivity.
Defined.

(** * Further properties *)

(** ** [EvolutionGoal]: progress updates and loading *)

Section GoalUpdates.
Context `{Clock}.
Implicit Types (g : EvolutionGoal.t) (p : Z) (n : nat).

(** X1.  Whatever the argument and the status, the progress stored by
    [update_progress] lies within 0..100: a negative argument is stored
    as 0, one above 100 as 100, any other as it is. *)
Theorem update_progress_range g p status n :
  let g' := (EvolutionGoal.update_progress g p status n).1 in
  0 ≤ EvolutionGoal.progress g' ≤ 100
  ∧ EvolutionGoal.progress g'
    = (if p <? 0 then 0 else if 100 <? p then 100 else p).
Proof.
  intros g'. unfold g'. rewrite update_progress_progress.
  destruct (Z.ltb_spec p 0), (Z.ltb_spec 100 p); lia.
Qed.

(** X2.  Without an explicit status a completed goal stays completed
    whatever progress is reported, also a progress below 100, which is
    stored; [completed_at] and [started_at] are not touched. *)
Theorem update_progress_completed_is_final g p n :
  EvolutionGoal.status g = "completed" →
  let g' := (EvolutionGoal.update_progress g p None n).1 in
  EvolutionGoal.status g' = "completed"
  ∧ EvolutionGoal.completed_at g' = EvolutionGoal.completed_at g
  ∧ EvolutionGoal.started_at g' = EvolutionGoal.started_at g
  ∧ EvolutionGoal.progress g' = Z.min 100 (Z.max 0 p).
Proof.
  intros Hdone g'. unfold g'.
  rewrite update_progress_status, update_progress_completed_at,
    update_progress_progress.
  simpl. rewrite Hdone. simpl. rewrite andb_false_r.
  split; [by destruct (p =? 100) |]. split; [by destruct (p =? 100) |].
  split; [| reflexivity].
  unfold EvolutionGoal.update_progress. run_clock. simpl.
  rewrite Hdone. simpl. rewrite !andb_false_r. reflexivity.
Qed.

(** X3.  [started_at] is stamped, with the second clock read of the
    call, exactly when the argument is positive and not 100, the status
    in force is ["pending"] and [started_at] is not yet set; in every
    other case it is left as it was.  In particular a pending goal set
    straight to 100 is completed without a [started_at]. *)
Theorem update_progress_started_at g p status n :
  EvolutionGoal.started_at (EvolutionGoal.update_progress g p status n).1
  = if negb (p =? 100) && (0 <? p)
       && String.eqb (status_in_force g status) "pending"
       && negb (truthy (EvolutionGoal.started_at g))
    then Some (isoformat_now (S n))
    else EvolutionGoal.started_at g.
Proof. update_cases status. Qed.

(** X4.  A progress argument of 0 or less, without an explicit status,
    changes neither the status nor [started_at] nor [completed_at]: the
    call only stores progress 0 and the time of the update. *)
Theorem update_progress_nonpositive g p n :
  p ≤ 0 →
  let g' := (EvolutionGoal.update_progress g p None n).1 in
  g' = EvolutionGoal.set_last_updated (isoformat_now n)
         (EvolutionGoal.set_progress 0 g)
  ∧ (EvolutionGoal.update_progress g p None n).2 = S n.
Proof.
  intros Hp g'. unfold g', EvolutionGoal.update_progress. run_clock. simpl.
  replace (p =? 100) with false by (symmetry; apply Z.eqb_neq; lia).
  replace (0 <? p) with false by (symmetry; apply Z.ltb_ge; lia).
  simpl. by replace (Z.min 100 (Z.max 0 p)) with 0 by lia.
Qed.

(** X5.  [update_progress] changes only the progress, the status and the
    three dates [started_at], [completed_at] and [last_updated]; the
    latter is always the time of the call. *)
Theorem update_progress_frame g p status n :
  let g' := (EvolutionGoal.update_progress g p status n).1 in
  EvolutionGoal.goal_id g' = EvolutionGoal.goal_id g
  ∧ EvolutionGoal.name g' = EvolutionGoal.name g
  ∧ EvolutionGoal.description g' = EvolutionGoal.description g
  ∧ EvolutionGoal.success_criteria g' = EvolutionGoal.success_criteria g
  ∧ EvolutionGoal.priority g' = EvolutionGoal.priority g
  ∧ EvolutionGoal.dependencies g' = EvolutionGoal.dependencies g
  ∧ EvolutionGoal.estimated_steps g' = EvolutionGoal.estimated_steps g
  ∧ EvolutionGoal.created_at g' = EvolutionGoal.created_at g
  ∧ EvolutionGoal.evolution_thread g' = EvolutionGoal.evolution_thread g
  ∧ EvolutionGoal.last_updated g' = isoformat_now n.
Proof. intros g'. unfold g'. repeat split; update_cases status. Qed.

(** X6.  [from_dict] always yields a priority within 1..10, and loading
    what [to_dict] wrote gives the goal back exactly when its priority
    is within 1..10, as the priority of every goal made by the
    constructor or by [from_dict] is. *)
Theorem from_dict_to_dict g :
  1 ≤ EvolutionGoal.priority (EvolutionGoal.from_dict g) ≤ 10
  ∧ (EvolutionGoal.from_dict (EvolutionGoal.to_dict g) = g
     ↔ 1 ≤ EvolutionGoal.priority g ≤ 10)
  ∧ EvolutionGoal.from_dict (EvolutionGoal.to_dict (EvolutionGoal.from_dict g))
    = EvolutionGoal.from_dict g.
Proof.
  unfold EvolutionGoal.from_dict, EvolutionGoal.to_dict,
    EvolutionGoal.set_priority.
  destruct g as [gid nm ds sc pr dp es st pg ca sa co lu et]. simpl.
  split; [lia |]. split.
  - split.
    + intros [= Hpr]. lia.
    + intros Hpr. f_equal. lia.
  - f_equal. lia.
Qed.

End GoalUpdates.

(** Witness of X2: a completed goal reported at 30. *)
Lemma update_progress_completed_is_final_witness :
  let g := sample_goal "g1" 5 [] "completed" 100 in
  let g' := (EvolutionGoal.update_progress (H := sample_clock) g 30 None 1%nat).1 in
  EvolutionGoal.status g' = "completed"
  ∧ EvolutionGoal.completed_at g' = EvolutionGoal.completed_at g
  ∧ EvolutionGoal.started_at g' = EvolutionGoal.started_at g
  ∧ EvolutionGoal.progress g' = Z.min 100 (Z.max 0 30).
Proof.
  apply (update_progress_completed_is_final (H := sample_clock)
           (sample_goal "g1" 5 [] "completed" 100) 30 1%nat).
  reflexivity.
Defined.

(** Witness of X4: progress -5 reported for a goal in progress. *)
Lemma update_progress_nonpositive_witness :
  let g := sample_goal "g1" 5 [] "in_progress" 40 in
  let g' := (EvolutionGoal.update_progress (H := sample_clock) g (-5) None 1%nat).1 in
  g' = EvolutionGoal.set_last_updated (isoformat_now (Clock := sample_clock) 1%nat)
         (EvolutionGoal.set_progress 0 g)
  ∧ (EvolutionGoal.update_progress (H := sample_clock) g (-5) None 1%nat).2 = 2%nat.
Proof.
  apply (update_progress_nonpositive (H := sample_clock)
           (sample_goal "g1" 5 [] "in_progress" 40) (-5) 1%nat).
  lia.
Defined.

(** ** [EvolutionThread]: goals and participants *)

Section ThreadOperations.
Context `{Clock}.
Implicit Types (g : EvolutionGoal.t) (th : EvolutionThread.t) (n : nat).

Lemma update_first_found gs gid p status n :
  (EvolutionThread.update_first gs gid p status n).1.1 = true
  ↔ Exists (λ g, EvolutionGoal.goal_id g = gid) gs.
Proof.
  induction gs as [| g gs IH]; simpl.
  - rewrite Exists_nil. split; [discriminate | done].
  - rewrite Exists_cons.
    destruct (String.eqb_spec (EvolutionGoal.goal_id g) gid) as [Hid | Hid].
    + run_clock. destruct (EvolutionGoal.update_progress g p status n).
      simpl. split; [by left | done].
    + run_clock.
      destruct (EvolutionThread.update_first gs gid p status n) as [[found gs'] n'].
      simpl in *. rewrite IH. split; [by right | by intros [? | ?]].
Qed.

(** X7.  [update_goal_progress] returns [True] exactly when some goal of
    the thread has the id; when it returns [False] the thread is
    unchanged and the clock has not been read. *)
Theorem update_goal_progress_found th gid p status n :
  let r := EvolutionThread.update_goal_progress th gid p status n in
  (r.1.1 = true ↔ ∃ g, g ∈ EvolutionThread.goals th ∧ EvolutionGoal.goal_id g = gid)
  ∧ (r.1.1 = false → r.1.2 = th ∧ r.2 = n).
Proof.
  intros r. unfold r, EvolutionThread.update_goal_progress. run_clock.
  pose proof (update_first_found (EvolutionThread.goals th) gid p status n) as Hfound.
  split.
  - destruct (EvolutionThread.update_first _ gid p status n) as [[found gs'] n'].
    simpl in *. rewrite Hfound, Exists_exists. reflexivity.
  - intros Hfalse.
    assert (Forall (λ g, EvolutionGoal.goal_id g ≠ gid) (EvolutionThread.goals th))
      as Habs.
    { apply Forall_forall. intros g Hin Hid.
      assert (Exists (λ g, EvolutionGoal.goal_id g = gid) (EvolutionThread.goals th))
        as Hex by (apply Exists_exists; eauto).
      apply Hfound in Hex.
      destruct (EvolutionThread.update_first _ gid p status n) as [[found gs'] n'].
      simpl in *. congruence. }
    rewrite update_first_absent by exact Habs. simpl. by destruct th.
Qed.

Lemma update_goal_progress_at th gid p status n i g :
  EvolutionThread.goals th !! i = Some g →
  EvolutionGoal.goal_id g = gid →
  Forall (λ g', EvolutionGoal.goal_id g' ≠ gid) (take i (EvolutionThread.goals th)) →
  EvolutionThread.update_goal_progress th gid p status n
  = ((true,
      EvolutionThread.set_goals
        (<[i := (EvolutionGoal.update_progress g p status n).1]>
           (EvolutionThread.goals th)) th),
     (EvolutionGoal.update_progress g p status n).2).
Proof.
  intros Hi Hid Hfirst. unfold EvolutionThread.update_goal_progress. run_clock.
  by rewrite (update_first_at _ _ _ _ _ i g Hi Hid).
Qed.

Lemma add_ai_participant_prefix th ai :
  ai ∈ EvolutionThread.ai_participants (EvolutionThread.add_ai_participant th ai)
  ∧ EvolutionThread.ai_participants th
      `prefix_of` EvolutionThread.ai_participants
                    (EvolutionThread.add_ai_participant th ai).
Proof.
  unfold EvolutionThread.add_ai_participant. case_bool_decide as Hin; simpl.
  - by split.
  - split; [apply elem_of_app; right; by left | by apply prefix_app_r].
Qed.

(** X8.  When several goals carry the id, [update_goal_progress] updates
    the first of them only: the goal at the first position [i] with the
    id is replaced by the result of [update_progress], every other goal
    and every other field of the thread stay as they were. *)
Theorem update_goal_progress_first th gid p status n i g :
  EvolutionThread.goals th !! i = Some g →
  EvolutionGoal.goal_id g = gid →
  (∀ j g', (j < i)%nat → EvolutionThread.goals th !! j = Some g' →
           EvolutionGoal.goal_id g' ≠ gid) →
  EvolutionThread.update_goal_progress th gid p status n
  = ((true,
      EvolutionThread.set_goals
        (<[i := (EvolutionGoal.update_progress g p status n).1]>
           (EvolutionThread.goals th)) th),
     (EvolutionGoal.update_progress g p status n).2).
Proof.
  intros Hi Hid Hfirst. apply update_goal_progress_at; [exact Hi | exact Hid |].
  apply Forall_forall. intros g' Hg'.
  apply list_elem_of_lookup in Hg' as [j Hj].
  apply lookup_take_Some in Hj as [Hj Hlt]. by eapply Hfirst.
Qed.

(** X9.  [add_ai_participant] leaves the id in the participant list,
    keeps the earlier participants in place as a prefix, adds no
    duplicate to a duplicate-free list, and applied twice has the effect
    of once. *)
Theorem add_ai_participant_set th ai :
  let th' := EvolutionThread.add_ai_participant th ai in
  ai ∈ EvolutionThread.ai_participants th'
  ∧ EvolutionThread.ai_participants th `prefix_of` EvolutionThread.ai_participants th'
  ∧ (NoDup (EvolutionThread.ai_participants th) →
     NoDup (EvolutionThread.ai_participants th'))
  ∧ EvolutionThread.add_ai_participant th' ai = th'.
Proof.
  intros th'. unfold th', EvolutionThread.add_ai_participant.
  case_bool_decide as Hin; simpl.
  - split; [exact Hin |]. split; [reflexivity |]. split; [done |].
    by rewrite bool_decide_true.
  - split; [apply elem_of_app; right; by left |].
    split; [by apply prefix_app_r |]. split.
    + intros Hnd. apply NoDup_app. split; [exact Hnd |].
      split; [| apply NoDup_singleton].
      intros x Hx Hx'. apply list_elem_of_singleton in Hx' as ->. done.
    + rewrite bool_decide_true; [reflexivity |].
      apply elem_of_app. right. by left.
Qed.

(** X10.  Every goal [get_next_goals] returns is a goal of the thread
    that is in progress or pending, never a completed or blocked one,
    and the goals returned all have the same status: work in progress
    and new work are never mixed. *)
Theorem get_next_goals_members th :
  let result := EvolutionThread.get_next_goals th in
  (∀ g, g ∈ result → g ∈ EvolutionThread.goals th)
  ∧ (Forall (λ g, EvolutionGoal.status g = "in_progress") result
     ∨ Forall (λ g, EvolutionGoal.status g = "pending") result).
Proof.
  intros result. unfold result.
  destruct (filter (λ g, EvolutionGoal.status g = "in_progress")
              (EvolutionThread.goals th)) as [| g0 rest] eqn:Hactive.
  - rewrite get_next_goals_no_in_progress by exact Hactive.
    split.
    + intros g Hin. by apply sorted_elem_of, list_elem_of_filter in Hin as [_ ?].
    + right. apply Forall_forall. intros g Hin.
      by apply sorted_elem_of, list_elem_of_filter in Hin as [[? _] _].
  - rewrite get_next_goals_some_in_progress by (rewrite Hactive; done).
    split.
    + intros g Hin. by apply sorted_elem_of, list_elem_of_filter in Hin as [_ ?].
    + left. apply Forall_forall. intros g Hin.
      by apply sorted_elem_of, list_elem_of_filter in Hin as [? _].
Qed.

End ThreadOperations.

(** Witness of X8: two goals with the id ["b"]; the first is updated. *)
Lemma update_goal_progress_first_witness :
  let g := sample_goal "b" 5 [] "pending" 0 in
  let th := sample_thread [sample_goal "a" 3 [] "pending" 0; g;
                           sample_goal "b" 7 [] "pending" 0] in
  EvolutionThread.update_goal_progress (H := sample_clock) th "b" 30 None 1%nat
  = ((true,
      EvolutionThread.set_goals
        (<[1%nat := (EvolutionGoal.update_progress (H := sample_clock) g 30 None
                       1%nat).1]>
           (EvolutionThread.goals th)) th),
     (EvolutionGoal.update_progress (H := sample_clock) g 30 None 1%nat).2).
Proof.
  apply (update_goal_progress_first (H := sample_clock)
           (sample_thread [sample_goal "a" 3 [] "pending" 0;
                           sample_goal "b" 5 [] "pending" 0;
                           sample_goal "b" 7 [] "pending" 0])
           "b" 30 None 1%nat 1%nat (sample_goal "b" 5 [] "pending" 0)).
  - reflexivity.
  - reflexivity.
  - intros j g' Hj Hg'. destruct j as [| j]; [| lia].
    injection Hg' as <-. discriminate.
Defined.

(** ** [SelfEvolvingThreads]: the stored threads *)

Section StoredThreads.
Context `{Clock} `{Md5}.
Implicit Types (g : EvolutionGoal.t) (th : EvolutionThread.t)
  (w : SelfEvolvingThreads.World) (n : nat).

Lemma for_each_invariant {A S : Type} (P : S → Prop) (body : A → S → Clocked S)
    (l : list A) s n :
  (∀ x s n, P s → P (body x s n).1) → P s → P (for_each body l s n).1.
Proof.
  intros Hbody. revert s n. induction l as [| x l IH]; intros s n Hs; [exact Hs |].
  simpl. run_clock. specialize (Hbody x s n Hs).
  destruct (body x s n) as [s' n']. by apply IH.
Qed.

Lemma set_goals_set_goals gs gs' th :
  EvolutionThread.set_goals gs' (EvolutionThread.set_goals gs th)
  = EvolutionThread.set_goals gs' th.
Proof. reflexivity. Qed.

(** The advance loops change nothing but the goals. *)
Lemma advance_goals_fields ids th n :
  ∃ gs, (SelfEvolvingThreads.advance_goals ids th n).1
        = EvolutionThread.set_goals gs th.
Proof.
  apply (for_each_invariant (λ th', ∃ gs, th' = EvolutionThread.set_goals gs th)).
  - intros gid th1 n1 Hth1. unfold SelfEvolvingThreads.advance_goal.
    apply (for_each_invariant (λ th', ∃ gs, th' = EvolutionThread.set_goals gs th));
      [| exact Hth1].
    intros j th2 n2 [gs ->]. unfold SelfEvolvingThreads.advance_at.
    destruct (_ !! j) as [g |]; [| eauto].
    destruct (String.eqb _ gid); [| eauto].
    unfold EvolutionThread.update_goal_progress. run_clock.
    destruct (EvolutionThread.update_first _ _ _ _ _) as [[found gs'] n'].
    simpl. eauto.
  - exists (EvolutionThread.goals th). by destruct th.
Qed.

(** X11.  [add_evolution_step] on a thread id without a stored thread
    returns [None] and leaves the store and the clock as they were. *)
Theorem add_evolution_step_missing w tid title description ids changes outcome ai :
  SelfEvolvingThreads.thread_files w !! tid = None →
  SelfEvolvingThreads.add_evolution_step tid title description ids changes outcome ai w
  = (None, w).
Proof.
  intros Hnone. unfold SelfEvolvingThreads.add_evolution_step,
    SelfEvolvingThreads.get_thread. run_clock. by rewrite Hnone.
Qed.

Lemma add_evolution_step_run w tid th title description ids changes outcome ai :
  SelfEvolvingThreads.thread_files w !! tid = Some th →
  let th0 := thread_with_step w tid th title description ids changes outcome ai in
  let advanced := SelfEvolvingThreads.advance_goals ids th0
                    (S (S (S (SelfEvolvingThreads.reads w)))) in
  SelfEvolvingThreads.add_evolution_step tid title description ids changes outcome ai w
  = (Some ("step_" +:+ String.substring 0 12
             (md5_hexdigest (title +:+ "_" +:+ tid +:+ "_"
                               +:+ isoformat_now (SelfEvolvingThreads.reads w)))),
     (SelfEvolvingThreads.update_thread advanced.1
        (SelfEvolvingThreads.mkWorld advanced.2
           (SelfEvolvingThreads.thread_files w)
           (SelfEvolvingThreads.active_threads_index w))).2).
Proof.
  intros Hth th0 advanced. unfold advanced, th0, thread_with_step.
  unfold SelfEvolvingThreads.add_evolution_step, SelfEvolvingThreads.get_thread.
  run_clock. rewrite Hth. simpl. unfold SelfEvolvingThreads.clocked. simpl.
  destruct (SelfEvolvingThreads.advance_goals ids _ _) as [th1 n1]. simpl.
  by destruct (SelfEvolvingThreads.update_thread th1 _).
Qed.

(** X12.  [add_evolution_step] on a stored thread returns the id of the
    new step, ["step_"] followed by the first 12 characters of a digest;
    the thread is written back with the step appended after the earlier
    steps, recording its title, the goals advanced and the participant,
    with [last_evolution] set and the participant among the thread's
    participants; the documents of other threads are not touched. *)
Theorem add_evolution_step_records w tid th title description ids changes outcome ai :
  SelfEvolvingThreads.thread_files w !! tid = Some th →
  EvolutionThread.thread_id th = tid →
  let r := SelfEvolvingThreads.add_evolution_step
             tid title description ids changes outcome ai w in
  let now0 := isoformat_now (SelfEvolvingThreads.reads w) in
  let step_id :=
    "step_" +:+ String.substring 0 12
      (md5_hexdigest (title +:+ "_" +:+ tid +:+ "_" +:+ now0)) in
  r.1 = Some step_id
  ∧ (∃ th',
       SelfEvolvingThreads.thread_files r.2 !! tid = Some th'
       ∧ EvolutionThread.steps th'
         = EvolutionThread.steps th
           ++ [EvolutionStep.mk step_id title description ids changes outcome [ai]
                 (isoformat_now (S (SelfEvolvingThreads.reads w))) (Some tid)]
       ∧ EvolutionThread.last_evolution th'
         = Some (isoformat_now (S (S (SelfEvolvingThreads.reads w))))
       ∧ ai ∈ EvolutionThread.ai_participants th'
       ∧ EvolutionThread.ai_participants th
           `prefix_of` EvolutionThread.ai_participants th'
       ∧ EvolutionThread.thread_id th' = tid
       ∧ EvolutionThread.status th' = EvolutionThread.status th)
  ∧ (∀ other, other ≠ tid →
       SelfEvolvingThreads.thread_files r.2 !! other
       = SelfEvolvingThreads.thread_files w !! other).
Proof.
  intros Hth Htid r now0 step_id. unfold r.
  rewrite (add_evolution_step_run w tid th) by exact Hth. simpl.
  set (th0 := thread_with_step w tid th title description ids changes outcome ai).
  destruct (advance_goals_fields ids th0 (S (S (S (SelfEvolvingThreads.reads w)))))
    as [gs Hfields].
  rewrite Hfields, update_thread_files. simpl.
  assert (EvolutionThread.thread_id th0 = tid) as Hid0
    by (unfold th0, thread_with_step; by rewrite add_ai_participant_thread_id).
  rewrite Hid0.
  assert (ai ∈ EvolutionThread.ai_participants th0
          ∧ EvolutionThread.ai_participants th
              `prefix_of` EvolutionThread.ai_participants th0) as [Hin Hprefix].
  { unfold th0, thread_with_step.
    match goal with
    | |- context [EvolutionThread.add_ai_participant ?t ai] =>
        destruct (add_ai_participant_prefix t ai) as (Hin & Hprefix)
    end.
    split; [exact Hin | exact Hprefix]. }
  split; [reflexivity |]. split.
  - exists (EvolutionThread.set_goals gs th0).
    split; [apply lookup_insert_eq |].
    split.
    { unfold th0, thread_with_step, EvolutionThread.add_ai_participant.
      case_bool_decide; simpl; by rewrite Htid. }
    split.
    { unfold th0, thread_with_step, EvolutionThread.add_ai_participant.
      by case_bool_decide. }
    split; [exact Hin |]. split; [exact Hprefix |]. split; [exact Hid0 |].
    unfold th0, thread_with_step, EvolutionThread.add_ai_participant.
    by case_bool_decide.
  - intros other Hother. by apply lookup_insert_ne.
Qed.

End StoredThreads.

(** Witness of X11: no thread is stored under ["thread_2"]. *)
Lemma add_evolution_step_missing_witness :
  SelfEvolvingThreads.add_evolution_step (H := sample_clock) (H0 := sample_md5)
    "thread_2" "step" "a step" ["g1"] [] "done" "ai_2" (sample_world 0)
  = (None, sample_world 0).
Proof.
  apply (add_evolution_step_missing (H := sample_clock) (H0 := sample_md5)).
  reflexivity.
Defined.

(** Witness of X12: a step on the stored thread of [sample_world]. *)
Lemma add_evolution_step_records_witness :
  let w := sample_world 0 in
  let th := sample_thread [sample_goal "g1" 5 [] "in_progress" 0] in
  let tid := "thread_1" in
  let r := SelfEvolvingThreads.add_evolution_step (H := sample_clock)
             (H0 := sample_md5) tid "step" "a step" ["g1"] [] "done" "ai_2" w in
  let now0 := isoformat_now (Clock := sample_clock) (SelfEvolvingThreads.reads w) in
  let step_id :=
    "step_" +:+ String.substring 0 12
      (md5_hexdigest (Md5 := sample_md5) ("step" +:+ "_" +:+ tid +:+ "_" +:+ now0)) in
  r.1 = Some step_id
  ∧ (∃ th',
       SelfEvolvingThreads.thread_files r.2 !! tid = Some th'
       ∧ EvolutionThread.steps th'
         = EvolutionThread.steps th
           ++ [EvolutionStep.mk step_id "step" "a step" ["g1"] [] "done" ["ai_2"]
                 (isoformat_now (Clock := sample_clock)
                    (S (SelfEvolvingThreads.reads w))) (Some tid)]
       ∧ EvolutionThread.last_evolution th'
         = Some (isoformat_now (Clock := sample_clock)
                   (S (S (SelfEvolvingThreads.reads w))))
       ∧ "ai_2" ∈ EvolutionThread.ai_participants th'
       ∧ EvolutionThread.ai_participants th
           `prefix_of` EvolutionThread.ai_participants th'
       ∧ EvolutionThread.thread_id th' = tid
       ∧ EvolutionThread.status th' = EvolutionThread.status th)
  ∧ (∀ other, other ≠ tid →
       SelfEvolvingThreads.thread_files r.2 !! other
       = SelfEvolvingThreads.thread_files w !! other).
Proof.
  apply (add_evolution_step_records (H := sample_clock) (H0 := sample_md5)
           (sample_world 0) "thread_1"
           (sample_thread [sample_goal "g1" 5 [] "in_progress" 0])).
  - reflexivity.
  - reflexivity.
Defined.

Section StoredThreadUpdates.
Context `{Clock} `{Md5}.
Implicit Types (g : EvolutionGoal.t) (th : EvolutionThread.t)
  (w : SelfEvolvingThreads.World) (n : nat).

(** X13.  The store-level [update_goal_progress] returns [False] and
    leaves the store and the clock as they were when the thread is not
    stored or none of its goals has the id. *)
Theorem update_goal_progress_unknown w tid gid p status :
  (SelfEvolvingThreads.thread_files w !! tid = None
   ∨ ∃ th, SelfEvolvingThreads.thread_files w !! tid = Some th
           ∧ Forall (λ g, EvolutionGoal.goal_id g ≠ gid) (EvolutionThread.goals th)) →
  SelfEvolvingThreads.update_goal_progress tid gid p status w = (false, w).
Proof.
  unfold SelfEvolvingThreads.update_goal_progress, SelfEvolvingThreads.get_thread.
  run_clock. intros [Hnone | (th & Hth & Habs)].
  - by rewrite Hnone.
  - rewrite Hth. simpl. unfold SelfEvolvingThreads.clocked,
      EvolutionThread.update_goal_progress. run_clock.
    rewrite update_first_absent.
    + simpl. by destruct w.
    + simpl. apply Forall_fmap. eapply Forall_impl; [exact Habs |]. done.
Qed.

(** X14.  When the stored thread has a goal with the id, the store-level
    [update_goal_progress] returns [True] and writes the thread back
    with the first such goal updated by [update_progress], at the time
    of the call; the other goals and the documents of other threads are
    as before. *)
Theorem update_goal_progress_stored w tid th gid p status i g :
  SelfEvolvingThreads.thread_files w !! tid = Some th →
  EvolutionThread.thread_id th = tid →
  EvolutionThread.goals th !! i = Some g →
  EvolutionGoal.goal_id g = gid →
  (∀ j g', (j < i)%nat → EvolutionThread.goals th !! j = Some g' →
           EvolutionGoal.goal_id g' ≠ gid) →
  let r := SelfEvolvingThreads.update_goal_progress tid gid p status w in
  let g1 := (EvolutionGoal.update_progress (EvolutionGoal.from_dict g) p status
               (SelfEvolvingThreads.reads w)).1 in
  r.1 = true
  ∧ SelfEvolvingThreads.thread_files r.2 !! tid
    = Some (EvolutionThread.set_goals
              (<[i := g1]> (EvolutionGoal.from_dict <$> EvolutionThread.goals th)) th)
  ∧ (∀ other, other ≠ tid →
       SelfEvolvingThreads.thread_files r.2 !! other
       = SelfEvolvingThreads.thread_files w !! other).
Proof.
  intros Hth Htid Hi Hid Hfirst r g1. unfold r, g1.
  unfold SelfEvolvingThreads.update_goal_progress, SelfEvolvingThreads.get_thread.
  run_clock. rewrite Hth. simpl. unfold SelfEvolvingThreads.clocked.
  rewrite (update_goal_progress_at (EvolutionThread.from_dict th) gid p status
             (SelfEvolvingThreads.reads w) i (EvolutionGoal.from_dict g)).
  - simpl.
    match goal with
    | |- context [SelfEvolvingThreads.update_thread ?t ?w0] =>
        pose proof (update_thread_files t w0) as Hfiles;
        destruct (SelfEvolvingThreads.update_thread t w0) as [b w1]
    end.
    simpl in *. rewrite Hfiles, Htid.
    split; [reflexivity |]. split.
    + rewrite lookup_insert_eq. by destruct th.
    + intros other Hother. by apply lookup_insert_ne.
  - simpl. by rewrite list_lookup_fmap, Hi.
  - exact Hid.
  - simpl. rewrite <- fmap_take. apply Forall_fmap, Forall_forall.
    intros g' Hg'. apply list_elem_of_lookup in Hg' as [j Hj].
    apply lookup_take_Some in Hj as [Hj Hlt]. simpl. by apply (Hfirst j g').
Qed.

(** X15.  After [update_thread], [get_thread] on the thread's id returns
    the thread as [from_dict] loads it, and the documents of other
    threads are as before. *)
Theorem update_thread_get_thread th w :
  let w' := (SelfEvolvingThreads.update_thread th w).2 in
  (SelfEvolvingThreads.update_thread th w).1 = true
  ∧ SelfEvolvingThreads.get_thread (EvolutionThread.thread_id th) w'
    = (Some (EvolutionThread.from_dict th), w')
  ∧ (∀ other, other ≠ EvolutionThread.thread_id th →
       SelfEvolvingThreads.get_thread other w'
       = ((SelfEvolvingThreads.get_thread other w).1, w')).
Proof.
  intros w'. split; [| split].
  - unfold SelfEvolvingThreads.update_thread. run_clock.
    unfold SelfEvolvingThreads.write_thread,
      SelfEvolvingThreads.load_active_threads_index,
      SelfEvolvingThreads.clocked, SelfEvolvingThreads.write_active_threads_index.
    simpl. by destruct (SelfEvolvingThreads.refresh_entry _ _ _).
  - unfold SelfEvolvingThreads.get_thread, w'.
    by rewrite update_thread_files, lookup_insert_eq.
  - intros other Hother. unfold SelfEvolvingThreads.get_thread, w'. simpl.
    by rewrite update_thread_files, lookup_insert_ne.
Qed.

Lemma refresh_entry_spec th stamp es :
  let r := SelfEvolvingThreads.refresh_entry th stamp es in
  r.1 = existsb (λ e, String.eqb (SelfEvolvingThreads.entry_thread_id e)
                        (EvolutionThread.thread_id th)) es
  ∧ SelfEvolvingThreads.entry_thread_id <$> r.2
    = SelfEvolvingThreads.entry_thread_id <$> es
  ∧ filter (λ e, SelfEvolvingThreads.entry_thread_id e ≠ EvolutionThread.thread_id th)
           r.2
    = filter (λ e, SelfEvolvingThreads.entry_thread_id e ≠ EvolutionThread.thread_id th)
             es
  ∧ (r.1 = true →
     ∃ e, e ∈ r.2
          ∧ SelfEvolvingThreads.entry_thread_id e = EvolutionThread.thread_id th
          ∧ SelfEvolvingThreads.entry_name e = EvolutionThread.name th
          ∧ SelfEvolvingThreads.entry_status e = EvolutionThread.status th
          ∧ SelfEvolvingThreads.entry_updated_at e = stamp).
Proof.
  induction es as [| e es IH]; simpl.
  - repeat split; discriminate.
  - destruct (String.eqb_spec (SelfEvolvingThreads.entry_thread_id e)
                (EvolutionThread.thread_id th)) as [Hid | Hid]; simpl.
    + split; [reflexivity |]. split; [reflexivity |]. split.
      * rewrite !filter_cons_False by (simpl; congruence). reflexivity.
      * intros _. eexists. split; [by left |]. simpl. done.
    + destruct (SelfEvolvingThreads.refresh_entry th stamp es) as [found es'].
      simpl in *. destruct IH as (Hfound & Hids & Hothers & Hentry).
      split; [exact Hfound |]. split; [f_equal; exact Hids |]. split.
      * rewrite !filter_cons_True by done. by rewrite Hothers.
      * intros Htrue. destruct (Hentry Htrue) as (e' & Hin & Hrest).
        exists e'. split; [by right | exact Hrest].
Qed.

(** X16.  [update_thread] leaves the index with an entry that carries
    the thread's id, name and status; the entries of other threads are
    as before, and an entry is added only when the thread had none, so
    the thread's entries are never multiplied. *)
Theorem update_thread_index th w :
  let old := SelfEvolvingThreads.threads
               (default (SelfEvolvingThreads.mkIndex [] "")
                  (SelfEvolvingThreads.active_threads_index w)) in
  let tid := EvolutionThread.thread_id th in
  ∃ index,
    SelfEvolvingThreads.active_threads_index (SelfEvolvingThreads.update_thread th w).2
    = Some index
    ∧ (∃ e, e ∈ SelfEvolvingThreads.threads index
            ∧ SelfEvolvingThreads.entry_thread_id e = tid
            ∧ SelfEvolvingThreads.entry_name e = EvolutionThread.name th
            ∧ SelfEvolvingThreads.entry_status e = EvolutionThread.status th)
    ∧ filter (λ e, SelfEvolvingThreads.entry_thread_id e ≠ tid)
             (SelfEvolvingThreads.threads index)
      = filter (λ e, SelfEvolvingThreads.entry_thread_id e ≠ tid) old
    ∧ length (SelfEvolvingThreads.threads index)
      = (if existsb (λ e, String.eqb (SelfEvolvingThreads.entry_thread_id e) tid) old
         then length old else S (length old)).
Proof.
  intros old tid. unfold SelfEvolvingThreads.update_thread. run_clock.
  unfold SelfEvolvingThreads.write_thread,
    SelfEvolvingThreads.load_active_threads_index,
    SelfEvolvingThreads.clocked, SelfEvolvingThreads.write_active_threads_index.
  simpl. fold old.
  destruct (refresh_entry_spec th (isoformat_now (SelfEvolvingThreads.reads w)) old)
    as (Hfound & Hids & Hothers & Hentry).
  destruct (SelfEvolvingThreads.refresh_entry th _ old) as [found es'].
  simpl in *. fold tid in Hfound, Hothers, Hentry. rewrite <- Hfound.
  eexists. split; [reflexivity |]. simpl.
  destruct found.
  - destruct (Hentry eq_refl) as (e & Hin & Hid & Hname & Hstatus & _).
    split; [by exists e |]. split; [exact Hothers |].
    by rewrite <- (length_fmap SelfEvolvingThreads.entry_thread_id), Hids, length_fmap.
  - split.
    { eexists. split; [apply elem_of_app; right; by left |]. done. }
    split.
    { rewrite filter_app, Hothers, filter_cons_False, filter_nil, app_nil_r; [done |].
      simpl. intros Hne. by apply Hne. }
    rewrite length_app. simpl.
    rewrite <- (length_fmap SelfEvolvingThreads.entry_thread_id es'), Hids, length_fmap.
    lia.
Qed.

End StoredThreadUpdates.

(** Witness of X13: the stored thread has no goal ["zz"]. *)
Lemma update_goal_progress_unknown_witness :
  SelfEvolvingThreads.update_goal_progress (H := sample_clock)
    "thread_1" "zz" 50 None (sample_world 0)
  = (false, sample_world 0).
Proof.
  apply (update_goal_progress_unknown (H := sample_clock)). right.
  exists (sample_thread [sample_goal "g1" 5 [] "in_progress" 0]).
  split; [reflexivity |]. by repeat constructor.
Defined.

(** Witness of X14: goal ["g1"] of the stored thread moves to 50. *)
Lemma update_goal_progress_stored_witness :
  let w := sample_world 0 in
  let g := sample_goal "g1" 5 [] "in_progress" 0 in
  let th := sample_thread [g] in
  let r := SelfEvolvingThreads.update_goal_progress (H := sample_clock)
             "thread_1" "g1" 50 None w in
  let g1 := (EvolutionGoal.update_progress (H := sample_clock)
               (EvolutionGoal.from_dict g) 50 None
               (SelfEvolvingThreads.reads w)).1 in
  r.1 = true
  ∧ SelfEvolvingThreads.thread_files r.2 !! "thread_1"
    = Some (EvolutionThread.set_goals
              (<[0%nat := g1]> (EvolutionGoal.from_dict <$> EvolutionThread.goals th))
              th)
  ∧ (∀ other, other ≠ "thread_1" →
       SelfEvolvingThreads.thread_files r.2 !! other
       = SelfEvolvingThreads.thread_files w !! other).
Proof.
  apply (update_goal_progress_stored (H := sample_clock) (sample_world 0) "thread_1"
           (sample_thread [sample_goal "g1" 5 [] "in_progress" 0]) "g1" 50 None
           0%nat (sample_goal "g1" 5 [] "in_progress" 0)).
  - reflexivity.
  - reflexivity.
  - reflexivity.
  - reflexivity.
  - intros j g' Hj. lia.
Defined.

(** ** [SelfEvolvingThreads._update_active_threads_index] *)

Section ActiveIndex.
Context `{Clock}.
Implicit Types (w : SelfEvolvingThreads.World) (es : list SelfEvolvingThreads.IndexEntry).

Lemma rename_entry_spec tid name stamp es :
  let r := SelfEvolvingThreads.rename_entry tid name stamp es in
  SelfEvolvingThreads.entry_thread_id <$> r.2
  = SelfEvolvingThreads.entry_thread_id <$> es
  ∧ SelfEvolvingThreads.entry_status <$> r.2
    = SelfEvolvingThreads.entry_status <$> es
  ∧ SelfEvolvingThreads.entry_created_at <$> r.2
    = SelfEvolvingThreads.entry_created_at <$> es
  ∧ filter (λ e, SelfEvolvingThreads.entry_thread_id e ≠ tid) r.2
    = filter (λ e, SelfEvolvingThreads.entry_thread_id e ≠ tid) es
  ∧ (existsb (λ e, String.eqb (SelfEvolvingThreads.entry_thread_id e) tid) es = true →
     ∃ e, e ∈ r.2
          ∧ SelfEvolvingThreads.entry_thread_id e = tid
          ∧ SelfEvolvingThreads.entry_name e = name
          ∧ SelfEvolvingThreads.entry_updated_at e = stamp).
Proof.
  induction es as [| e es IH]; simpl.
  - repeat split; discriminate.
  - destruct (String.eqb_spec (SelfEvolvingThreads.entry_thread_id e) tid)
      as [Hid | Hid]; simpl.
    + repeat split.
      * rewrite !filter_cons_False by (simpl; congruence). reflexivity.
      * intros _. eexists. split; [by left |]. simpl. done.
    + destruct (SelfEvolvingThreads.rename_entry tid name stamp es) as [found es'].
      simpl in *. destruct IH as (Hids & Hstatus & Hcreated & Hothers & Hentry).
      split; [f_equal; exact Hids |]. split; [f_equal; exact Hstatus |].
      split; [f_equal; exact Hcreated |]. split.
      * rewrite !filter_cons_True by done. by rewrite Hothers.
      * intros Htrue. destruct (Hentry Htrue) as (e' & Hin & Hrest).
        exists e'. split; [by right | exact Hrest].
Qed.

(** X17.  [_update_active_threads_index] returns [True], writes no
    thread document, and leaves an index with an entry of the given id
    and name.  When the id was in the index no entry is added and every
    entry keeps its status and creation time; otherwise one entry with
    status ["active"] is appended.  The entries of other threads are as
    before, and ids that were distinct stay distinct. *)
Theorem update_active_threads_index_entry tid name w :
  let old := SelfEvolvingThreads.threads
               (default (SelfEvolvingThreads.mkIndex [] "")
                  (SelfEvolvingThreads.active_threads_index w)) in
  let known := existsb (λ e, String.eqb (SelfEvolvingThreads.entry_thread_id e) tid)
                       old in
  let r := SelfEvolvingThreads._update_active_threads_index tid name w in
  r.1 = true
  ∧ SelfEvolvingThreads.thread_files r.2 = SelfEvolvingThreads.thread_files w
  ∧ ∃ index,
      SelfEvolvingThreads.active_threads_index r.2 = Some index
      ∧ (∃ e, e ∈ SelfEvolvingThreads.threads index
              ∧ SelfEvolvingThreads.entry_thread_id e = tid
              ∧ SelfEvolvingThreads.entry_name e = name)
      ∧ SelfEvolvingThreads.entry_thread_id <$> SelfEvolvingThreads.threads index
        = (SelfEvolvingThreads.entry_thread_id <$> old)
          ++ (if known then [] else [tid])
      ∧ SelfEvolvingThreads.entry_status <$> SelfEvolvingThreads.threads index
        = (SelfEvolvingThreads.entry_status <$> old)
          ++ (if known then [] else ["active"])
      ∧ filter (λ e, SelfEvolvingThreads.entry_thread_id e ≠ tid)
               (SelfEvolvingThreads.threads index)
        = filter (λ e, SelfEvolvingThreads.entry_thread_id e ≠ tid) old
      ∧ (NoDup (SelfEvolvingThreads.entry_thread_id <$> old) →
         NoDup (SelfEvolvingThreads.entry_thread_id
                  <$> SelfEvolvingThreads.threads index)).
Proof.
  intros old known r. unfold r, SelfEvolvingThreads._update_active_threads_index.
  run_clock.
  unfold SelfEvolvingThreads.load_active_threads_index,
    SelfEvolvingThreads.clocked, SelfEvolvingThreads.write_active_threads_index.
  simpl. fold old. fold known.
  destruct known eqn:Hknown; simpl.
  - destruct (rename_entry_spec tid name (isoformat_now (SelfEvolvingThreads.reads w))
                old) as (Hids & Hstatus & Hcreated & Hothers & Hentry).
    split; [reflexivity |]. split; [reflexivity |].
    eexists. split; [reflexivity |]. simpl.
    destruct (Hentry Hknown) as (e & Hin & Hid & Hname & _).
    split; [by exists e |].
    rewrite !app_nil_r, Hids.
    split; [reflexivity |]. split; [exact Hstatus |]. split; [exact Hothers | done].
  - split; [reflexivity |]. split; [reflexivity |].
    eexists. split; [reflexivity |]. simpl.
    split.
    { eexists. split; [apply elem_of_app; right; by left |]. done. }
    rewrite !fmap_app. simpl.
    split; [reflexivity |]. split; [reflexivity |]. split.
    { rewrite filter_app, filter_cons_False, filter_nil, app_nil_r; [done |].
      simpl. intros Hne. by apply Hne. }
    intros Hnodup. apply NoDup_app. split; [exact Hnodup |].
    split; [| apply NoDup_singleton].
    intros x Hx ->%list_elem_of_singleton.
    apply list_elem_of_fmap in Hx as (e & He & Hin).
    assert (known = true) as Htrue; [| congruence].
    apply existsb_exists. exists e.
    split; [by apply list_elem_of_In | by apply String.eqb_eq].
Qed.
End ActiveIndex.

Section CreateThread.
Context `{Clock} `{Md5}.
Implicit Types (g : EvolutionGoal.t) (th : EvolutionThread.t)
  (w : SelfEvolvingThreads.World) (n : nat) (d : EvolutionGoal.data).

Lemma create_goal_spec d th n :
  ∃ g,
    (SelfEvolvingThreads.create_goal d th n).1
    = EvolutionThread.set_goals (EvolutionThread.goals th ++ [g]) th
    ∧ created_from (EvolutionThread.thread_id th) d g.
Proof.
  unfold SelfEvolvingThreads.create_goal, EvolutionGoal.from_data. run_clock.
  destruct (EvolutionGoal.data_created_at d); simpl;
    (eexists; split; [reflexivity | by repeat split]).
Qed.

Lemma create_goals_spec (l : list EvolutionGoal.data) th n :
  ∃ gs,
    (for_each SelfEvolvingThreads.create_goal l th n).1
    = EvolutionThread.set_goals (EvolutionThread.goals th ++ gs) th
    ∧ Forall2 (created_from (EvolutionThread.thread_id th)) l gs.
Proof.
  revert th n. induction l as [| d l IH]; intros th n.
  - exists []. split; [| constructor]. simpl. rewrite app_nil_r. by destruct th.
  - simpl. run_clock.
    destruct (create_goal_spec d th n) as (g & Hone & Hg).
    destruct (SelfEvolvingThreads.create_goal d th n) as [th1 n1].
    simpl in Hone. subst th1.
    destruct (IH (EvolutionThread.set_goals (EvolutionThread.goals th ++ [g]) th) n1)
      as (gs & Hrun & Hall).
    rewrite Hrun. simpl in *.
    exists (g :: gs). split; [by rewrite <- app_assoc |].
    by constructor.
Qed.

(** The store after [create_thread]: the new thread document is added
    under the new id. *)
Lemma create_thread_files w name description creator strategy initial_goals
    repository :
  let r := SelfEvolvingThreads.create_thread name description creator strategy
             initial_goals repository w in
  let tid :=
    "thread_" +:+ String.substring 0 12
      (md5_hexdigest (name +:+ "_" +:+ creator +:+ "_"
                        +:+ isoformat_now (SelfEvolvingThreads.reads w))) in
  ∃ gs,
    r.1 = Some tid
    ∧ SelfEvolvingThreads.thread_files r.2
      = <[tid := EvolutionThread.mk tid name description creator strategy "active"
                   gs [] (isoformat_now (S (SelfEvolvingThreads.reads w))) None
                   [creator] repository]>
          (SelfEvolvingThreads.thread_files w)
    ∧ Forall2 (created_from tid) initial_goals gs.
Proof.
  intros r tid. unfold r, SelfEvolvingThreads.create_thread. run_clock.
  unfold SelfEvolvingThreads.clocked, EvolutionThread.init. run_clock. simpl.
  fold tid.
  match goal with
  | |- context [for_each SelfEvolvingThreads.create_goal initial_goals ?t ?m] =>
      destruct (create_goals_spec initial_goals t m) as (gs & Hrun & Hall);
      destruct (for_each SelfEvolvingThreads.create_goal initial_goals t m)
        as [th1 n1]
  end.
  simpl in Hrun, Hall. subst th1. simpl.
  unfold SelfEvolvingThreads.write_thread. simpl.
  match goal with
  | |- context [SelfEvolvingThreads._update_active_threads_index ?a ?b ?w0] =>
      assert (SelfEvolvingThreads.thread_files
                (SelfEvolvingThreads._update_active_threads_index a b w0).2
              = SelfEvolvingThreads.thread_files w0) as Hfiles;
      [| destruct (SelfEvolvingThreads._update_active_threads_index a b w0)
           as [b0 w1] ]
  end.
  { unfold SelfEvolvingThreads._update_active_threads_index. run_clock.
    unfold SelfEvolvingThreads.load_active_threads_index,
      SelfEvolvingThreads.clocked, SelfEvolvingThreads.write_active_threads_index.
    simpl. by destruct (existsb _ _). }
  simpl in *. rewrite Hfiles.
  exists gs. split; [reflexivity |]. split; [| exact Hall].
  unfold EvolutionThread.to_dict. simpl.
  by rewrite (list_fmap_id _ : EvolutionGoal.to_dict <$> _ = _).
Qed.

(** X18.  [create_thread] returns the id of the new thread, ["thread_"]
    followed by the first 12 characters of a digest, and stores under it
    an active thread without steps whose only participant is the
    creator and whose goals are the given dictionaries in order: each
    goal keeps a supplied id (or gets a generated one), belongs to the
    thread, has its priority clamped to 1..10 (5 when absent), and is
    pending at progress 0 without dependencies unless the dictionary
    says otherwise.  The documents of other threads are as before. *)
Theorem create_thread_stored w name description creator strategy initial_goals
    repository :
  let r := SelfEvolvingThreads.create_thread name description creator strategy
             initial_goals repository w in
  let tid :=
    "thread_" +:+ String.substring 0 12
      (md5_hexdigest (name +:+ "_" +:+ creator +:+ "_"
                        +:+ isoformat_now (SelfEvolvingThreads.reads w))) in
  r.1 = Some tid
  ∧ (∃ gs,
       SelfEvolvingThreads.thread_files r.2 !! tid
       = Some (EvolutionThread.mk tid name description creator strategy "active"
                 gs [] (isoformat_now (S (SelfEvolvingThreads.reads w))) None
                 [creator] repository)
       ∧ Forall2 (created_from tid) initial_goals gs)
  ∧ (∀ other, other ≠ tid →
       SelfEvolvingThreads.thread_files r.2 !! other
       = SelfEvolvingThreads.thread_files w !! other).
Proof.
  intros r tid.
  destruct (create_thread_files w name description creator strategy initial_goals
              repository) as (gs & Hid & Hfiles & Hall).
  fold r tid in Hid, Hfiles.
  split; [exact Hid |]. split.
  - exists gs. split; [| exact Hall]. rewrite Hfiles. apply lookup_insert_eq.
  - intros other Hother. rewrite Hfiles. by apply lookup_insert_ne.
Qed.

Lemma filter_all {A} (P : A → Prop) `{!∀ x, Decision (P x)} (l : list A) :
  Forall P l → filter P l = l.
Proof.
  induction 1 as [| x l Hx _ IH]; [reflexivity |].
  by rewrite filter_cons_True, IH.
Qed.

(** X19.  A thread created from goal dictionaries that give neither a
    status nor dependencies is ready to start as a whole: loaded back,
    [get_next_goals] returns every one of its goals, as many as there
    were dictionaries, in descending priority. *)
Theorem create_thread_ready w name description creator strategy initial_goals
    repository :
  Forall (λ d, EvolutionGoal.data_status d = None
               ∧ default [] (EvolutionGoal.data_dependencies d) = [])
         initial_goals →
  let r := SelfEvolvingThreads.create_thread name description creator strategy
             initial_goals repository w in
  ∃ tid th,
    r.1 = Some tid
    ∧ SelfEvolvingThreads.get_thread tid r.2 = (Some th, r.2)
    ∧ length (EvolutionThread.goals th) = length initial_goals
    ∧ EvolutionThread.get_next_goals th ≡ₚ EvolutionThread.goals th
    ∧ StronglySorted by_priority_desc (EvolutionThread.get_next_goals th).
Proof.
  intros Hplain r.
  destruct (create_thread_files w name description creator strategy initial_goals
              repository) as (gs & Hid & Hfiles & Hall).
  fold r in Hid, Hfiles.
  eexists _, _. split; [exact Hid |].
  split.
  { unfold SelfEvolvingThreads.get_thread. by rewrite Hfiles, lookup_insert_eq. }
  simpl. rewrite length_fmap.
  split; [symmetry; by eapply Forall2_length |].
  assert (Forall (λ g, EvolutionGoal.status g = "pending"
                       ∧ EvolutionGoal.dependencies g = [])
            (EvolutionGoal.from_dict <$> gs)) as Hfresh.
  { apply Forall_fmap. clear -Hplain Hall.
    induction Hall as [| d g l gs' Hg _ IH]; [constructor |].
    apply Forall_cons in Hplain as [[Hs Hd] Hplain].
    constructor; [| by apply IH].
    destruct Hg as (_ & _ & _ & _ & Hstatus & _ & Hdeps).
    simpl. rewrite Hstatus, Hs, Hdeps, Hd. done. }
  rewrite get_next_goals_no_in_progress.
  - simpl. rewrite (filter_all (eligible _)).
    + split; [apply sorted_Permutation |].
      apply (sorted_StronglySorted EvolutionGoal.priority true).
    + eapply Forall_impl; [exact Hfresh |]. intros g [Hs Hd].
      split; [exact Hs |]. rewrite Hd. constructor.
  - simpl. apply filter_none. eapply Forall_impl; [exact Hfresh |].
    intros g [Hs _]. rewrite Hs. discriminate.
Qed.

End CreateThread.

(** Witness of X19: a thread created from two plain goal
    dictionaries. *)
Lemma create_thread_ready_witness :
  let initial_goals := [sample_goal_data "a" 3; sample_goal_data "b" 7] in
  let r := SelfEvolvingThreads.create_thread (H := sample_clock) (H0 := sample_md5)
             "thread" "a thread" "ai_1" "incremental" initial_goals
             "sunheart-core" (sample_world 0) in
  ∃ tid th,
    r.1 = Some tid
    ∧ SelfEvolvingThreads.get_thread tid r.2 = (Some th, r.2)
    ∧ length (EvolutionThread.goals th) = length initial_goals
    ∧ EvolutionThread.get_next_goals th ≡ₚ EvolutionThread.goals th
    ∧ StronglySorted by_priority_desc (EvolutionThread.get_next_goals th).
Proof.
  apply (create_thread_ready (H := sample_clock) (H0 := sample_md5)).
  by repeat constructor.
Defined.

(** ** [ProtocolHarmonizer.register_protocol]: the store after a call *)

Section Registration.
Context `{Clock}.
Import ProtocolHarmonizer.
Implicit Types (schema : gmap string json) (w : World).

Lemma bind_run {A B} (m : M A) (f : A → M B) w a w1 :
  m w = (inr a, w1) → (m ≫= f) w = f a w1.
Proof. intros Hm. run_M. by rewrite Hm. Qed.



Lemma existsb_schema_id (entries : list RegistryEntry) (id : string) :
  existsb (λ e, String.eqb (schema_id e) id) entries = false
  ↔ Forall (λ e, schema_id e ≠ id) entries.
Proof.
  induction entries as [| e entries IH]; simpl.
  - split; [constructor | done].
  - rewrite orb_false_iff, IH, Forall_cons, String.eqb_neq. tauto.
Qed.


End Registration.



(** ** [set_primary_protocol] and the read accessors *)

Section PrimaryPointer.
Context `{Clock}.
Import ProtocolHarmonizer.
Implicit Types (schema : gmap string json) (w : World).

(** X22.  [set_primary_protocol] with an id that no registry entry
    carries returns [False] with the message that names the id, and
    writes nothing: neither the pointer nor the log changes and the
    clock is not read. *)
Theorem set_primary_protocol_unknown id reason decided_by w :
  Forall (λ e, schema_id e ≠ id) (registered w) →
  set_primary_protocol id reason decided_by w
  = (inr (false, "Protocol schema " +:+ id +:+ " not found in registry"), w).
Proof.
  intros Hfresh%existsb_schema_id.
  unfold set_primary_protocol, _load_registry. run_M.
  fold (registered w). by rewrite Hfresh.
Qed.

(** X23.  After [set_primary_protocol] with the id of a registry entry
    whose schema document is stored, [get_primary_protocol] returns that
    document with the time of the call, the reason and the deciding AI
    added, [list_protocols] flags exactly the entries of this id as
    primary, and [get_negotiation_log] returns the former log followed
    by one [primary_change] event. *)
Theorem set_primary_protocol_then_read id reason decided_by w e schema :
  e ∈ registered w →
  schema_id e = id →
  id ≠ "" →
  schema_files w !! schema_path id = Some schema →
  schema ≠ ∅ →
  ∃ w',
    set_primary_protocol id reason decided_by w
    = (inr (true, "Primary protocol set to " +:+ id), w')
    ∧ get_primary_protocol w'
      = (inr (Some (<["decided_by" := JStr decided_by]>
                      (<["primary_reason" := JStr reason]>
                         (<["primary_since" := JStr (isoformat_now (reads w))]>
                            schema)))), w')
    ∧ list_protocols w'
      = (inr ((λ e, (e, bool_decide (schema_id e = id))) <$> registered w), w')
    ∧ get_negotiation_log w'
      = (inr (default [] (negotiation_log_json w)
              ++ [mkEvent (isoformat_now (S (reads w))) "primary_change"
                    ("Primary protocol set to " +:+ id +:+ " by " +:+ decided_by
                       +:+ ": " +:+ reason)
                    decided_by]), w').
Proof.
  intros He Hid Hne Hdoc Hschema.
  eexists. split.
  { apply set_primary_protocol_run. fold (registered w).
    apply not_false_iff_true. intros Hno%existsb_schema_id.
    rewrite Forall_forall in Hno. by apply (Hno e). }
  split; [| split].
  - unfold get_primary_protocol, load_primary, load_schema. run_M. simpl.
    apply String.eqb_neq in Hne. rewrite Hne. cbn [schema_files]. rewrite Hdoc.
    rewrite bool_decide_false; [reflexivity |].
    by intros ->%map_size_empty_iff.
  - unfold list_protocols, _load_registry, load_primary. run_M. simpl.
    fold (registered w). f_equal. f_equal.
    apply list_fmap_ext. intros _ e' _. f_equal.
    apply bool_decide_ext. split; [by intros [= ->] | by intros ->].
  - reflexivity.
Qed.
End PrimaryPointer.

(** ** [_negotiate_primary_protocol]: what a run writes *)

Section NegotiationRuns.
Context `{Clock}.
Import ProtocolHarmonizer.
Implicit Types (schema : gmap string json) (w : World).

(** What a run writes: nothing, or the pointer and one log event. *)
Lemma negotiate_effect w :
  ∃ w',
    _negotiate_primary_protocol w = (inr tt, w')
    ∧ (w' = w
       ∨ ∃ id score,
           id ∈ schema_id <$> registered w
           ∧ Some id ≠ current_primary w
           ∧ w' = mkWorld (S (S (reads w))) (registry_json w) (schema_files w)
                    (Some (mkPrimary id (isoformat_now (reads w))
                             (negotiation_reason score) "ProtocolHarmonizer"))
                    (Some (default [] (negotiation_log_json w)
                           ++ [mkEvent (isoformat_now (S (reads w))) "primary_change"
                                 ("Primary protocol set to " +:+ id +:+ " by "
                                    +:+ "ProtocolHarmonizer" +:+ ": "
                                    +:+ negotiation_reason score)
                                 "ProtocolHarmonizer"]))).
Proof.
  unfold _negotiate_primary_protocol, try_except, negotiate.
  rewrite (bind_run _load_registry _ w _ w) by reflexivity.
  fold (registered w).
  destruct (length (registered w) <=? 1)%nat; [by exists w; split; [| left] |].
  rewrite (bind_run _ _ _ _ _ (load_schemas_run _ _)).
  rewrite (bind_run load_primary _ w _ w) by reflexivity.
  fold (current_primary w).
  set (schemas := stored_schemas w (registered w)).
  pose proof (score_all_frame (current_primary w) schemas w) as Hpure.
  unfold mbind at 1. unfold M_bind.
  destruct (score_all (current_primary w) schemas w) as [[e | scores] w0].
  { simpl in Hpure. subst w0. exists w. by split; [| left]. }
  simpl in Hpure. subst w0.
  destruct (sorted score true scores) as [| top rest].
  { exists w. by split; [| left]. }
  case_bool_decide as Hcur; simpl.
  { exists w. by split; [| left]. }
  destruct (existsb (λ e, String.eqb (schema_id e) (score_schema_id top))
              (registered w)) eqn:Hknown.
  - rewrite (bind_run _ _ _ _ _ (set_primary_protocol_run _ _ _ _ Hknown)).
    eexists. split; [reflexivity |]. right.
    exists (score_schema_id top), (score top).
    split; [| by split].
    apply existsb_exists in Hknown as (e & He & Heq%String.eqb_eq).
    apply list_elem_of_fmap. exists e. split; [by symmetry |].
    by apply list_elem_of_In.
  - assert (set_primary_protocol (score_schema_id top)
              (negotiation_reason (score top)) "ProtocolHarmonizer" w
            = (inr (false, "Protocol schema " +:+ score_schema_id top
                             +:+ " not found in registry"), w)) as Hset.
    { unfold set_primary_protocol.
      rewrite (bind_run _load_registry _ w _ w) by reflexivity.
      fold (registered w). by rewrite Hknown. }
    rewrite (bind_run _ _ _ _ _ Hset). exists w. by split; [| left].
Qed.

(** X24.  A run of [_negotiate_primary_protocol] never fails and never
    writes the registry or a schema document.  It is either without any
    effect (the clock is not read either) or it makes exactly the two
    writes of [set_primary_protocol]: the pointer now names a registered
    id that was not the primary before, decided by
    ["ProtocolHarmonizer"] at the first time read, and the log has one
    more [primary_change] event. *)
Theorem negotiate_primary_protocol_writes w :
  let r := _negotiate_primary_protocol w in
  r.1 = inr tt
  ∧ registry_json r.2 = registry_json w
  ∧ schema_files r.2 = schema_files w
  ∧ (r.2 = w
     ∨ ∃ id score,
         id ∈ schema_id <$> registered w
         ∧ Some id ≠ current_primary w
         ∧ reads r.2 = S (S (reads w))
         ∧ primary_protocol_json r.2
           = Some (mkPrimary id (isoformat_now (reads w))
                     (negotiation_reason score) "ProtocolHarmonizer")
         ∧ negotiation_log_json r.2
           = Some (default [] (negotiation_log_json w)
                   ++ [mkEvent (isoformat_now (S (reads w))) "primary_change"
                         ("Primary protocol set to " +:+ id +:+ " by "
                            +:+ "ProtocolHarmonizer" +:+ ": "
                            +:+ negotiation_reason score)
                         "ProtocolHarmonizer"])).
Proof.
  destruct (negotiate_effect w) as (w' & Hrun & [-> | (id & score & Hin & Hne & ->)]);
    simpl; rewrite Hrun; simpl.
  - split; [reflexivity |]. split; [reflexivity |]. split; [reflexivity | by left].
  - split; [reflexivity |]. split; [reflexivity |]. split; [reflexivity |].
    right. by exists id, score.
Qed.
End NegotiationRuns.

(** Witness of X22: no entry of the example registry has the id
    ["C"]. *)
Lemma set_primary_protocol_unknown_witness :
  ProtocolHarmonizer.set_primary_protocol (H := sample_clock) "C" "by hand" "ai_1"
    example_world
  = (inr (false, "Protocol schema " +:+ "C" +:+ " not found in registry"),
     example_world).
Proof.
  apply (set_primary_protocol_unknown (H := sample_clock)).
  by repeat constructor.
Defined.

Lemma schema_B_not_empty : schema_B ≠ ∅.
Proof.
  intros Hempty.
  by apply (f_equal (λ m : gmap string json, m !! "name")) in Hempty.
Qed.

(** Witness of X23: [B] is made primary by hand in the example
    store. *)
Lemma set_primary_protocol_then_read_witness :
  let w := example_world in
  ∃ w',
    ProtocolHarmonizer.set_primary_protocol (H := sample_clock) "B" "by hand" "ai_1" w
    = (inr (true, "Primary protocol set to " +:+ "B"), w')
    ∧ ProtocolHarmonizer.get_primary_protocol w'
      = (inr (Some (<["decided_by" := JStr "ai_1"]>
                      (<["primary_reason" := JStr "by hand"]>
                         (<["primary_since"
                            := JStr (isoformat_now (Clock := sample_clock)
                                       (ProtocolHarmonizer.reads w))]>
                            schema_B)))), w')
    ∧ ProtocolHarmonizer.list_protocols w'
      = (inr ((λ e, (e, bool_decide (ProtocolHarmonizer.schema_id e = "B")))
                <$> registered w), w')
    ∧ ProtocolHarmonizer.get_negotiation_log w'
      = (inr (default [] (ProtocolHarmonizer.negotiation_log_json w)
              ++ [ProtocolHarmonizer.mkEvent
                    (isoformat_now (Clock := sample_clock)
                       (S (ProtocolHarmonizer.reads w)))
                    "primary_change"
                    ("Primary protocol set to " +:+ "B" +:+ " by " +:+ "ai_1"
                       +:+ ": " +:+ "by hand")
                    "ai_1"]), w').
Proof.
  apply (set_primary_protocol_then_read (H := sample_clock) "B" "by hand" "ai_1"
           example_world
           (ProtocolHarmonizer.mkEntry "B" "Protocol B" "1.0" "ai_2"
              (ProtocolHarmonizer.schema_path "B"))
           schema_B).
  - right. left.
  - reflexivity.
  - discriminate.
  - reflexivity.
  - exact schema_B_not_empty.
Defined.

(** ** [_negotiate_primary_protocol]: a second run changes nothing *)

Section NegotiationStable.
Context `{Clock}.
Import ProtocolHarmonizer.
Implicit Types (schema : gmap string json) (w : World).

Lemma negotiate_short w :
  (length (registered w) ≤ 1)%nat → _negotiate_primary_protocol w = (inr tt, w).
Proof.
  intros Hle. unfold _negotiate_primary_protocol, negotiate, _load_registry.
  run_M. fold (registered w).
  by rewrite (proj2 (Nat.leb_le _ _) Hle).
Qed.

(** The run on a registry of two or more entries, each with its schema
    document: the first entry of highest score is compared with the
    current primary. *)
Lemma negotiate_run w :
  (2 ≤ length (registered w))%nat →
  well_formed_registry w →
  ∃ earlier winner later,
    registered w = earlier ++ winner :: later
    ∧ Forall (λ e, entry_score w e < entry_score w winner) earlier
    ∧ Forall (λ e, entry_score w e ≤ entry_score w winner) later
    ∧ _negotiate_primary_protocol w
      = if bool_decide (Some (schema_id winner) = current_primary w)
        then (inr tt, w)
        else (inr tt,
              mkWorld (S (S (reads w))) (registry_json w) (schema_files w)
                (Some (mkPrimary (schema_id winner) (isoformat_now (reads w))
                         (negotiation_reason (entry_score w winner))
                         "ProtocolHarmonizer"))
                (Some (default [] (negotiation_log_json w)
                       ++ [mkEvent (isoformat_now (S (reads w))) "primary_change"
                             ("Primary protocol set to " +:+ schema_id winner
                                +:+ " by " +:+ "ProtocolHarmonizer" +:+ ": "
                                +:+ negotiation_reason (entry_score w winner))
                             "ProtocolHarmonizer"]))).
Proof.
  intros Hge Hwf.
  destruct (score_all_well_formed w (registered w) Hwf) as (scores & Hscores & Hall).
  destruct (sorted_head score true scores)
    as (l1 & top & l2 & rest & Hsplit & Hsorted & Hl1 & Hl2).
  { intros ->. apply Forall2_nil_inv_r in Hall. rewrite Hall in Hge.
    simpl in Hge. lia. }
  rewrite Hsplit in Hall.
  apply Forall2_app_inv_r in Hall as (earlier & tail & Hbefore & Htail & Hreg).
  apply Forall2_cons_inv_r in Htail
    as (winner & later & [Hwid Hwscore] & Hafter & ->).
  exists earlier, winner, later.
  split; [exact Hreg |].
  split.
  { clear -Hbefore Hl1 Hwscore.
    induction Hbefore as [| e s es ss [_ Hs] _ IH]; [constructor |].
    apply Forall_cons in Hl1 as [Hlt Hl1].
    constructor; [| by apply IH].
    unfold before in Hlt. lia. }
  split.
  { clear -Hafter Hl2 Hwscore.
    induction Hafter as [| e s es ss [_ Hs] _ IH]; [constructor |].
    apply Forall_cons in Hl2 as [Hle Hl2].
    constructor; [| by apply IH].
    unfold ordered in Hle. lia. }
  unfold _negotiate_primary_protocol, try_except, negotiate.
  rewrite (bind_run _load_registry _ w _ w) by reflexivity.
  fold (registered w).
  rewrite (proj2 (Nat.leb_gt _ _)) by lia.
  rewrite (bind_run _ _ _ _ _ (load_schemas_run _ _)).
  rewrite (stored_schemas_well_formed _ _ Hwf).
  rewrite (bind_run load_primary _ w _ w) by reflexivity.
  fold (current_primary w).
  rewrite (bind_run _ _ _ _ _ Hscores), Hsorted, Hwid, Hwscore.
  case_bool_decide; [reflexivity |]. simpl.
  assert (existsb (λ e, String.eqb (schema_id e) (schema_id winner)) (registered w)
          = true) as Hknown.
  { rewrite Hreg, existsb_app. simpl. by rewrite String.eqb_refl, orb_true_r. }
  by rewrite (bind_run _ _ _ _ _ (set_primary_protocol_run _ _ _ _ Hknown)).
Qed.

(** Two splits of one list around an element each. *)
Lemma app_cons_cases {A} (l1 l2 l1' l2' : list A) (a b : A) :
  l1 ++ a :: l2 = l1' ++ b :: l2' →
  (b ∈ l1 ∧ a ∈ l2') ∨ a = b ∨ (b ∈ l2 ∧ a ∈ l1').
Proof.
  revert l1'. induction l1 as [| x l1 IH]; intros [| y l1'] Heq;
    simpl in Heq; injection Heq as -> Heq.
  - by right; left.
  - right; right. subst l2. split; [| by left].
    apply elem_of_app. right. by left.
  - left. subst l2'. split; [by left |].
    apply elem_of_app. right. by left.
  - destruct (IH _ Heq) as [[? ?] | [? | [? ?]]].
    + left. split; [by right | done].
    + by right; left.
    + right; right. split; [done | by right].
Qed.

(** X25.  On a registry whose entries all have their schema documents,
    a run of [_negotiate_primary_protocol] that directly follows another
    one writes nothing: the entry the first run made primary wins the
    second one too. *)
Theorem negotiate_primary_protocol_idempotent w :
  well_formed_registry w →
  let w1 := (_negotiate_primary_protocol w).2 in
  _negotiate_primary_protocol w1 = (inr tt, w1).
Proof.
  intros Hwf.
  destruct (le_lt_dec (length (registered w)) 1) as [Hshort | Hlong].
  { simpl. rewrite (negotiate_short w Hshort). simpl. by apply negotiate_short. }
  destruct (negotiate_run w) as (earlier & winner & later & Hreg & Hlt & Hle & Hrun);
    [lia | exact Hwf |].
  simpl. rewrite Hrun.
  destruct (decide (Some (schema_id winner) = current_primary w)) as [Hcur | Hcur].
  { rewrite bool_decide_true in * by done. simpl. exact Hrun. }
  rewrite bool_decide_false by done. simpl. clear Hrun.
  set (w1 := mkWorld _ _ _ _ _).
  assert (registered w1 = registered w) as Hsame by reflexivity.
  assert (well_formed_registry w1) as Hwf1 by exact Hwf.
  destruct (negotiate_run w1)
    as (earlier' & winner' & later' & Hreg' & Hlt' & Hle' & Hrun');
    [rewrite Hsame; lia | exact Hwf1 |].
  rewrite Hrun'. rewrite bool_decide_true; [reflexivity |].
  change (current_primary w1) with (Some (schema_id winner)).
  f_equal.
  destruct (decide (schema_id winner' = schema_id winner)) as [| Hne]; [done |].
  exfalso.
  assert (entry_score w1 winner = entry_score w winner + 10) as Hwinner.
  { unfold entry_score, negotiation_score.
    change (current_primary w1) with (Some (schema_id winner)).
    change (document_of w1 winner) with (document_of w winner).
    rewrite (bool_decide_true (Some (schema_id winner) = Some (schema_id winner)))
      by done.
    rewrite (bool_decide_false (Some (schema_id winner) = current_primary w))
      by done.
    lia. }
  assert (entry_score w1 winner' ≤ entry_score w winner') as Hother.
  { unfold entry_score, negotiation_score.
    change (current_primary w1) with (Some (schema_id winner)).
    change (document_of w1 winner') with (document_of w winner').
    rewrite (bool_decide_false (Some (schema_id winner') = Some (schema_id winner)))
      by (by intros [=]).
    repeat case_bool_decide; lia. }
  rewrite Hsame, Hreg in Hreg'.
  rewrite Forall_forall in Hlt, Hle, Hlt', Hle'.
  destruct (app_cons_cases _ _ _ _ _ _ Hreg') as [[Hin Hin'] | [-> | [Hin Hin']]].
  - specialize (Hlt _ Hin). specialize (Hle' _ Hin'). lia.
  - done.
  - specialize (Hle _ Hin). specialize (Hlt' _ Hin'). lia.
Qed.
End NegotiationStable.

(** Witness of X25: the example store, where the first run makes [B]
    primary. *)
Lemma negotiate_primary_protocol_idempotent_witness :
  let w1 := (ProtocolHarmonizer._negotiate_primary_protocol (H := sample_clock)
               example_world).2 in
  ProtocolHarmonizer._negotiate_primary_protocol (H := sample_clock) w1 = (inr tt, w1).
Proof.
  apply (negotiate_primary_protocol_idempotent (H := sample_clock) example_world).
  exact example_world_well_formed.
Defined.

(** ** [report_protocol_usage] *)

Section Usage.
Context `{Clock}.
Import ProtocolHarmonizer.
Implicit Types (schema : gmap string json) (w : World).

Lemma length_append (a s : string) :
  String.length (a +:+ s) = (String.length a + String.length s)%nat.
Proof.
  induction a as [| c a IH]; [reflexivity |].
  rewrite append_cons. simpl. by rewrite IH.
Qed.

Lemma append_inj_r (s a b : string) : a +:+ s = b +:+ s → a = b.
Proof.
  revert b. induction a as [| c a IH]; intros [| c' b] Heq.
  - reflexivity.
  - change ("" +:+ s) with s in Heq. rewrite append_cons in Heq.
    apply (f_equal String.length) in Heq.
    simpl in Heq. rewrite length_append in Heq. lia.
  - change ("" +:+ s) with s in Heq. rewrite append_cons in Heq.
    apply (f_equal String.length) in Heq.
    simpl in Heq. rewrite length_append in Heq. lia.
  - rewrite !append_cons in Heq. injection Heq as -> Heq. f_equal. by apply IH.
Qed.

(** Different ids have different schema paths. *)
Lemma schema_path_inj (a b : string) : schema_path a = schema_path b → a = b.
Proof.
  unfold schema_path. intros Heq.
  apply (inj (String.append PROTOCOL_SCHEMAS_PATH)) in Heq.
  apply (inj (String.append "/")) in Heq.
  by apply append_inj_r in Heq.
Qed.

(** The run of [report_usage] on a stored, non-empty document whose
    usage count is an integer or absent. *)
Lemma report_usage_run id using_ai w schema n :
  schema_files w !! schema_path id = Some schema →
  schema ≠ ∅ →
  default (JNum 0) (schema !! "usage_count") = JNum n →
  report_protocol_usage id using_ai w
  = (inr true,
     mkWorld (S (reads w)) (registry_json w)
       (<[schema_path id
          := <["last_used_by" := JStr using_ai]>
               (<["last_used" := JStr (isoformat_now (reads w))]>
                  (<["usage_count" := JNum (n + 1)]> schema))]> (schema_files w))
       (primary_protocol_json w) (negotiation_log_json w)).
Proof.
  intros Hdoc Hne Hcount.
  unfold report_protocol_usage, try_except, report_usage.
  rewrite (bind_run (load_schema _) _ w _ w) by reflexivity.
  rewrite Hdoc, bool_decide_false by (by intros ->%map_size_empty_iff).
  rewrite Hcount. reflexivity.
Qed.

(** X26.  [report_protocol_usage] never raises, never touches the
    registry, the primary pointer, the negotiation log or the schema
    document of another path, and a result of [False] means that nothing
    at all was written and the clock was not read. *)
Theorem report_protocol_usage_frame id using_ai w :
  let run := report_protocol_usage id using_ai w in
  ∃ ok,
    run.1 = inr ok
    ∧ registry_json run.2 = registry_json w
    ∧ primary_protocol_json run.2 = primary_protocol_json w
    ∧ negotiation_log_json run.2 = negotiation_log_json w
    ∧ (∀ path, path ≠ schema_path id →
               schema_files run.2 !! path = schema_files w !! path)
    ∧ (ok = false → run.2 = w).
Proof.
  unfold report_protocol_usage, try_except, report_usage.
  rewrite (bind_run (load_schema _) _ w _ w) by reflexivity.
  destruct (schema_files w !! schema_path id) as [schema |];
    [| by exists false].
  case_bool_decide; [by exists false |].
  destruct (default (JNum 0) (schema !! "usage_count")) as [| b | n | | |];
    try (by exists false).
  - exists true. simpl. repeat split; try done.
    intros path Hpath. by rewrite lookup_insert_ne.
  - exists true. simpl. repeat split; try done.
    intros path Hpath. by rewrite lookup_insert_ne.
Qed.

(** X27.  A report on a stored, non-empty schema document whose usage
    count is an integer, or absent, returns [True]; the document stored
    afterwards counts one use more, names the reporting AI and the time
    of the report, and agrees with the former one on every other key. *)
Theorem report_protocol_usage_counts id using_ai w schema n :
  schema_files w !! schema_path id = Some schema →
  schema ≠ ∅ →
  default (JNum 0) (schema !! "usage_count") = JNum n →
  ∃ w' schema',
    report_protocol_usage id using_ai w = (inr true, w')
    ∧ reads w' = S (reads w)
    ∧ schema_files w' !! schema_path id = Some schema'
    ∧ schema' !! "usage_count" = Some (JNum (n + 1))
    ∧ schema' !! "last_used" = Some (JStr (isoformat_now (reads w)))
    ∧ schema' !! "last_used_by" = Some (JStr using_ai)
    ∧ ∀ key, key ≠ "usage_count" → key ≠ "last_used" → key ≠ "last_used_by" →
             schema' !! key = schema !! key.
Proof.
  intros Hdoc Hne Hcount.
  eexists _, _. split; [by apply report_usage_run |].
  split; [reflexivity |]. simpl.
  split; [by rewrite lookup_insert_eq |].
  split; [by rewrite !lookup_insert_ne, lookup_insert_eq by done |].
  split; [by rewrite lookup_insert_ne, lookup_insert_eq by done |].
  split; [by rewrite lookup_insert_eq |].
  intros key ? ? ?. by rewrite !lookup_insert_ne by done.
Qed.

(** X28.  On a registry whose entries all have their schema documents,
    a usage report for a registered protocol raises the negotiation
    score of the entries of this id by 2 and leaves every other score as
    it was; the registry stays well formed, and the primary pointer is
    not moved by the report, whatever the scores are now. *)
Theorem report_protocol_usage_score using_ai w e :
  well_formed_registry w →
  e ∈ registered w →
  ∃ w',
    report_protocol_usage (schema_id e) using_ai w = (inr true, w')
    ∧ well_formed_registry w'
    ∧ registered w' = registered w
    ∧ primary_protocol_json w' = primary_protocol_json w
    ∧ ∀ e', e' ∈ registered w →
            entry_score w' e'
            = entry_score w e'
              + (if bool_decide (schema_id e' = schema_id e) then 2 else 0).
Proof.
  intros Hwf He.
  unfold well_formed_registry in Hwf. rewrite Forall_forall in Hwf.
  destruct (Hwf e He) as (schema & Hdoc & Hid & Hname & Hcaps & [n Hn] & Hcompat).
  assert (schema ≠ ∅) as Hne.
  { intros ->. rewrite lookup_empty in Hname. by destruct Hname. }
  eexists. split; [by eapply report_usage_run |].
  set (schema' := <["last_used_by" := _]> _).
  assert (∀ key, key ≠ "usage_count" → key ≠ "last_used" → key ≠ "last_used_by" →
                 schema' !! key = schema !! key) as Hkeep.
  { intros key ? ? ?. unfold schema'. by rewrite !lookup_insert_ne by done. }
  assert (schema' !! "usage_count" = Some (JNum (n + 1))) as Hcount.
  { unfold schema'. by rewrite !lookup_insert_ne, lookup_insert_eq by done. }
  split; [| split; [reflexivity | split; [reflexivity |]]].
  - unfold well_formed_registry. rewrite Forall_forall.
    intros e' He'. change (e' ∈ registered w) in He'. simpl.
    destruct (decide (schema_id e' = schema_id e)) as [Heq | Hneq].
    + exists schema'. rewrite Heq, lookup_insert_eq.
      split; [reflexivity |].
      unfold well_formed_schema.
      rewrite (Hkeep "schema_id"), (Hkeep "name"), (Hkeep "capabilities"),
        (Hkeep "compatibility"), Hcount by done.
      repeat split; try done. by exists (n + 1).
    + rewrite lookup_insert_ne by (by intros ?%schema_path_inj).
      exact (Hwf e' He').
  - intros e' He'. unfold entry_score, document_of. simpl.
    change (current_primary (mkWorld _ _ _ _ _)) with (current_primary w).
    destruct (decide (schema_id e' = schema_id e)) as [Heq | Hneq].
    + rewrite (bool_decide_true _ Heq), Heq, lookup_insert_eq, Hdoc. simpl.
      unfold negotiation_score, capabilities_count, usage_count_of,
        compatibility_count.
      rewrite (Hkeep "capabilities"), (Hkeep "compatibility"), Hcount, Hn by done.
      simpl. lia.
    + rewrite (bool_decide_false _ Hneq).
      rewrite lookup_insert_ne by (by intros ?%schema_path_inj). lia.
Qed.
End Usage.

(** Witness of X27: a sixth use of [B]. *)
Lemma report_protocol_usage_counts_witness :
  let w := example_world in
  ∃ w' schema',
    ProtocolHarmonizer.report_protocol_usage (H := sample_clock) "B" "ai_1" w
    = (inr true, w')
    ∧ ProtocolHarmonizer.reads w' = S (ProtocolHarmonizer.reads w)
    ∧ ProtocolHarmonizer.schema_files w' !! ProtocolHarmonizer.schema_path "B"
      = Some schema'
    ∧ schema' !! "usage_count" = Some (JNum (5 + 1))
    ∧ schema' !! "last_used"
      = Some (JStr (isoformat_now (Clock := sample_clock)
                      (ProtocolHarmonizer.reads w)))
    ∧ schema' !! "last_used_by" = Some (JStr "ai_1")
    ∧ ∀ key, key ≠ "usage_count" → key ≠ "last_used" → key ≠ "last_used_by" →
             schema' !! key = schema_B !! key.
Proof.
  apply (report_protocol_usage_counts (H := sample_clock) "B" "ai_1" example_world
           schema_B 5).
  - reflexivity.
  - exact schema_B_not_empty.
  - reflexivity.
Defined.

(** Witness of X28: a use of [A] in the example store. *)
Lemma report_protocol_usage_score_witness :
  let w := example_world in
  let e := ProtocolHarmonizer.mkEntry "A" "Protocol A" "1.0" "ai_1"
             (ProtocolHarmonizer.schema_path "A") in
  ∃ w',
    ProtocolHarmonizer.report_protocol_usage (H := sample_clock)
      (ProtocolHarmonizer.schema_id e) "ai_2" w
    = (inr true, w')
    ∧ well_formed_registry w'
    ∧ registered w' = registered w
    ∧ ProtocolHarmonizer.primary_protocol_json w'
      = ProtocolHarmonizer.primary_protocol_json w
    ∧ ∀ e', e' ∈ registered w →
            entry_score w' e'
            = entry_score w e'
              + (if bool_decide (ProtocolHarmonizer.schema_id e'
                                 = ProtocolHarmonizer.schema_id e)
                 then 2 else 0).
Proof.
  apply (report_protocol_usage_score (H := sample_clock) "ai_2" example_world).
  - exact example_world_well_formed.
  - left.
Defined.

(** ** [initialize_protocol_registry] *)

Section Initialization.
Context `{Clock}.
Import ProtocolHarmonizer.
Implicit Types (schema : gmap string json) (w : World).

Lemma DEFAULT_PROTOCOL_well_formed :
  well_formed_schema DEFAULT_SCHEMA_ID DEFAULT_PROTOCOL.
Proof.
  split; [reflexivity |].
  split; [by eexists |].
  split; [by eexists |].
  split; [by exists 0 | by exists []].
Qed.

Lemma initialize_protocol_registry_run w :
  initialize_protocol_registry w
  = (inr true,
     mkWorld (S (S (S (reads w))))
       (Some (mkRegistry [default_entry] (Some (isoformat_now (reads w)))))
       (<[schema_path DEFAULT_SCHEMA_ID := DEFAULT_PROTOCOL]> (schema_files w))
       (Some (mkPrimary DEFAULT_SCHEMA_ID (isoformat_now (S (reads w)))
                "Default protocol, no alternatives available"
                "ProtocolHarmonizer"))
       (Some [mkEvent (isoformat_now (S (S (reads w)))) "initialization"
                "Protocol registry initialized with default protocol"
                "ProtocolHarmonizer"])).
Proof. reflexivity. Qed.

(** X29.  Whatever the store held, [initialize_protocol_registry]
    returns [True] and leaves a registry whose only entry is the default
    protocol, with its schema document stored, the primary pointer on
    it and a log of one [initialization] event; schema documents of
    other paths stay as they were.  [get_primary_protocol] then returns
    [DEFAULT_PROTOCOL] with the pointer's three fields added, and a
    negotiation writes nothing. *)
Theorem initialize_protocol_registry_state w :
  ∃ w',
    initialize_protocol_registry w = (inr true, w')
    ∧ registered w' = [default_entry]
    ∧ well_formed_registry w'
    ∧ (∀ path, path ≠ schema_path DEFAULT_SCHEMA_ID →
               schema_files w' !! path = schema_files w !! path)
    ∧ get_primary_protocol w'
      = (inr (Some (<["decided_by" := JStr "ProtocolHarmonizer"]>
                      (<["primary_reason"
                         := JStr "Default protocol, no alternatives available"]>
                         (<["primary_since" := JStr (isoformat_now (S (reads w)))]>
                            DEFAULT_PROTOCOL)))), w')
    ∧ get_negotiation_log w'
      = (inr [mkEvent (isoformat_now (S (S (reads w)))) "initialization"
                "Protocol registry initialized with default protocol"
                "ProtocolHarmonizer"], w')
    ∧ _negotiate_primary_protocol w' = (inr tt, w').
Proof.
  eexists. split; [apply initialize_protocol_registry_run |].
  split; [reflexivity |].
  split.
  { apply Forall_cons_2; [| constructor].
    exists DEFAULT_PROTOCOL. split; [| exact DEFAULT_PROTOCOL_well_formed].
    simpl. apply lookup_insert_eq. }
  split.
  { intros path Hpath. simpl. by rewrite lookup_insert_ne. }
  split.
  { unfold get_primary_protocol, load_primary, load_schema. run_M.
    cbn [primary_protocol_json primary_protocol decided_at reason decided_by
         schema_files].
    change (String.eqb DEFAULT_SCHEMA_ID "") with false. cbv beta iota.
    cbn [schema_files].
    rewrite lookup_insert_eq, bool_decide_false; [reflexivity |].
    intros Hempty%map_size_empty_iff.
    by apply (f_equal (λ m : gmap string json, m !! "name")) in Hempty. }
  split; [reflexivity |].
  by apply negotiate_short.
Qed.
End Initialization.

(** ** The primary pointer across calls *)

Section StoreInvariant.
Context `{Clock}.
Import ProtocolHarmonizer.
Implicit Types (schema : gmap string json) (w : World).

Lemma evolves_refl w : evolves w w.
Proof. split; [reflexivity | by left]. Qed.

(** A store with the same registry and the same pointer. *)
Lemma evolves_same w w' :
  registry_json w' = registry_json w →
  primary_protocol_json w' = primary_protocol_json w →
  evolves w w'.
Proof.
  intros Hreg Hprimary. unfold evolves, registered, current_primary.
  rewrite Hreg, Hprimary. split; [reflexivity | by left].
Qed.

Lemma evolves_trans w1 w2 w3 :
  registry_json w3 = registry_json w2 ∨ current_primary w3 = current_primary w2 →
  evolves w1 w2 → evolves w2 w3 → evolves w1 w3.
Proof.
  intros Hstep [Hgrow1 Hptr1] [Hgrow2 Hptr2].
  split; [by etrans |].
  destruct Hptr2 as [Hsame | ?]; [| by right].
  rewrite Hsame. destruct Hptr1 as [? | (id & Hid & Hin)]; [by left |].
  right. exists id. split; [exact Hid |].
  destruct Hgrow2 as [l ->]. rewrite fmap_app. apply elem_of_app. by left.
Qed.

Lemma evolves_pointer_registered w w' :
  evolves w w' → pointer_registered w → pointer_registered w'.
Proof.
  intros [[l Hgrow] Hptr] Hinv id Hid.
  destruct Hptr as [Hsame | (id' & Hid' & Hin)].
  - rewrite Hgrow, fmap_app. apply elem_of_app. left.
    apply Hinv. by rewrite <- Hsame.
  - congruence.
Qed.

Lemma negotiate_evolves w : evolves w (_negotiate_primary_protocol w).2.
Proof.
  destruct (negotiate_effect w) as (w' & Hrun & [-> | (id & score & Hin & Hne & ->)]);
    rewrite Hrun; simpl.
  - apply evolves_refl.
  - split; [reflexivity |]. right. by exists id.
Qed.

Lemma set_primary_protocol_evolves id reason decided_by w :
  evolves w (set_primary_protocol id reason decided_by w).2.
Proof.
  destruct (existsb (λ e, String.eqb (schema_id e) id) (registered w)) eqn:Hknown.
  - rewrite (set_primary_protocol_run _ _ _ _ Hknown). simpl.
    split; [reflexivity |]. right. exists id. split; [reflexivity |].
    apply existsb_exists in Hknown as (e & He & Heq%String.eqb_eq).
    apply list_elem_of_fmap. exists e. split; [by symmetry |].
    by apply list_elem_of_In.
  - unfold set_primary_protocol.
    rewrite (bind_run _load_registry _ w _ w) by reflexivity.
    fold (registered w). rewrite Hknown. apply evolves_refl.
Qed.

Lemma bind_cases {A B} (m : M A) (f : A → M B) w :
  (∃ e w1, m w = (inl e, w1) ∧ (m ≫= f) w = (inl e, w1))
  ∨ (∃ a w1, m w = (inr a, w1) ∧ (m ≫= f) w = f a w1).
Proof.
  run_M. destruct (m w) as [[e | a] w1]; [left | right]; eauto.
Qed.

Lemma pure_bind_cases {A B} (m : M A) (f : A → M B) w :
  pure_M m →
  (∃ e, (m ≫= f) w = (inl e, w)) ∨ (∃ a, m w = (inr a, w) ∧ (m ≫= f) w = f a w).
Proof.
  intros Hpure. specialize (Hpure w).
  destruct (bind_cases m f w) as [(e & w1 & Hm & Hrun) | (a & w1 & Hm & Hrun)];
    rewrite Hm in Hpure; simpl in Hpure; subst w1; [left | right]; eauto.
Qed.

Lemma pure_getitem_as_str schema key : pure_M (getitem schema key ≫= as_str).
Proof. apply pure_bind; [apply pure_getitem | intros; apply pure_as_str]. Qed.

Lemma pure_assign_schema_id schema : pure_M (assign_schema_id schema).
Proof.
  unfold assign_schema_id. destruct (schema !! "schema_id").
  - apply pure_bind; [apply pure_as_str | intros; apply pure_ret].
  - apply pure_bind.
    { apply pure_bind; [apply pure_getitem |]. intros []; by intros ?. }
    intros name. apply pure_bind; [| intros; apply pure_ret].
    apply pure_bind; [apply pure_getitem |]. intros []; by intros ?.
Qed.

(** Whatever [register] returns or raises, the registry has only grown
    and the pointer is as before or on a registered id. *)
Lemma register_evolves schema registering_ai w :
  evolves w (register schema registering_ai w).2.
Proof.
  unfold register.
  destruct (filter _ required_fields) as [| f l]; [| apply evolves_refl].
  match goal with
  | |- context [(assign_schema_id schema ≫= ?f) w] =>
      destruct (pure_bind_cases (assign_schema_id schema) f w
                  (pure_assign_schema_id schema))
        as [[e ->] | ([id schema'] & _ & ->)]; [apply evolves_refl |]
  end.
  rewrite (bind_run _load_registry _ w _ w) by reflexivity.
  fold (registered w).
  destruct (existsb _ (registered w)); [apply evolves_refl |].
  rewrite (bind_run clock_now _ w _ _) by reflexivity.
  set (stored := <["usage_count" := _]> _).
  rewrite (bind_run (write_schema _ _) _ _ tt _) by reflexivity.
  set (w1 := mkWorld _ _ (<[_ := stored]> _) _ _).
  assert (evolves w w1) as Hw1 by (by apply evolves_same).
  match goal with
  | |- context [((getitem stored "name" ≫= as_str) ≫= ?f) w1] =>
      destruct (pure_bind_cases (getitem stored "name" ≫= as_str) f w1
                  (pure_getitem_as_str _ _)) as [[e ->] | (name & _ & ->)];
        [exact Hw1 |]
  end.
  match goal with
  | |- context [((getitem stored "version" ≫= as_str) ≫= ?f) w1] =>
      destruct (pure_bind_cases (getitem stored "version" ≫= as_str) f w1
                  (pure_getitem_as_str _ _)) as [[e ->] | (version & _ & ->)];
        [exact Hw1 |]
  end.
  match goal with
  | |- context [((getitem stored "author" ≫= as_str) ≫= ?f) w1] =>
      destruct (pure_bind_cases (getitem stored "author" ≫= as_str) f w1
                  (pure_getitem_as_str _ _)) as [[e ->] | (author & _ & ->)];
        [exact Hw1 |]
  end.
  rewrite (bind_run clock_now _ w1 _ _) by reflexivity.
  rewrite (bind_run (write_registry _) _ _ tt _) by reflexivity.
  rewrite (bind_run _ _ _ _ _ (log_negotiation_event_run _ _ _ _)).
  match goal with
  | |- context [(_negotiate_primary_protocol ≫= _) ?w0] =>
      pose proof (negotiate_evolves w0) as Hneg;
      destruct (negotiate_primary_protocol_frame w0) as (w' & Hrun & Hreg & _);
      set (w2 := w0) in *
  end.
  rewrite (bind_run _ _ _ _ _ Hrun). rewrite Hrun in Hneg. simpl in Hneg |- *.
  apply (evolves_trans w w2 w'); [by left | | exact Hneg].
  split; [by apply prefix_app_r | by left].
Qed.

(** X30.  In a store where the primary pointer names a registered id (or
    there is no pointer), it still does after any call of
    [register_protocol], [set_primary_protocol],
    [_negotiate_primary_protocol] or [report_protocol_usage], whatever
    the arguments and whatever the call returns; and
    [initialize_protocol_registry] establishes this from any store. *)
Theorem pointer_registered_preserved w :
  pointer_registered w →
  (∀ schema registering_ai,
     pointer_registered (register_protocol schema registering_ai w).2)
  ∧ (∀ id reason decided_by,
       pointer_registered (set_primary_protocol id reason decided_by w).2)
  ∧ pointer_registered (_negotiate_primary_protocol w).2
  ∧ (∀ id using_ai, pointer_registered (report_protocol_usage id using_ai w).2)
  ∧ pointer_registered (initialize_protocol_registry w).2.
Proof.
  intros Hinv. split; [| split; [| split; [| split]]].
  - intros schema registering_ai.
    apply (evolves_pointer_registered w); [| exact Hinv].
    pose proof (register_evolves schema registering_ai w) as Hreg.
    unfold register_protocol, try_except.
    by destruct (register schema registering_ai w) as [[e | r] w1].
  - intros id reason decided_by.
    by apply (evolves_pointer_registered w), Hinv; apply set_primary_protocol_evolves.
  - by apply (evolves_pointer_registered w), Hinv; apply negotiate_evolves.
  - intros id using_ai.
    apply (evolves_pointer_registered w); [| exact Hinv].
    unfold report_protocol_usage, try_except, report_usage.
    rewrite (bind_run (load_schema _) _ w _ w) by reflexivity.
    destruct (schema_files w !! schema_path id) as [schema |];
      [| apply evolves_refl].
    case_bool_decide; [apply evolves_refl |].
    destruct (default (JNum 0) (schema !! "usage_count"));
      first [apply evolves_refl | by apply evolves_same].
  - intros id [= <-]. by left.
Qed.
End StoreInvariant.

(** Witness of X30: the example store has no pointer. *)
Lemma pointer_registered_preserved_witness :
  let w := example_world in
  (∀ schema registering_ai,
     pointer_registered
       (ProtocolHarmonizer.register_protocol (H := sample_clock)
          schema registering_ai w).2)
  ∧ (∀ id reason decided_by,
       pointer_registered
         (ProtocolHarmonizer.set_primary_protocol (H := sample_clock)
            id reason decided_by w).2)
  ∧ pointer_registered
      (ProtocolHarmonizer._negotiate_primary_protocol (H := sample_clock) w).2
  ∧ (∀ id using_ai,
       pointer_registered
         (ProtocolHarmonizer.report_protocol_usage (H := sample_clock)
            id using_ai w).2)
  ∧ pointer_registered
      (ProtocolHarmonizer.initialize_protocol_registry (H := sample_clock) w).2.
Proof.
  apply (pointer_registered_preserved (H := sample_clock) example_world).
  intros id Hid. discriminate Hid.
Defined.
